(** * Verification of the NSX-T policy reconciliation engine

    Shallow embedding of [module_utils/nsxt_base_resource.py]
    (class [NSXTBaseRealizableResource]) and the properties of its
    diff engine, back-fill, poller and recursive traversal. *)

From Stdlib Require Import List String Ascii ZArith Bool Lia Arith.
From Stdlib Require Import Sorting.Permutation Sorting.Sorted.
Import ListNotations.
Local Open Scope string_scope.
Local Open Scope Z_scope.

(* ================================================================== *)
(** * Part I: the embedding *)
(* ================================================================== *)

(** ** Python values

    The values the engine handles are the JSON-shaped values of Ansible
    module parameters and of API response bodies.  A [dict] is kept as
    an association list in insertion order, because the engine iterates
    over [.items()] and may stop (or raise) at the first offending key.
    Floating point numbers are left out. *)

#[warnings="-register-all"]
Inductive value : Type :=
| VNone
| VBool (b : bool)
| VInt (n : Z)
| VStr (s : string)
| VList (l : list value)
| VDict (d : list (string * value)).

Definition dict := list (string * value).

(** Exceptions the engine can meet, all of them subclasses of
    [Exception].  [DuplicateRequestError] and [ApiError] come from the
    policy communicator; the others are the interpreter's own. *)
Inductive exn : Type :=
| TypeError
| KeyError
| AttributeError
| NameError
| PlainException
| DuplicateRequestError
| ApiError (msg : string).

(** Outcome of an expression that may raise. *)
Inductive result (A : Type) : Type :=
| Ret (a : A)
| Exc (e : exn).
Arguments Ret {A} a.
Arguments Exc {A} e.

Definition bind {A B} (r : result A) (k : A -> result B) : result B :=
  match r with
  | Ret a => k a
  | Exc e => Exc e
  end.

Declare Scope py_scope.
Delimit Scope py_scope with py.
Notation "x <- c ;; k" := (bind c (fun x => k))
  (at level 61, c at next level, right associativity) : py_scope.
Local Open Scope py_scope.

(** *** Dictionaries *)

Fixpoint dict_get (k : string) (d : dict) : option value :=
  match d with
  | [] => None
  | (k', v) :: d' => if String.eqb k k' then Some v else dict_get k d'
  end.

Definition dict_has (k : string) (d : dict) : bool :=
  match dict_get k d with Some _ => true | None => false end.

(** [d[k] = v]: an existing key keeps its position, a new key goes last. *)
Fixpoint dict_set (k : string) (v : value) (d : dict) : dict :=
  match d with
  | [] => [(k, v)]
  | (k', v') :: d' =>
      if String.eqb k k' then (k', v) :: d' else (k', v') :: dict_set k v d'
  end.

Definition keys (d : dict) : list string := map fst d.

(** [d.get(k, default)] *)
Definition dict_get_default (k : string) (default : value) (d : dict) : value :=
  match dict_get k d with Some v => v | None => default end.

(** *** Strings: [needle in hay] is the substring test. *)

Fixpoint is_substring (needle hay : string) : bool :=
  String.prefix needle hay ||
  match hay with
  | EmptyString => false
  | String _ hay' => is_substring needle hay'
  end.

(** *** Equality [==]

    Lists compare position by position; dicts compare as finite maps,
    whatever their insertion order; [bool] is a subtype of [int]. *)

Fixpoint py_eq (a b : value) {struct a} : bool :=
  match a, b with
  | VNone, VNone => true
  | VBool x, VBool y => Bool.eqb x y
  | VBool x, VInt y => Z.b2z x =? y
  | VInt x, VBool y => x =? Z.b2z y
  | VInt x, VInt y => x =? y
  | VStr x, VStr y => String.eqb x y
  | VList xs, VList ys =>
      (fix list_eq (xs ys : list value) {struct xs} : bool :=
         match xs, ys with
         | [], [] => true
         | x :: xs', y :: ys' => py_eq x y && list_eq xs' ys'
         | _, _ => false
         end) xs ys
  | VDict d, VDict e =>
      (Nat.eqb (List.length d) (List.length e)) &&
      (fix items_eq (d : dict) {struct d} : bool :=
         match d with
         | [] => true
         | (k, v) :: d' =>
             match dict_get k e with
             | Some w => py_eq v w
             | None => false
             end && items_eq d'
         end) d
  | _, _ => false
  end.

(** *** Truth value: [not x] is [negb (truthy x)]. *)

Definition truthy (v : value) : bool :=
  match v with
  | VNone => false
  | VBool b => b
  | VInt n => negb (n =? 0)
  | VStr s => negb (String.eqb s "")
  | VList l => match l with [] => false | _ => true end
  | VDict d => match d with [] => false | _ => true end
  end.

(** [v is None] *)
Definition py_is_none (v : value) : bool :=
  match v with VNone => true | _ => false end.

(** *** Container protocol with a string key

    [k in c], [c[k]] and [c[k] = v] for a string [k] and an arbitrary
    value [c], with the [TypeError]s and [KeyError]s of the interpreter. *)

Definition py_in (k : string) (c : value) : result bool :=
  match c with
  | VDict d => Ret (dict_has k d)
  | VStr s => Ret (is_substring k s)
  | VList l => Ret (existsb (py_eq (VStr k)) l)
  | _ => Exc TypeError
  end.

Definition py_getitem (c : value) (k : string) : result value :=
  match c with
  | VDict d => match dict_get k d with Some v => Ret v | None => Exc KeyError end
  | _ => Exc TypeError
  end.

Definition py_setitem (c : value) (k : string) (v : value) : result value :=
  match c with
  | VDict d => Ret (VDict (dict_set k v d))
  | _ => Exc TypeError
  end.

(** [x in s] for a string [s]: the left operand must be a string. *)
Definition py_in_str (x : value) (s : string) : result bool :=
  match x with
  | VStr n => Ret (is_substring n s)
  | _ => Exc TypeError
  end.

(** [any(x in s for s in candidates)], evaluated left to right, stopping
    at the first hit. *)
Fixpoint any_in (x : value) (candidates : list string) : result bool :=
  match candidates with
  | [] => Ret false
  | s :: rest =>
      b <- py_in_str x s ;;
      if b then Ret true else any_in x rest
  end.

(** ** DiffEngine: [check_for_update]

    [resource_params] is the recursion argument: the nested call is on
    a dict found inside it. *)

Fixpoint check_for_update (existing_params : value) (resource_params : value)
  {struct resource_params} : result bool :=
  if negb (truthy existing_params) then Ret false
  else
    match resource_params with
    | VDict items =>
        (fix loop (items : dict) {struct items} : result bool :=
           match items with
           | [] => Ret false
           | (k, v) :: rest =>
               present <- py_in k existing_params ;;
               if negb present then Ret true
               else
                 match v with
                 | VDict _ =>
                     e <- py_getitem existing_params k ;;
                     r <- check_for_update e v ;;
                     if r then Ret true else loop rest
                 | _ =>
                     e <- py_getitem existing_params k ;;
                     if negb (py_eq v e) then Ret true else loop rest
                 end
           end) items
    | _ => Exc AttributeError
    end.

(** ** Back-fill: [_fill_missing_resource_params]

    The source mutates [resource_params] in place and returns nothing.
    The embedding returns the mapping as it stands when the call ends,
    together with the exception that ended it, if any: what was copied
    before an exception stays copied. *)

Definition store_back (c : value) (k : string) (v : value) : value :=
  match c with
  | VDict d => VDict (dict_set k v d)
  | _ => c
  end.

Fixpoint _fill_missing_resource_params (existing_params resource_params : value)
  {struct existing_params} : value * option exn :=
  if negb (truthy existing_params) then (resource_params, None)
  else
    match existing_params with
    | VDict items =>
        (fix loop (items : dict) (rp : value) {struct items} : value * option exn :=
           match items with
           | [] => (rp, None)
           | (k, v) :: rest =>
               match py_in k rp with
               | Exc e => (rp, Some e)
               | Ret false =>
                   match py_setitem rp k v with
                   | Exc e => (rp, Some e)
                   | Ret rp' => loop rest rp'
                   end
               | Ret true =>
                   match v with
                   | VDict _ =>
                       match py_getitem rp k with
                       | Exc e => (rp, Some e)
                       | Ret sub =>
                           let (sub', err) := _fill_missing_resource_params v sub in
                           let rp' := store_back rp k sub' in
                           match err with
                           | Some e => (rp', Some e)
                           | None => loop rest rp'
                           end
                       end
                   | _ => loop rest rp
                   end
               end
           end) items resource_params
    | _ => (resource_params, Some AttributeError)
    end.

(** ** Poller: [_wait_till_create]

    What [self._send_request_to_API("/" + self.id)] answers at each
    attempt is not decided by the engine.  The poller is therefore
    written over an arbitrary state [S] of the outside world, a [fetch]
    that moves it and answers, and a [sleep]. *)

Inductive response : Type :=
| Raises (e : exn)
| Returns (rc : Z) (resp : value).

Definition FAILED_STATES : list string := ["failed"].
Definition IN_PROGRESS_STATES : list string := ["pending"; "in_progress"].
Definition SUCCESS_STATES : list string := ["partial_success"; "success"].

Section Poller.
Variable S : Type.
Variable fetch : S -> S * response.
Variable sleep : Z -> S -> S.

(** The [while True] loop.  [fuel] bounds the iterations of the
    embedding only; [None] means the fuel ran out. *)
Fixpoint wait_loop (fuel : nat) (count : Z) (s : S) : option (S * result bool) :=
  match fuel with
  | O => None
  | Datatypes.S fuel' =>
      let (s1, r) := fetch s in
      match r with
      | Raises e => Some (s1, Exc e)
      | Returns rc resp =>
          match py_in "state" resp with
          | Exc e => Some (s1, Exc e)
          | Ret true =>
              match (st <- py_getitem resp "state" ;; any_in st IN_PROGRESS_STATES) with
              | Exc e => Some (s1, Exc e)
              | Ret true =>
                  let s2 := sleep 10 s1 in
                  let count := count + 1 in
                  if count =? 90 then Some (s2, Ret false)
                  else wait_loop fuel' count s2
              | Ret false =>
                  match (st <- py_getitem resp "state" ;; any_in st SUCCESS_STATES) with
                  | Exc e => Some (s1, Exc e)
                  | Ret true => Some (s1, Ret true)
                  | Ret false => Some (s1, Ret false)
                  end
              end
          | Ret false =>
              if negb (rc =? 200) then
                let s2 := sleep 1 s1 in
                let count := count + 1 in
                if count =? 90 then Some (s2, Ret false)
                else wait_loop fuel' count s2
              else Some (s1, Ret true)
          end
      end
  end.

(** [try: count = 0; while True: ... except Exception: return False] *)
Definition _wait_till_create (fuel : nat) (s : S) : option (S * bool) :=
  match wait_loop fuel 0 s with
  | None => None
  | Some (s', Ret b) => Some (s', b)
  | Some (s', Exc _) => Some (s', false)
  end.

(** One round of an attempt that asks for a retry. *)
Definition retry_round (pause : Z) (s : S) : S := sleep pause (fst (fetch s)).
End Poller.

(** The three status classes of a [state] field, as the two [any(...)]
    tests of [_wait_till_create] separate them. *)
Inductive status_class : Type := InProgress | Success | Failed.

Definition classify (st : string) : status_class :=
  if existsb (is_substring st) IN_PROGRESS_STATES then InProgress
  else if existsb (is_substring st) SUCCESS_STATES then Success
  else Failed.

(** ** Resource classes

    The concrete resource kinds are subclasses that live outside this
    file; a class is described by what the base class asks of it.
    [sub_resources] lists the nested resource classes in the order of
    the class body ([resource_class.__dict__.values()]). *)

#[warnings="-register-all"]
Inductive resource_class : Type := ResourceClass {
  get_resource_name : string;
  get_unique_arg_identifier : string;
  get_resource_creation_priority : Z;
  create_or_update_subresource_first : bool;
  delete_subresource_first : bool;
  achieve_subresource_state_if_del_parent : bool;
  do_wait_till_create : bool;
  get_resource_spec : list string;
  get_resource_base_url : dict -> string;
  sub_resources : list resource_class
}.

(** The spec speaks of [inheritParentAbsent]; it is the negation of the
    hook [achieve_subresource_state_if_del_parent]. *)
Definition inheritParentAbsent (c : resource_class) : bool :=
  negb (achieve_subresource_state_if_del_parent c).

Definition BASE_RESOURCES : list string := ["NSXTSegment"; "NSXTTier0"].
Definition INCORRECT_ARGUMENT_NAME_VALUE : value := VStr "error_invalid_parameter".

Definition in_base (c : resource_class) : bool :=
  existsb (String.eqb (get_resource_name c)) BASE_RESOURCES.

(** [_get_base_arg_spec_of_resource().keys()] *)
Definition base_arg_spec_keys : list string :=
  ["id"; "display_name"; "description"; "tags"; "state"].

(** *** Sibling order: [_get_sub_resources_class_of]

    [list.sort] is stable, also with [reverse=True]: elements with equal
    keys keep their order.  A stable insertion sort computes the same
    list. *)

Section StableSort.
Variable A : Type.
Variable key : A -> Z.
(** [before x y]: [x] may stay in front of [y]. *)
Variable before : Z -> Z -> bool.

Fixpoint insert_sorted (x : A) (l : list A) : list A :=
  match l with
  | [] => [x]
  | y :: l' => if before (key x) (key y) then x :: l else y :: insert_sorted x l'
  end.

Fixpoint stable_sort (l : list A) : list A :=
  match l with
  | [] => []
  | x :: l' => insert_sorted x (stable_sort l')
  end.
End StableSort.

(** [state] is [None] when [self] has no [_state] attribute yet. *)
Definition _get_sub_resources_class_of (state : option value) (c : resource_class)
  : list resource_class :=
  let subresources := sub_resources c in
  match state with
  | Some st =>
      if py_eq st (VStr "present")
      then stable_sort _ get_resource_creation_priority Z.geb subresources
      else stable_sort _ get_resource_creation_priority Z.leb subresources
  | None => stable_sort _ get_resource_creation_priority Z.leb subresources
  end.

(** ** The run: module, objects, outside world *)

(** A record of the result log.  [log_key] is [Some id] when the source
    wraps the record as [{self.id: {...}}].  Formatted strings are kept
    as the format and its arguments, [json.dumps(x)] as [x], and
    [str(resp)] as the response. *)
Record log_record : Type := {
  log_key : option value;
  log_changed : bool;
  log_id : option value;
  log_message : option (string * list value);
  log_msg : option (string * list value);
  log_debug_out : option value;
  log_body : option (Z * value);
  log_resource_type : option string
}.

Inductive event : Type :=
| EvRequest (url method : string) (data : option value) (ignore_errors : bool)
| EvSleep (seconds : Z).

(** The two list objects a run can append to: the list that is the
    default value of [realize]'s parameter [successful_resource_exec_logs]
    (one object, made when the function is defined), and a list made by
    whoever calls [realize] at the top. *)
Inductive list_ref : Type := DefaultLogs | CallerLogs.

(** What a positional or keyword argument of [realize] can be. *)
Inductive arg : Type :=
| ArgBool (b : bool)
| ArgList (r : list_ref).

(** The object stored under [_parent_info["_parent"]].  Its [_state] is
    assigned before the object is stored and never changed afterwards,
    so the object is kept by its fields. *)
Record parent_ref : Type := {
  parent_name : string;
  parent_state : value
}.

(** [_parent_info] is one dict for the whole run: every sub-resource is
    handed its parent's own object ([sub_resource._parent_info =
    self._parent_info]). *)
Record world : Type := {
  trace : list event;
  default_logs : list log_record;
  caller_logs : list log_record;
  parent_info_ids : dict;
  parent_info_parent : option parent_ref
}.

Definition read_logs (r : list_ref) (w : world) : list log_record :=
  match r with
  | DefaultLogs => default_logs w
  | CallerLogs => caller_logs w
  end.

Inductive exit_report : Type :=
| ExitJson (successfully_updated_resources : list log_record)
| FailJson (msg : string * list value)
           (successfully_updated_resources : option (list log_record)).

(** A command of the run: it ends normally, leaves through
    [module.exit_json] / [module.fail_json] (a [SystemExit], which no
    [except Exception] catches), raises, or exhausts the fuel of the
    embedding. *)
Inductive step (A : Type) : Type :=
| Ok (a : A) (w : world)
| Exit (r : exit_report) (w : world)
| Raise (e : exn) (w : world)
| OutOfFuel.
Arguments Ok {A} a w.
Arguments Exit {A} r w.
Arguments Raise {A} e w.
Arguments OutOfFuel {A}.

Definition run (A : Type) : Type := world -> step A.

Definition ret {A} (a : A) : run A := fun w => Ok a w.

Definition seq {A B} (c : run A) (k : A -> run B) : run B :=
  fun w =>
    match c w with
    | Ok a w' => k a w'
    | Exit r w' => Exit r w'
    | Raise e w' => Raise e w'
    | OutOfFuel => OutOfFuel
    end.

Declare Scope run_scope.
Delimit Scope run_scope with run.
Notation "x <<- c ;; k" := (seq c (fun x => k))
  (at level 61, c at next level, right associativity) : run_scope.
Notation "c ;;; k" := (seq c (fun _ => k))
  (at level 61, right associativity) : run_scope.
Local Open Scope run_scope.

Definition raise {A} (e : exn) : run A := fun w => Raise e w.

Definition lift {A} (r : result A) : run A :=
  match r with
  | Ret a => ret a
  | Exc e => raise e
  end.

(** [try: c except Exception as err: h err] *)
Definition try_except {A} (c : run A) (h : exn -> run A) : run A :=
  fun w =>
    match c w with
    | Raise e w' => h e w'
    | other => other
    end.

Definition append (r : list_ref) (x : log_record) : run unit :=
  fun w =>
    match r with
    | DefaultLogs =>
        Ok tt {| trace := trace w; default_logs := default_logs w ++ [x];
                 caller_logs := caller_logs w;
                 parent_info_ids := parent_info_ids w;
                 parent_info_parent := parent_info_parent w |}
    | CallerLogs =>
        Ok tt {| trace := trace w; default_logs := default_logs w;
                 caller_logs := caller_logs w ++ [x];
                 parent_info_ids := parent_info_ids w;
                 parent_info_parent := parent_info_parent w |}
    end.

Definition emit (ev : event) : run unit :=
  fun w =>
    Ok tt {| trace := trace w ++ [ev]; default_logs := default_logs w;
             caller_logs := caller_logs w;
             parent_info_ids := parent_info_ids w;
             parent_info_parent := parent_info_parent w |}.

Definition set_parent_info (ids : dict) (p : option parent_ref) : run unit :=
  fun w =>
    Ok tt {| trace := trace w; default_logs := default_logs w;
             caller_logs := caller_logs w;
             parent_info_ids := ids;
             parent_info_parent := p |}.

Definition exit_json (r : list_ref) : run unit :=
  fun w => Exit (ExitJson (read_logs r w)) w.

Definition fail_json (msg : string * list value) (r : option list_ref) : run unit :=
  fun w =>
    Exit (FailJson msg (match r with Some r => Some (read_logs r w) | None => None end)) w.

(** ["/" + self.id] *)
Definition slash (id : value) : result string :=
  match id with
  | VStr s => Ret ("/" ++ s)
  | _ => Exc TypeError
  end.

(** ** Reconciler *)

(** [self] once [realize] has set its attributes. *)
Record resource : Type := {
  self_class : resource_class;
  self_state : value;
  self_id : value;
  self_resource_params : value;
  self_existing_resource : value
}.

Section Reconciler.
(** [PolicyCommunicator.request]: the answer to the last request of a
    history of requests and sleeps. *)
Variable api : list event -> response.
(** [self.module.params] and [self.module.check_mode].  The
    [AnsibleModule] is built anew for every resource from the same
    command line, so both are the same for all of them.  What
    [AnsibleModule] itself does with its [supports_check_mode] argument
    is outside the engine and is not modelled. *)
Variable params : dict.
Variable check_mode : bool.

Definition _send_request_to_API (c : resource_class) (suffix : string)
    (ignore_error : bool) (method : string) (data : option value)
  : run (Z * value) :=
  fun w =>
    let resource_base_url := get_resource_base_url c (parent_info_ids w) in
    match emit (EvRequest (resource_base_url ++ suffix) method data ignore_error) w with
    | Ok _ w' =>
        match api (trace w') with
        | Raises e => Raise e w'
        | Returns rc resp => Ok (rc, resp) w'
        end
    | Exit r w' => Exit r w'
    | Raise e w' => Raise e w'
    | OutOfFuel => OutOfFuel
    end.

Definition _getAttribute (c : resource_class) (has_parent_info : bool)
    (attribute : string) : run value :=
  if in_base c then
    ret (dict_get_default attribute
           (dict_get_default (get_resource_name c ++ "_" ++ attribute)
              INCORRECT_ARGUMENT_NAME_VALUE params) params)
  else
    inherited <<-
      (if String.eqb attribute "state" then
         if has_parent_info then
           fun w =>
             match parent_info_parent w with
             | Some p =>
                 Ok (py_eq (parent_state p) (VStr "absent") &&
                     negb (achieve_subresource_state_if_del_parent c)) w
             | None => Raise KeyError w
             end
         else raise AttributeError
       else ret false) ;;
    if (inherited : bool) then ret (VStr "absent")
    else
      ret (dict_get_default (get_unique_arg_identifier c ++ "_" ++ attribute)
             INCORRECT_ARGUMENT_NAME_VALUE params).

Definition unwanted_resource_params (c : resource_class) : list string :=
  if in_base c then ["state"; "id"]
  else map (fun unwanted_resource_param =>
              get_unique_arg_identifier c ++ "_" ++ unwanted_resource_param)
           ["state"; "id"].

Definition filter_with_spec (c : resource_class) (spec : list string) (acc : dict) : dict :=
  fold_left
    (fun (acc : dict) (key : string) =>
       let arg_key :=
         if in_base c then key else get_unique_arg_identifier c ++ "_" ++ key in
       match dict_get arg_key params with
       | Some v =>
           if negb (existsb (String.eqb arg_key) (unwanted_resource_params c)) &&
              negb (py_is_none v)
           then dict_set key v acc
           else acc
       | None => acc
       end)
    spec acc.

Definition _extract_resource_params (c : resource_class) : dict :=
  filter_with_spec c base_arg_spec_keys (filter_with_spec c (get_resource_spec c) []).

Definition update_parent_info (c : resource_class) (id : value) : run unit :=
  fun w =>
    set_parent_info (dict_set (get_unique_arg_identifier c ++ "_id") id (parent_info_ids w))
                    (parent_info_parent w) w.

Definition _update_parent_info (c : resource_class) (state : value) : run unit :=
  fun w =>
    set_parent_info (parent_info_ids w)
      (Some {| parent_name := get_resource_name c; parent_state := state |}) w.

Definition sleep_world (seconds : Z) (w : world) : world :=
  match emit (EvSleep seconds) w with
  | Ok _ w' => w'
  | _ => w
  end.

(** The fetch of the two waiting loops: [self._send_request_to_API("/" + self.id)]. *)
Definition fetch_self (self : resource) (w : world) : world * response :=
  match (suffix <<- lift (slash (self_id self)) ;;
         _send_request_to_API (self_class self) suffix true "GET" None) w with
  | Ok (rc, resp) w' => (w', Returns rc resp)
  | Raise e w' => (w', Raises e)
  | Exit _ w' => (w', Raises PlainException)
  | OutOfFuel => (w, Raises PlainException)
  end.

Fixpoint _wait_till_delete (fuel : nat) (self : resource) : run unit :=
  match fuel with
  | O => fun _ => OutOfFuel
  | S fuel' =>
      fun w =>
        let (w1, r) := fetch_self self w in
        match r with
        | Returns _ _ => _wait_till_delete fuel' self (sleep_world 10 w1)
        | Raises DuplicateRequestError => fail_json ("Duplicate request", []) None w1
        | Raises _ => Ok tt w1
        end
  end.

(** [self._wait_till_create()] inside the run.  The poller needs at most
    90 turns of its loop, so 90 units of fuel never run out. *)
Definition wait_till_create_run (self : resource) : run bool :=
  fun w =>
    match _wait_till_create world (fetch_self self) sleep_world 90 w with
    | Some (w', b) => Ok b w'
    | None => OutOfFuel
    end.

(** [self.update_resource_params()], called first, is the hook of the
    base class, which does nothing. *)
Definition _achieve_present_state (self : resource) (logs : list_ref) : run unit :=
  let c := self_class self in
  is_resource_updated <<-
    lift (check_for_update (self_existing_resource self) (self_resource_params self)) ;;
  if negb is_resource_updated then
    if check_mode then
      append logs {| log_key := Some (self_id self); log_changed := true;
                     log_id := Some (VStr "12345"); log_message := None; log_msg := None;
                     log_debug_out := Some (self_resource_params self);
                     log_body := None;
                     log_resource_type := Some (get_resource_name c) |}
    else
      try_except
        (if truthy (self_existing_resource self) then
           append logs {| log_key := Some (self_id self); log_changed := false;
                          log_id := Some (self_id self);
                          log_message := Some ("%s with id %s already exists.",
                                               [VStr (get_resource_name c); self_id self]);
                          log_msg := None; log_debug_out := None; log_body := None;
                          log_resource_type := Some (get_resource_name c) |}
         else
           suffix <<- lift (slash (self_id self)) ;;
           resp <<- _send_request_to_API c suffix true "PATCH"
                      (Some (self_resource_params self)) ;;
           realized <<- (if do_wait_till_create c then wait_till_create_run self
                         else ret true) ;;
           if negb realized then raise PlainException
           else
             append logs {| log_key := Some (self_id self); log_changed := true;
                            log_id := Some (self_id self);
                            log_message := Some ("%s with id %s created.",
                                                 [VStr (get_resource_name c); self_id self]);
                            log_msg := None; log_debug_out := None;
                            log_body := Some resp;
                            log_resource_type := Some (get_resource_name c) |})
        (fun err =>
           fail_json ("Failed to add %s with id %s.Request body [%s]. Error[%s].",
                      [VStr (get_resource_name c); self_id self; self_resource_params self])
                     (Some logs))
  else
    if check_mode then
      (* [successfully_updated_resources.append(...)]: the name is not bound *)
      raise NameError
    else
      revision <<- lift (py_getitem (self_existing_resource self) "_revision") ;;
      resource_params <<- lift (py_setitem (self_resource_params self) "_revision" revision) ;;
      try_except
        (suffix <<- lift (slash (self_id self)) ;;
         resp <<- _send_request_to_API c suffix true "PATCH" (Some resource_params) ;;
         append logs {| log_key := None; log_changed := true;
                        log_id := Some (self_id self);
                        log_message := Some ("%s with id %s updated.",
                                             [VStr (get_resource_name c); self_id self]);
                        log_msg := None; log_debug_out := None;
                        log_body := Some resp;
                        log_resource_type := Some (get_resource_name c) |})
        (fun err =>
           fail_json ("Failed to update %s with id %s.Request body [%s]. Error[%s].",
                      [VStr (get_resource_name c); self_id self; resource_params])
                     (Some logs)).

Definition _achieve_absent_state (fuel : nat) (self : resource) (logs : list_ref) : run unit :=
  let c := self_class self in
  if py_is_none (self_existing_resource self) then
    append logs {| log_key := Some (self_id self); log_changed := false;
                   log_id := None; log_message := None;
                   log_msg := Some ("No %s exist with id %s",
                                    [VStr (get_resource_name c); self_id self]);
                   log_debug_out := None; log_body := None;
                   log_resource_type := Some (get_resource_name c) |}
  else if check_mode then
    append logs {| log_key := None; log_changed := true;
                   log_id := Some (self_id self); log_message := None; log_msg := None;
                   log_debug_out := Some (self_resource_params self);
                   log_body := None;
                   log_resource_type := Some (get_resource_name c) |}
  else
    try_except
      (suffix <<- lift (slash (self_id self)) ;;
       _send_request_to_API c suffix true "DELETE" None ;;;
       _wait_till_delete fuel self ;;;
       append logs {| log_key := None; log_changed := true;
                      log_id := Some (self_id self);
                      log_message := Some ("%s with id %s deleted.",
                                           [VStr (get_resource_name c); self_id self]);
                      log_msg := None; log_debug_out := None; log_body := None;
                      log_resource_type := None |})
      (fun err =>
         fail_json ("Failed to delete %s with id %s. Error[%s].",
                    [VStr (get_resource_name c); self_id self])
                   (Some logs)).

(** The recursion of [realize] goes through [_achieve_state] and
    [achieve_subresource_state]; they take the recursive call as
    [realize_sub]. *)
Section Traversal.
Variable realize_sub : resource_class -> bool -> arg -> option list_ref -> run unit.

(** [sub_resource.realize(successful_resource_exec_logs)]: the list
    is the first positional argument, which [realize] names
    [supports_check_mode]; the second parameter takes its default. *)
Definition achieve_subresource_state (self : resource)
    (successful_resource_exec_logs : list_ref) : run unit :=
  fold_left
    (fun (done : run unit) (sub_resource_class : resource_class) =>
       done ;;; realize_sub sub_resource_class true
                  (ArgList successful_resource_exec_logs) None)
    (_get_sub_resources_class_of (Some (self_state self)) (self_class self))
    (ret tt).

Definition _achieve_state (fuel : nat) (self : resource)
    (successful_resource_exec_logs : list_ref) : run unit :=
  let c := self_class self in
  let present := py_eq (self_state self) (VStr "present") in
  let absent := py_eq (self_state self) (VStr "absent") in
  if py_eq (self_id self) INCORRECT_ARGUMENT_NAME_VALUE then ret tt
  else
    (if present && create_or_update_subresource_first c
     then achieve_subresource_state self successful_resource_exec_logs
     else ret tt) ;;;
    (if absent && delete_subresource_first c
     then achieve_subresource_state self successful_resource_exec_logs
     else ret tt) ;;;
    (if present
     then _achieve_present_state self successful_resource_exec_logs
     else _achieve_absent_state fuel self successful_resource_exec_logs) ;;;
    (if present && negb (create_or_update_subresource_first c)
     then achieve_subresource_state self successful_resource_exec_logs
     else ret tt) ;;;
    (if absent && negb (delete_subresource_first c)
     then achieve_subresource_state self successful_resource_exec_logs
     else ret tt) ;;;
    (if in_base c then exit_json successful_resource_exec_logs else ret tt).
End Traversal.

(** The fetch of the existing resource and the back-fill, under one
    [try ... except Exception].  The back-fill works in place, so what
    it copied before an exception stays in [resource_params] although
    [existing_resource] is reset to [None]. *)
Definition resolve_existing (c : resource_class) (id : value) (resource_params : value)
  : run (value * value) :=
  fetched <<-
    try_except
      (suffix <<- lift (slash id) ;;
       r <<- _send_request_to_API c suffix false "GET" None ;;
       ret (Some (snd r)))
      (fun err => ret None) ;;
  match fetched with
  | None => ret (VNone, resource_params)
  | Some existing_resource =>
      let (filled, err) := _fill_missing_resource_params existing_resource resource_params in
      match err with
      | None => ret (existing_resource, filled)
      | Some _ => ret (VNone, filled)
      end
  end.

(** [has_parent_info] tells whether [self._parent_info] was set by the
    caller, as [achieve_subresource_state] does.  [supports_check_mode]
    only goes to [AnsibleModule]; an omitted
    [successful_resource_exec_logs] is the default list object. *)
Fixpoint realize (fuel : nat) (c : resource_class) (has_parent_info : bool)
    (supports_check_mode : arg) (successful_resource_exec_logs : option list_ref)
    {struct fuel} : run unit :=
  match fuel with
  | O => fun _ => OutOfFuel
  | S fuel' =>
      let logs :=
        match successful_resource_exec_logs with
        | Some r => r
        | None => DefaultLogs
        end in
      state <<- _getAttribute c has_parent_info "state" ;;
      id <<- _getAttribute c has_parent_info "id" ;;
      let resource_params := VDict (_extract_resource_params c) in
      (if has_parent_info then ret tt else set_parent_info [] None) ;;;
      update_parent_info c id ;;;
      _update_parent_info c state ;;;
      resolved <<- resolve_existing c id resource_params ;;
      _achieve_state (realize fuel') fuel'
        {| self_class := c; self_state := state; self_id := id;
           self_resource_params := snd resolved;
           self_existing_resource := fst resolved |}
        logs
  end.
End Reconciler.

(** ** Specification-side definitions *)

(** [needsUpdate existing desired], in the words of the design: some key
    of [desired] is missing from a non-empty [existing], or holds a
    nested mapping that needs an update against what [existing] holds
    there, or holds a sequence that differs position by position, or
    holds another value that differs. *)
Inductive needsUpdate : value -> dict -> Prop :=
| NU_missing (e d : dict) (k : string) (v : value) :
    e <> [] -> In (k, v) d -> dict_get k e = None ->
    needsUpdate (VDict e) d
| NU_nested (e d : dict) (k : string) (d' : dict) (x : value) :
    e <> [] -> In (k, VDict d') d -> dict_get k e = Some x ->
    needsUpdate x d' ->
    needsUpdate (VDict e) d
| NU_sequence (e d : dict) (k : string) (l : list value) (x : value) :
    e <> [] -> In (k, VList l) d -> dict_get k e = Some x ->
    py_eq (VList l) x = false ->
    needsUpdate (VDict e) d
| NU_other (e d : dict) (k : string) (v x : value) :
    e <> [] -> In (k, v) d -> dict_get k e = Some x ->
    (forall d', v <> VDict d') -> (forall l, v <> VList l) ->
    py_eq v x = false ->
    needsUpdate (VDict e) d.

(** [existing] is absent, empty, or a mapping that holds an absent, empty
    or mapping value wherever [desired] holds a nested mapping. *)
Fixpoint shaped (existing desired : value) {struct desired} : bool :=
  negb (truthy existing) ||
  match existing, desired with
  | VDict e, VDict d =>
      (fix all_items (d : dict) {struct d} : bool :=
         match d with
         | [] => true
         | (k, v) :: rest =>
             match v, dict_get k e with
             | VDict _, Some x => shaped x v
             | _, _ => true
             end && all_items rest
         end) d
  | _, _ => false
  end.

(** Positional equality of two sequences. *)
Inductive positional_eq : list value -> list value -> Prop :=
| pe_nil : positional_eq [] []
| pe_cons x y xs ys :
    py_eq x y = true -> positional_eq xs ys -> positional_eq (x :: xs) (y :: ys).

(** [after] is [before] with entries added, at the top or inside nested
    mappings; nothing that [before] holds is replaced or removed. *)
#[warnings="-register-all"]
Inductive extends : value -> value -> Prop :=
| ext_same (v : value) : extends v v
| ext_dict (d d' : dict) :
    (forall k v, dict_get k d = Some v ->
                 exists v', dict_get k d' = Some v' /\ extends v v') ->
    extends (VDict d) (VDict d').

(** The entry of a mapping, [None] for a missing key or another value. *)
Definition value_get (k : string) (v : value) : option value :=
  match v with
  | VDict d => dict_get k d
  | _ => None
  end.

Definition has_key (k : string) (v : value) : bool :=
  match value_get k v with Some _ => true | None => false end.

(** ** Sample runs

    A manager that answers a [GET] from a fixed table of resources, by
    URL, and accepts every other request; a resource class with the
    defaults of the base class; and the state a run starts from. *)

Definition manager (remote : dict) (history : list event) : response :=
  match last history (EvSleep 0) with
  | EvRequest url method _ _ =>
      if String.eqb method "GET" then
        match dict_get url remote with
        | Some body => Returns 200 body
        | None => Raises (ApiError "not found")
        end
      else Returns 200 VNone
  | EvSleep _ => Raises PlainException
  end.

Definition sample_class (name : string) (priority : Z) (keeps_own_state : bool)
    (base_url : string) (subs : list resource_class) : resource_class :=
  {| get_resource_name := name;
     get_unique_arg_identifier := name;
     get_resource_creation_priority := priority;
     create_or_update_subresource_first := false;
     delete_subresource_first := true;
     achieve_subresource_state_if_del_parent := keeps_own_state;
     do_wait_till_create := false;
     get_resource_spec := [];
     get_resource_base_url := fun _ => base_url;
     sub_resources := subs |}.

Definition initial_world : world :=
  {| trace := []; default_logs := []; caller_logs := [];
     parent_info_ids := []; parent_info_parent := None |}.

(** What a log holds, record by record: the id and the message. *)
Definition summary (logs : list log_record)
  : list (option value * option (string * list value)) :=
  map (fun r => (log_id r,
                 match log_message r with
                 | Some m => Some m
                 | None => log_msg r
                 end)) logs.

(** A segment with one port, both declared present. *)
Definition segment_with_port : resource_class :=
  sample_class "NSXTSegment" 1 false "/infra/segments"
    [sample_class "NSXTSegmentPort" 5 false "/infra/segments/seg1/ports" []].

Definition segment_with_port_params : dict :=
  [("id", VStr "seg1"); ("display_name", VStr "web"); ("state", VStr "present");
   ("NSXTSegmentPort_id", VStr "p1");
   ("NSXTSegmentPort_display_name", VStr "uplink");
   ("NSXTSegmentPort_state", VStr "present")].

(** A segment declared absent with two sub-resources declared present:
    the first, of priority 1, keeps its own state when the parent goes;
    the second, of priority 2, has the default behaviour. *)
Definition segment_with_two : resource_class :=
  sample_class "NSXTSegment" 1 false "/infra/segments"
    [sample_class "NSXTSegmentBinding" 1 true "/infra/segments/seg1/bindings" [];
     sample_class "NSXTSegmentPort" 2 false "/infra/segments/seg1/ports" []].

Definition segment_with_two_params : dict :=
  [("id", VStr "seg1"); ("display_name", VStr "web"); ("state", VStr "absent");
   ("NSXTSegmentBinding_id", VStr "b1");
   ("NSXTSegmentBinding_display_name", VStr "binding");
   ("NSXTSegmentBinding_state", VStr "present");
   ("NSXTSegmentPort_id", VStr "p1");
   ("NSXTSegmentPort_display_name", VStr "uplink");
   ("NSXTSegmentPort_state", VStr "present")].

(** A segment that exists on the manager under another display name. *)
Definition lone_segment : resource_class :=
  sample_class "NSXTSegment" 1 false "/infra/segments" [].

Definition lone_segment_params : dict :=
  [("id", VStr "seg1"); ("display_name", VStr "web"); ("state", VStr "present")].

Definition lone_segment_remote : dict :=
  [("/infra/segments/seg1",
    VDict [("id", VStr "seg1"); ("display_name", VStr "old"); ("_revision", VInt 3)])].

(** A parent with three sub-resources of priorities 10, 5 and 1. *)
Definition parent_of_three : resource_class :=
  sample_class "NSXTTier0" 1 false "/infra/tier-0s"
    [sample_class "B" 5 false "/b" [];
     sample_class "C" 1 false "/c" [];
     sample_class "A" 10 false "/a" []].

(** The sub-resources of a list realized one after the other, first
    element first. *)
Fixpoint realize_in_order
    (realize_sub : resource_class -> bool -> arg -> option list_ref -> run unit)
    (logs : list_ref) (l : list resource_class) : run unit :=
  match l with
  | [] => ret tt
  | sub_resource_class :: l' =>
      realize_sub sub_resource_class true (ArgList logs) None ;;;
      realize_in_order realize_sub logs l'
  end.

(** What a fetched response reports.  A response carries a status field
    when its body is a mapping with a [state] key. *)
Definition reports_status (r : response) (st : string) : Prop :=
  exists rc d, r = Returns rc (VDict d) /\ dict_get "state" d = Some (VStr st).

Definition reports_in_progress (r : response) : Prop :=
  exists st, reports_status r st /\ classify st = InProgress.

(** No status field, and a status code other than 200. *)
Definition reports_code_only_not_ok (r : response) : Prop :=
  exists rc d, r = Returns rc (VDict d) /\ dict_get "state" d = None /\ rc <> 200.

(** A fetch that counts its calls and always answers [pending]. *)
Definition always_pending (calls : nat) : nat * response :=
  (Datatypes.S calls, Returns 200 (VDict [("state", VStr "pending")])).

(** A fetch that counts its calls and always answers [503] with no
    status field. *)
Definition always_unavailable (calls : nat) : nat * response :=
  (Datatypes.S calls, Returns 503 (VDict [])).

(** A fetch that counts its calls and always answers [failed]. *)
Definition always_failed (calls : nat) : nat * response :=
  (Datatypes.S calls, Returns 200 (VDict [("state", VStr "failed")])).

Definition no_sleep (seconds : Z) (calls : nat) : nat := calls.

(** An outside world that counts the fetches made and the seconds
    slept, and a manager that answers every fetch with the status [st]
    and the code 200. *)
Definition always_reports (st : string) (s : nat * Z) : (nat * Z) * response :=
  ((Datatypes.S (fst s), snd s), Returns 200 (VDict [("state", VStr st)])).

Definition counted_sleep (seconds : Z) (s : nat * Z) : nat * Z :=
  (fst s, snd s + seconds).

(** ** Induction on nested values *)

Section ValueInduction.
Variable P : value -> Prop.
Hypothesis P_none : P VNone.
Hypothesis P_bool : forall b, P (VBool b).
Hypothesis P_int : forall n, P (VInt n).
Hypothesis P_str : forall s, P (VStr s).
Hypothesis P_list : forall l, Forall P l -> P (VList l).
Hypothesis P_dict : forall d, Forall (fun kv => P (snd kv)) d -> P (VDict d).

Fixpoint value_nested_ind (v : value) : P v :=
  match v with
  | VNone => P_none
  | VBool b => P_bool b
  | VInt n => P_int n
  | VStr s => P_str s
  | VList l =>
      P_list l
        ((fix all (l : list value) : Forall P l :=
            match l with
            | [] => Forall_nil P
            | x :: l' => Forall_cons x (value_nested_ind x) (all l')
            end) l)
  | VDict d =>
      P_dict d
        ((fix all (d : dict) : Forall (fun kv => P (snd kv)) d :=
            match d with
            | [] => Forall_nil _
            | kv :: d' => Forall_cons kv (value_nested_ind (snd kv)) (all d')
            end) d)
  end.
End ValueInduction.

(** ** Further specification-side definitions *)



(** One round of the delete wait that finds the resource still there:
    the fetch, then [time.sleep(10)]. *)
Definition delete_round (api : list event -> response) (self : resource) (w : world)
  : world :=
  sleep_world 10 (fst (fetch_self api self w)).

(** The lone segment as an object, to be deleted. *)
Definition lone_segment_self : resource :=
  {| self_class := lone_segment; self_state := VStr "absent";
     self_id := VStr "seg1"; self_resource_params := VDict [];
     self_existing_resource := VDict [("id", VStr "seg1")] |}.

(** A manager that answers the first [k] requests and reports every
    later one as not found. *)
Definition manager_until (k : nat) (history : list event) : response :=
  if Nat.leb
       (List.length
          (filter (fun ev => match ev with EvRequest _ _ _ _ => true | EvSleep _ => false end)
                  history)) k
  then Returns 200 (VDict [])
  else Raises (ApiError "not found").

(** The name under which a resource reads its field [key] from the
    module parameters. *)
Definition arg_key (c : resource_class) (key : string) : string :=
  if in_base c then key else get_unique_arg_identifier c ++ "_" ++ key.

(** A value as the interpreter can hold it: the keys of every dict,
    nested ones included, are distinct. *)
#[warnings="-register-all"]
Inductive well_formed : value -> Prop :=
| wf_none : well_formed VNone
| wf_bool (b : bool) : well_formed (VBool b)
| wf_int (n : Z) : well_formed (VInt n)
| wf_str (s : string) : well_formed (VStr s)
| wf_list (l : list value) : Forall well_formed l -> well_formed (VList l)
| wf_dict (d : dict) :
    NoDup (keys d) -> Forall (fun kv => well_formed (snd kv)) d ->
    well_formed (VDict d).

(** Comparing [v] with itself asks for no update. *)
Definition no_self_update (v : value) : Prop :=
  match v with
  | VDict _ => check_for_update v v = Ret false
  | _ => py_eq v v = true
  end.

(** What [check_for_update] decides on one item of [resource_params]:
    [True] to stop with an update, [False] to go on. *)
Definition item_check (existing_params : value) (k : string) (v : value) : result bool :=
  present <- py_in k existing_params ;;
  if negb present then Ret true
  else
    e <- py_getitem existing_params k ;;
    match v with
    | VDict _ => check_for_update e v
    | _ => Ret (negb (py_eq v e))
    end.

(** ** Properties of whole runs

    [satisfies total R Q c]: however the command [c] ends, the world it
    ends in is related by [R] to the world it started from, and a report
    it exits with satisfies [Q] in that world; with [total], it also
    does end within the fuel it was given. *)
Definition satisfies {A : Type} (total : bool) (R : world -> world -> Prop)
    (Q : exit_report -> world -> Prop) (c : run A) : Prop :=
  forall w,
    match c w with
    | Ok _ w' => R w w'
    | Exit r w' => R w w' /\ Q r w'
    | Raise _ w' => R w w'
    | OutOfFuel => total = false
    end.

Definition is_get (ev : event) : Prop :=
  exists url data ignore_errors, ev = EvRequest url "GET" data ignore_errors.

(** The history grew by [GET] requests only. *)
Definition only_gets (w w' : world) : Prop :=
  exists evs, trace w' = (trace w ++ evs)%list /\ Forall is_get evs.

(** Both log lists kept what they held, in place, and may have grown. *)
Definition logs_extended (w w' : world) : Prop :=
  (exists xs, default_logs w' = (default_logs w ++ xs)%list) /\
  (exists ys, caller_logs w' = (caller_logs w ++ ys)%list).

(** The log a report carries is the default list as it stands. *)
Definition reports_default_logs (r : exit_report) (w : world) : Prop :=
  match r with
  | ExitJson l => l = default_logs w
  | FailJson _ (Some l) => l = default_logs w
  | FailJson _ None => True
  end.

(** The height of the tree of nested resource classes. *)
Fixpoint class_depth (c : resource_class) : nat :=
  match c with
  | ResourceClass _ _ _ _ _ _ _ _ _ subs =>
      Datatypes.S
        ((fix deepest (l : list resource_class) : nat :=
            match l with
            | [] => O
            | x :: l' => Nat.max (class_depth x) (deepest l')
            end) subs)
  end.

(** The logs are as they were and the history only grew. *)
Definition logs_kept (w w' : world) : Prop :=
  default_logs w' = default_logs w /\ caller_logs w' = caller_logs w /\
  exists evs, trace w' = (trace w ++ evs)%list.

(** ** The argument spec

    The argument spec handed to [AnsibleModule] is a dict from parameter
    names to entries; the engine renames and merges entries and, apart
    from their [required] flag, does not look inside them. *)

(** [d.update(other)] *)
Definition dict_update (d other : dict) : dict :=
  fold_left (fun acc kv => dict_set (fst kv) (snd kv) acc) other d.

(** The builtin type [list] given as the [type] of [tags] is written by
    its name. *)
Definition _get_base_arg_spec_of_resource : dict :=
  [("id", VDict [("required", VBool true); ("type", VStr "str")]);
   ("display_name", VDict [("required", VBool true); ("type", VStr "str")]);
   ("description", VDict [("required", VBool false); ("type", VStr "str")]);
   ("tags",
    VDict [("required", VBool false); ("type", VStr "list");
           ("options",
            VDict [("scope", VDict [("required", VBool true); ("type", VStr "str")]);
                   ("tag", VDict [("required", VBool true); ("type", VStr "str")])])]);
   ("state",
    VDict [("required", VBool true);
           ("choices", VList [VStr "present"; VStr "absent"])])].

Section ArgSpec.
(** The argument spec is built from the resource classes and not from
    instances of them, so what counts here is what a class answers when
    it is asked as a class.  [resource_spec c] is
    [resource_class.get_resource_spec()], a static method, entries
    included; its keys are [get_resource_spec].  [class_name c] is
    [resource_class.__name__].  [class_unique_arg_identifier c] is
    [resource_class.get_unique_arg_identifier()]: the hook of the base
    class is an instance method, so the call raises a [TypeError] for a
    class that keeps it, and answers for a class that overrides it with
    a static method. *)
Variable resource_spec : resource_class -> dict.
Variable class_name : resource_class -> string.
Variable class_unique_arg_identifier : resource_class -> result string.

(** [resource_class.__name__ in BASE_RESOURCES] *)
Definition named_base (c : resource_class) : bool :=
  existsb (String.eqb (class_name c)) BASE_RESOURCES.

(** The source rewrites [resource_arg_spec] in place, after the loop
    over its items; the embedding returns what it holds afterwards.  An
    exception of the hook leaves the loop before anything is rewritten.
    [None] is [resource_class is None]. *)
Definition _update_resource_arg_spec_with_arg_identifier (resource_arg_spec : dict)
    (resource_class : option resource_class) : result dict :=
  match resource_class with
  | None => Ret resource_arg_spec
  | Some c =>
      if named_base c then Ret resource_arg_spec
      else
        arg_spec <-
          fold_left
            (fun (arg_spec : result dict) (item : string * value) =>
               arg_spec <- arg_spec ;;
               unique_arg_identifier <- class_unique_arg_identifier c ;;
               Ret (dict_set (unique_arg_identifier ++ "_" ++ fst item) (snd item)
                      arg_spec))
            resource_arg_spec (Ret []) ;;
        Ret (dict_update [] arg_spec)
  end.

(** [self._arg_spec] is passed in and returned; an exception leaves it
    as it was. *)
Definition _update_arg_spec_with_resource (_arg_spec : dict) (c : resource_class)
  : result dict :=
  let resource_arg_spec := dict_update _get_base_arg_spec_of_resource (resource_spec c) in
  resource_arg_spec <-
    _update_resource_arg_spec_with_arg_identifier resource_arg_spec (Some c) ;;
  Ret (dict_update _arg_spec resource_arg_spec).

(** [state] is the [_state] of [self], the resource that builds the
    spec, [None] while it has none.  [fuel] bounds the depth of the
    recursion of the embedding; [None] means it ran out.  An exception
    ends the construction: it goes up through every caller, and what
    [_arg_spec] holds by then is not kept. *)
Fixpoint _update_arg_spec_with_all_resources (fuel : nat) (state : option value)
    (_arg_spec : dict) (c : resource_class) {struct fuel} : option (result dict) :=
  match fuel with
  | O => None
  | S fuel' =>
      fold_left
        (fun (acc : option (result dict)) (sub_resources_class : resource_class) =>
           match acc with
           | Some (Ret a) =>
               _update_arg_spec_with_all_resources fuel' state a sub_resources_class
           | other => other
           end)
        (_get_sub_resources_class_of state c)
        (Some (_update_arg_spec_with_resource _arg_spec c))
  end.

(** The class answers as its instances do: its name is in
    [BASE_RESOURCES] exactly when the name its instances give is, and
    outside [BASE_RESOURCES] the hook called on the class gives the
    identifier its instances give. *)
Definition answers_as_instance (c : resource_class) : Prop :=
  named_base c = in_base c /\
  (in_base c = false ->
   class_unique_arg_identifier c = Ret (get_unique_arg_identifier c)).
End ArgSpec.

(** [d] is [c] or a resource class nested in it, at any depth. *)
Inductive in_tree : resource_class -> resource_class -> Prop :=
| in_tree_self (c : resource_class) : in_tree c c
| in_tree_sub (d s c : resource_class) :
    In s (sub_resources c) -> in_tree d s -> in_tree d c.

(** A resource spec with a plain string entry for every key of the class. *)
Definition sample_resource_spec (c : resource_class) : dict :=
  map (fun key => (key, VDict [("required", VBool false); ("type", VStr "str")]))
      (get_resource_spec c).

(** Classes that override the hook with a static method, which gives
    the identifier of their instances, and classes that keep the hook of
    the base class. *)
Definition static_hook (c : resource_class) : result string :=
  Ret (get_unique_arg_identifier c).

Definition inherited_hook (c : resource_class) : result string := Exc TypeError.

(** The parameters of a segment whose port the user left out: the
    arguments of the port are declared in the argument spec, so the
    module holds [None] under each of them. *)
Definition segment_params_port_left_out : dict :=
  [("id", VStr "seg1"); ("display_name", VStr "web"); ("state", VStr "present");
   ("NSXTSegmentPort_id", VNone);
   ("NSXTSegmentPort_display_name", VNone);
   ("NSXTSegmentPort_state", VNone)].
(* ================================================================== *)
(** * Part II: properties *)
(* ================================================================== *)

(** ** DiffEngine *)

Lemma check_for_update_falsy (existing desired : value) :
  truthy existing = false -> check_for_update existing desired = Ret false.
Proof.
  intros H. destruct desired; simpl; rewrite H; reflexivity.
Qed.

Lemma check_for_update_nil (existing : value) :
  check_for_update existing (VDict []) = Ret false.
Proof.
  simpl. destruct (truthy existing); reflexivity.
Qed.

(** One turn of the [for k, v in resource_params.items()] loop. *)
Lemma check_for_update_cons (existing : value) (k : string) (v : value) (rest : dict) :
  truthy existing = true ->
  check_for_update existing (VDict ((k, v) :: rest)) =
    (present <- py_in k existing ;;
     if negb present then Ret true
     else
       e <- py_getitem existing k ;;
       r <- (match v with
             | VDict _ => check_for_update e v
             | _ => Ret (negb (py_eq v e))
             end) ;;
       if r then Ret true else check_for_update existing (VDict rest)).
Proof.
  intros H. simpl. rewrite H. simpl.
  destruct (py_in k existing) as [present|]; simpl; [|reflexivity].
  destruct present; simpl; [|reflexivity].
  destruct v; simpl; destruct (py_getitem existing k); simpl; try reflexivity.
Qed.

Lemma truthy_dict (e : dict) : truthy (VDict e) = true <-> e <> [].
Proof.
  destruct e; simpl; split; intros; congruence.
Qed.

Lemma py_eq_list_positional (xs ys : list value) :
  py_eq (VList xs) (VList ys) = true <-> positional_eq xs ys.
Proof.
  revert ys. induction xs as [|x xs IH]; intros [|y ys]; simpl.
  - split; [constructor | reflexivity].
  - split; [discriminate | inversion 1].
  - split; [discriminate | inversion 1].
  - rewrite andb_true_iff. split.
    + intros [H1 H2]. constructor; [exact H1 | apply IH; exact H2].
    + inversion 1; subst. split; [assumption | apply IH; assumption].
Qed.

Lemma needsUpdate_nonempty (existing : value) (d : dict) :
  needsUpdate existing d -> truthy existing = true.
Proof.
  intros H; inversion H; subst; apply truthy_dict; assumption.
Qed.

Lemma needsUpdate_tail (existing : value) (kv : string * value) (d : dict) :
  needsUpdate existing d -> needsUpdate existing (kv :: d).
Proof.
  intros H; inversion H; subst.
  - eapply NU_missing; eauto using in_cons.
  - eapply NU_nested; eauto using in_cons.
  - eapply NU_sequence; eauto using in_cons.
  - eapply NU_other; eauto using in_cons.
Qed.

(** The head item decides, or the tail does. *)
Lemma needsUpdate_cons_inv (e : dict) (k : string) (v : value) (d : dict) :
  needsUpdate (VDict e) ((k, v) :: d) ->
  dict_get k e = None \/
  (exists x, dict_get k e = Some x /\
     match v with
     | VDict d' => needsUpdate x d'
     | _ => py_eq v x = false
     end) \/
  needsUpdate (VDict e) d.
Proof.
  intros H.
  inversion H as [e0 d0 k0 v0 He Hin Hget
                 |e0 d0 k0 d' x He Hin Hget Hnu
                 |e0 d0 k0 l x He Hin Hget Hneq
                 |e0 d0 k0 v0 x He Hin Hget Hnd Hnl Hneq]; subst;
    (destruct Hin as [E|Hin]; [inversion E; subst|]).
  - now left.
  - right; right. eapply NU_missing; eauto.
  - right; left; eauto.
  - right; right. eapply NU_nested; eauto.
  - right; left; eauto.
  - right; right. eapply NU_sequence; eauto.
  - right; left. exists x. split; [assumption|].
    match goal with |- match ?u with _ => _ end => destruct u end;
      try assumption. exfalso; eapply Hnd; reflexivity.
  - right; right. eapply NU_other; eauto.
Qed.

Lemma needsUpdate_head (e : dict) (k : string) (v x : value) (d : dict) :
  e <> [] -> dict_get k e = Some x ->
  match v with
  | VDict d' => needsUpdate x d'
  | _ => py_eq v x = false
  end ->
  needsUpdate (VDict e) ((k, v) :: d).
Proof.
  intros He Hget Hv. destruct v.
  - eapply NU_other; eauto using in_eq; congruence.
  - eapply NU_other; eauto using in_eq; congruence.
  - eapply NU_other; eauto using in_eq; congruence.
  - eapply NU_other; eauto using in_eq; congruence.
  - eapply NU_sequence; eauto using in_eq.
  - eapply NU_nested; eauto using in_eq.
Qed.

Lemma shaped_cons (e : dict) (k : string) (v : value) (rest : dict) :
  e <> [] ->
  shaped (VDict e) (VDict ((k, v) :: rest)) = true ->
  match v, dict_get k e with
  | VDict _, Some x => shaped x v = true
  | _, _ => True
  end /\ shaped (VDict e) (VDict rest) = true.
Proof.
  intros He H. apply truthy_dict in He.
  simpl in *. rewrite He in *. simpl in *.
  apply andb_true_iff in H. destruct H as [H1 H2]. split; [|exact H2].
  destruct v; try exact I. destruct (dict_get k e); [exact H1 | exact I].
Qed.

Lemma shaped_truthy (existing desired : value) :
  shaped existing desired = true -> truthy existing = true ->
  exists e, existing = VDict e.
Proof.
  intros H Ht. destruct desired; simpl in H; rewrite Ht in H; simpl in H;
    destruct existing; try discriminate; eauto.
Qed.

(** On well-shaped arguments [check_for_update] returns, and returns
    [True] exactly when [needsUpdate] holds. *)
Lemma check_for_update_correct (desired : value) :
  forall d, desired = VDict d ->
  forall existing, shaped existing desired = true ->
  exists b, check_for_update existing desired = Ret b /\
            (b = true <-> needsUpdate existing d).
Proof.
  induction desired using value_nested_ind; intros d0 Hd; try discriminate.
  inversion Hd; subst d0; clear Hd.
  rename d into items. rename H into IH.
  intros existing Hshape.
  destruct (truthy existing) eqn:Ht.
  2:{ exists false. split; [apply check_for_update_falsy; exact Ht|].
      split; [discriminate|]. intros H. apply needsUpdate_nonempty in H. congruence. }
  destruct (shaped_truthy _ _ Hshape Ht) as [e ->].
  assert (He : e <> []) by (apply truthy_dict; exact Ht).
  induction items as [|[k v] rest IHrest].
  - exists false. split; [apply check_for_update_nil|].
    split; [discriminate|]. intros H; inversion H; subst; contradiction.
  - inversion IH as [|? ? IHv IHtl]; subst.
    destruct (shaped_cons _ _ _ _ He Hshape) as [Hv Hrest].
    specialize (IHrest IHtl Hrest). destruct IHrest as [b0 [Hb0 Hiff0]].
    rewrite check_for_update_cons by exact Ht.
    simpl py_in. unfold dict_has. simpl py_getitem.
    destruct (dict_get k e) as [x|] eqn:Hget; simpl.
    2:{ exists true. split; [reflexivity|]. split; [|reflexivity].
        intros _. eapply NU_missing; eauto using in_eq. }
    assert (Hhead : exists r,
               match v with
               | VDict _ => check_for_update x v
               | _ => Ret (negb (py_eq v x))
               end = Ret r /\
               (r = true <-> match v with
                             | VDict d' => needsUpdate x d'
                             | _ => py_eq v x = false
                             end)).
    { destruct v; try (eexists; split; [reflexivity|]; apply negb_true_iff).
      simpl in IHv. destruct (IHv d eq_refl x Hv) as [r [Hr Hiff]].
      exists r. split; assumption. }
    destruct Hhead as [r [Hr Hriff]]. rewrite Hr. simpl.
    destruct r.
    + exists true. split; [reflexivity|]. split; [|reflexivity].
      intros _. eapply needsUpdate_head; eauto. apply Hriff. reflexivity.
    + exists b0. split; [exact Hb0|]. split.
      * intros Hb. apply needsUpdate_tail. apply Hiff0. exact Hb.
      * intros Hnu. apply needsUpdate_cons_inv in Hnu.
        destruct Hnu as [Hnone | [[x' [Hx' Hm]] | Htail]].
        -- congruence.
        -- rewrite Hget in Hx'. inversion Hx'; subst x'.
           apply Hriff in Hm. discriminate.
        -- apply Hiff0. exact Htail.
Qed.

(** Two non-empty mappings that agree on the keys of [desired] give the
    same answer, exception included: keys that only [existing] holds are
    never looked at. *)
Lemma check_for_update_only_desired_keys (e e' : dict) (desired : dict) :
  e <> [] -> e' <> [] ->
  (forall k, In k (keys desired) -> dict_get k e = dict_get k e') ->
  check_for_update (VDict e) (VDict desired) = check_for_update (VDict e') (VDict desired).
Proof.
  intros He He' Hagree.
  assert (Ht : truthy (VDict e) = true) by (apply truthy_dict; exact He).
  assert (Ht' : truthy (VDict e') = true) by (apply truthy_dict; exact He').
  induction desired as [|[k v] rest IH].
  - rewrite !check_for_update_nil. reflexivity.
  - rewrite !check_for_update_cons by assumption.
    simpl py_in. unfold dict_has. simpl py_getitem.
    rewrite <- (Hagree k) by (left; reflexivity).
    rewrite IH; [reflexivity|].
    intros k' Hk'. apply Hagree. right. exact Hk'.
Qed.

(** The documented quirk: the same tags in another order count as a
    change. *)
Example check_for_update_list_order :
  check_for_update
    (VDict [("tags", VList [VDict [("tag", VStr "a")]; VDict [("tag", VStr "b")]])])
    (VDict [("tags", VList [VDict [("tag", VStr "b")]; VDict [("tag", VStr "a")]])])
  = Ret true.
Proof. reflexivity. Qed.

(** C4, as amended.  [check_for_update] (the design's [needsUpdate])
    answers [False]
    whenever [existing] is absent or empty.  Otherwise it answers [True]
    exactly when [needsUpdate] holds: a key of [desired] is missing from
    [existing], a nested mapping needs an update recursively, a sequence
    differs position by position, or another value differs.  Keys that
    only [existing] holds do not matter: any other non-empty mapping that
    agrees with [existing] on the keys of [desired] gets the same answer.
    The function is a pure function of its two arguments, so it has no
    effect on them or on anything else.  [shaped] asks that [existing]
    holds a mapping (or nothing) wherever [desired] holds a nested
    mapping; on other inputs the interpreter can raise a [TypeError]. *)
Theorem check_for_update_needsUpdate (existing : value) (desired : dict)
  (Hshape : shaped existing (VDict desired) = true) :
  (truthy existing = false ->
     check_for_update existing (VDict desired) = Ret false) /\
  (exists b, check_for_update existing (VDict desired) = Ret b /\
             (b = true <-> needsUpdate existing desired)) /\
  (forall l l' : list value,
     py_eq (VList l) (VList l') = true <-> positional_eq l l') /\
  (forall e e' : dict,
     existing = VDict e -> e <> [] -> e' <> [] ->
     (forall k, In k (keys desired) -> dict_get k e = dict_get k e') ->
     check_for_update (VDict e') (VDict desired) =
     check_for_update existing (VDict desired)).
Proof.
  split; [|split; [|split]].
  - intros Hf. apply check_for_update_falsy. exact Hf.
  - apply (check_for_update_correct (VDict desired) desired eq_refl existing Hshape).
  - apply py_eq_list_positional.
  - intros e e' -> He He' Hagree. symmetry.
    apply check_for_update_only_desired_keys; assumption.
Qed.

Lemma check_for_update_needsUpdate_witness :
  let existing := VDict [("display_name", VStr "web");
                         ("subnet", VDict [("gateway", VStr "10.0.0.1/24")]);
                         ("path", VStr "/infra/segments/seg1")] in
  let desired := [("display_name", VStr "web");
                  ("subnet", VDict [("gateway", VStr "10.0.1.1/24")])] in
  shaped existing (VDict desired) = true /\
  exists b, check_for_update existing (VDict desired) = Ret b /\
            (b = true <-> needsUpdate existing desired).
Proof.
  split; [reflexivity|].
  apply (check_for_update_needsUpdate
           (VDict [("display_name", VStr "web");
                   ("subnet", VDict [("gateway", VStr "10.0.0.1/24")]);
                   ("path", VStr "/infra/segments/seg1")])
           [("display_name", VStr "web");
            ("subnet", VDict [("gateway", VStr "10.0.1.1/24")])]
           eq_refl).
Defined.

(** C4 as first stated fails where [desired] holds a nested mapping and
    [existing] holds a number under the same key: [existing] is not
    empty and the nested value differs, yet the call returns neither
    [True] nor [False].  The recursive call tests [k not in 5], which
    raises a [TypeError]. *)
Lemma check_for_update_number_under_mapping_raises :
  truthy (VDict [("a", VInt 5)]) = true /\
  shaped (VDict [("a", VInt 5)]) (VDict [("a", VDict [("b", VInt 1)])]) = false /\
  check_for_update (VDict [("a", VInt 5)]) (VDict [("a", VDict [("b", VInt 1)])])
    = Exc TypeError /\
  (forall b : bool,
     check_for_update (VDict [("a", VInt 5)]) (VDict [("a", VDict [("b", VInt 1)])])
       <> Ret b).
Proof. repeat split; try reflexivity. intros b H. discriminate H. Qed.

(** ** Dictionaries *)

Lemma dict_get_set_same (k : string) (v : value) (d : dict) :
  dict_get k (dict_set k v d) = Some v.
Proof.
  induction d as [|[k' v'] d IH]; simpl.
  - rewrite String.eqb_refl. reflexivity.
  - destruct (String.eqb k k') eqn:E; simpl; rewrite E; [reflexivity | exact IH].
Qed.

Lemma dict_get_set_other (k k' : string) (v : value) (d : dict) :
  k' <> k -> dict_get k' (dict_set k v d) = dict_get k' d.
Proof.
  intros Hne. induction d as [|[k0 v0] d IH]; simpl.
  - apply String.eqb_neq in Hne. rewrite Hne. reflexivity.
  - destruct (String.eqb k k0) eqn:E; simpl.
    + apply String.eqb_eq in E; subst k0.
      apply String.eqb_neq in Hne. rewrite Hne. reflexivity.
    + destruct (String.eqb k' k0); [reflexivity | exact IH].
Qed.

Lemma dict_get_In (k : string) (v : value) (d : dict) :
  dict_get k d = Some v -> In (k, v) d.
Proof.
  induction d as [|[k' v'] d IH]; simpl; [discriminate|].
  destruct (String.eqb k k') eqn:E.
  - apply String.eqb_eq in E; subst k'. intros H; inversion H; subst. now left.
  - intros H. right. apply IH. exact H.
Qed.

Lemma dict_has_keys (k : string) (d : dict) :
  dict_has k d = true <-> In k (keys d).
Proof.
  unfold dict_has. induction d as [|[k' v'] d IH]; simpl.
  - split; [discriminate | contradiction].
  - destruct (String.eqb k k') eqn:E.
    + apply String.eqb_eq in E; subst k'. split; auto.
    + apply String.eqb_neq in E. rewrite IH. split; [auto|].
      intros [H|H]; [congruence | exact H].
Qed.

Lemma dict_get_none_keys (k : string) (d : dict) :
  dict_get k d = None <-> ~ In k (keys d).
Proof.
  rewrite <- dict_has_keys. unfold dict_has.
  destruct (dict_get k d); split; intros H; try congruence;
    try (intros H'; congruence).
Qed.

(** ** Back-fill *)

Lemma fill_falsy (existing rp : value) :
  truthy existing = false -> _fill_missing_resource_params existing rp = (rp, None).
Proof.
  intros H. destruct existing; simpl in *; rewrite ?H; reflexivity.
Qed.

Lemma fill_not_dict (existing rp : value) :
  (forall d, existing <> VDict d) ->
  fst (_fill_missing_resource_params existing rp) = rp.
Proof.
  intros H. destruct existing; simpl; try reflexivity.
  - destruct b; reflexivity.
  - destruct (negb (n =? 0)); reflexivity.
  - destruct (negb (String.eqb s "")); reflexivity.
  - destruct l; reflexivity.
  - exfalso. eapply H. reflexivity.
Qed.

(** One turn of the [for k, v in existing_params.items()] loop. *)
Lemma fill_cons (k : string) (v : value) (rest : dict) (rp : value) :
  _fill_missing_resource_params (VDict ((k, v) :: rest)) rp =
    match py_in k rp with
    | Exc e => (rp, Some e)
    | Ret false =>
        match py_setitem rp k v with
        | Exc e => (rp, Some e)
        | Ret rp' => _fill_missing_resource_params (VDict rest) rp'
        end
    | Ret true =>
        match v with
        | VDict _ =>
            match py_getitem rp k with
            | Exc e => (rp, Some e)
            | Ret sub =>
                let (sub', err) := _fill_missing_resource_params v sub in
                match err with
                | Some e => (store_back rp k sub', Some e)
                | None => _fill_missing_resource_params (VDict rest) (store_back rp k sub')
                end
            end
        | _ => _fill_missing_resource_params (VDict rest) rp
        end
    end.
Proof.
  assert (Hloop : forall x, _fill_missing_resource_params (VDict rest) x =
     (fix loop (items : dict) (rp : value) {struct items} : value * option exn :=
        match items with
        | [] => (rp, None)
        | (k, v) :: rest =>
            match py_in k rp with
            | Exc e => (rp, Some e)
            | Ret false =>
                match py_setitem rp k v with
                | Exc e => (rp, Some e)
                | Ret rp' => loop rest rp'
                end
            | Ret true =>
                match v with
                | VDict _ =>
                    match py_getitem rp k with
                    | Exc e => (rp, Some e)
                    | Ret sub =>
                        let (sub', err) := _fill_missing_resource_params v sub in
                        let rp' := store_back rp k sub' in
                        match err with
                        | Some e => (rp', Some e)
                        | None => loop rest rp'
                        end
                    end
                | _ => loop rest rp
                end
            end
        end) rest x).
  { intros x. destruct rest; reflexivity. }
  match goal with
  | |- ?lhs = _ =>
      let lhs' := eval cbn [_fill_missing_resource_params truthy negb] in lhs in
      change lhs with lhs'
  end.
  destruct (py_in k rp) as [[|]|]; try reflexivity.
  - destruct v; try (rewrite Hloop; reflexivity).
    destruct (py_getitem rp k) as [sub|]; [|reflexivity].
    destruct (_fill_missing_resource_params (VDict d) sub) as [sub' [e|]];
      [reflexivity | rewrite Hloop; reflexivity].
  - destruct (py_setitem rp k v); [rewrite Hloop; reflexivity | reflexivity].
Qed.

Lemma extends_trans (a : value) :
  forall b c, extends a b -> extends b c -> extends a c.
Proof.
  induction a using value_nested_ind; intros mid last Hab Hbc;
    inversion Hab; subst; try exact Hbc.
  inversion Hbc; subst; [exact Hab|].
  apply ext_dict. intros k v Hk.
  match goal with
  | H1 : forall k v, dict_get k d = Some v -> _ |- _ =>
      destruct (H1 k v Hk) as [v' [Hv' Hvv']]
  end.
  match goal with
  | H2 : forall k v, dict_get k d' = Some v -> _ |- _ =>
      destruct (H2 k v' Hv') as [v'' [Hv'' Hvv'']]
  end.
  exists v''. split; [exact Hv''|].
  apply dict_get_In in Hk.
  match goal with
  | HF : Forall _ d |- _ =>
      rewrite Forall_forall in HF; apply (HF (k, v) Hk v' v'' Hvv' Hvv'')
  end.
Qed.

(** Adding a new key keeps everything. *)
Lemma extends_set_new (k : string) (v : value) (d : dict) :
  dict_get k d = None -> extends (VDict d) (VDict (dict_set k v d)).
Proof.
  intros Hnone. apply ext_dict. intros k' v' Hk'.
  exists v'. split; [|apply ext_same].
  rewrite dict_get_set_other; [exact Hk'|]. intros ->. congruence.
Qed.

(** Storing back an extended nested mapping keeps everything. *)
Lemma extends_set_nested (k : string) (sub sub' : value) (d : dict) :
  dict_get k d = Some sub -> extends sub sub' ->
  extends (VDict d) (VDict (dict_set k sub' d)).
Proof.
  intros Hsub Hext. apply ext_dict. intros k' v' Hk'.
  destruct (String.eqb k' k) eqn:E.
  - apply String.eqb_eq in E; subst k'.
    exists sub'. split; [apply dict_get_set_same|]. congruence.
  - apply String.eqb_neq in E.
    exists v'. split; [|apply ext_same].
    rewrite dict_get_set_other; assumption.
Qed.

Lemma extends_has_key (k : string) (a b : value) :
  extends a b -> has_key k a = true -> has_key k b = true.
Proof.
  intros H Hk. inversion H as [|d d' Hd]; subst; [exact Hk|].
  unfold has_key in *. simpl in *.
  destruct (dict_get k d) as [v|] eqn:E; [|discriminate].
  destruct (Hd k v E) as [v' [Hv' _]]. rewrite Hv'. reflexivity.
Qed.

(** Back-fill never replaces or removes what [resource_params] holds,
    whether it ends normally or by an exception. *)
Lemma fill_extends (existing : value) :
  forall rp, extends rp (fst (_fill_missing_resource_params existing rp)).
Proof.
  induction existing using value_nested_ind; intros rp;
    try (rewrite fill_not_dict by congruence; apply ext_same).
  rename d into items. rename H into IH.
  revert rp. induction items as [|[k v] rest IHrest]; intros rp.
  - simpl. apply ext_same.
  - inversion IH as [|? ? IHv IHtl]; subst. specialize (IHrest IHtl).
    rewrite fill_cons.
    destruct rp; simpl py_in; simpl py_setitem; simpl py_getitem;
      try apply ext_same.
    + (* a string *)
      match goal with |- context [match Ret ?c with _ => _ end] => destruct c end;
        [|apply ext_same].
      destruct v; try apply IHrest. apply ext_same.
    + (* a list *)
      match goal with |- context [match Ret ?c with _ => _ end] => destruct c end;
        [|apply ext_same].
      destruct v; try apply IHrest. apply ext_same.
    + (* a dict *)
      unfold dict_has. destruct (dict_get k d) as [sub|] eqn:Hget.
      * destruct v; try apply IHrest.
        cbn [snd] in IHv. specialize (IHv sub).
        destruct (_fill_missing_resource_params (VDict d0) sub) as [sub' err].
        cbn [fst] in IHv.
        assert (Hstep : extends (VDict d) (store_back (VDict d) k sub'))
          by (apply (extends_set_nested k sub sub' d); assumption).
        destruct err; [exact Hstep|].
        eapply extends_trans; [exact Hstep | apply IHrest].
      * eapply extends_trans; [apply extends_set_new; exact Hget | apply IHrest].
Qed.

(** The loop touches no key outside [existing]. *)
Lemma fill_frame (items : dict) :
  forall (rp : value) (k : string),
  ~ In k (keys items) ->
  value_get k (fst (_fill_missing_resource_params (VDict items) rp)) = value_get k rp.
Proof.
  induction items as [|[k0 v0] rest IH]; intros rp k Hk; [reflexivity|].
  simpl in Hk.
  assert (Hne : k <> k0) by (intros ->; apply Hk; now left).
  assert (Hrest : ~ In k (keys rest)) by (intros HI; apply Hk; now right).
  rewrite fill_cons.
  destruct (py_in k0 rp) as [[|]|]; [| |reflexivity].
  - assert (Hskip : value_get k
       (fst (_fill_missing_resource_params (VDict rest) rp)) = value_get k rp)
      by (apply IH; exact Hrest).
    destruct v0; try exact Hskip.
    destruct (py_getitem rp k0) as [sub|]; [|reflexivity].
    destruct (_fill_missing_resource_params (VDict d) sub) as [sub' err].
    assert (Hback : value_get k (store_back rp k0 sub') = value_get k rp).
    { destruct rp; try reflexivity. simpl. apply dict_get_set_other. exact Hne. }
    destruct err; [exact Hback|].
    rewrite IH by exact Hrest. exact Hback.
  - destruct (py_setitem rp k0 v0) as [rp'|] eqn:Hset; [|reflexivity].
    rewrite IH by exact Hrest.
    destruct rp; try discriminate. inversion Hset; subst rp'.
    simpl. apply dict_get_set_other. exact Hne.
Qed.

(** A key of the result was in [resource_params] or is a key of
    [existing]. *)
Lemma fill_keys_origin (items : dict) :
  forall (rp : value) (k : string),
  has_key k (fst (_fill_missing_resource_params (VDict items) rp)) = true ->
  has_key k rp = true \/ In k (keys items).
Proof.
  intros rp k H.
  destruct (in_dec string_dec k (keys items)) as [Hin|Hnin]; [now right|].
  left. unfold has_key in *. rewrite fill_frame in H by exact Hnin. exact H.
Qed.

(** When the loop ends normally over a mapping, every key of [existing]
    is in the result. *)
Lemma fill_keys_complete (items : dict) :
  forall (d : dict) (k : string),
  snd (_fill_missing_resource_params (VDict items) (VDict d)) = None ->
  In k (keys items) ->
  has_key k (fst (_fill_missing_resource_params (VDict items) (VDict d))) = true.
Proof.
  induction items as [|[k0 v0] rest IH]; intros d k Herr Hin; [contradiction|].
  rewrite fill_cons in *. simpl py_in in *. unfold dict_has in *.
  simpl py_setitem in *. simpl py_getitem in *.
  assert (Hkeep : forall d', has_key k (VDict d') = true ->
            has_key k (fst (_fill_missing_resource_params (VDict rest) (VDict d'))) = true).
  { intros d' Hd'. eapply extends_has_key; [apply fill_extends | exact Hd']. }
  destruct (String.eqb k k0) eqn:E.
  - apply String.eqb_eq in E; subst k0.
    destruct (dict_get k d) as [sub|] eqn:Hget.
    + assert (Hhas : has_key k (VDict d) = true)
        by (unfold has_key; simpl; rewrite Hget; reflexivity).
      destruct v0; try (apply Hkeep; exact Hhas).
      destruct (_fill_missing_resource_params (VDict d0) sub) as [sub' err].
      destruct err; [discriminate|]. simpl store_back in *.
      apply Hkeep. unfold has_key; simpl. rewrite dict_get_set_same. reflexivity.
    + apply Hkeep. unfold has_key; simpl. rewrite dict_get_set_same. reflexivity.
  - apply String.eqb_neq in E.
    assert (Hin' : In k (keys rest)).
    { simpl in Hin. destruct Hin as [Heq|Hin]; [congruence | exact Hin]. }
    destruct (dict_get k0 d) as [sub|] eqn:Hget.
    + destruct v0; try (apply IH; assumption).
      destruct (_fill_missing_resource_params (VDict d0) sub) as [sub' err].
      destruct err; [discriminate|]. simpl store_back in *.
      apply IH; assumption.
    + apply IH; assumption.
Qed.


Lemma fill_keys_origin_value (existing desired : value) (k : string) :
  has_key k (fst (_fill_missing_resource_params existing desired)) = true ->
  has_key k desired = true \/ has_key k existing = true.
Proof.
  intros Hk. destruct existing;
    try (left; rewrite fill_not_dict in Hk by congruence; exact Hk).
  destruct (fill_keys_origin d desired k Hk) as [H|H]; [now left|].
  right. unfold has_key. simpl. apply dict_has_keys in H.
  unfold dict_has in H. exact H.
Qed.



(** ** Parameter extraction *)

Lemma dict_has_set (k k' : string) (v : value) (d : dict) :
  dict_has k (dict_set k' v d) = true -> k = k' \/ dict_has k d = true.
Proof.
  intros H. destruct (string_dec k k') as [->|Hne]; [now left|].
  right. unfold dict_has in *. rewrite dict_get_set_other in H by exact Hne. exact H.
Qed.

(** The name of an identity field, prefixed or not, is unwanted. *)
Lemma identity_key_unwanted (c : resource_class) (key : string) :
  key = "id" \/ key = "state" ->
  existsb
    (String.eqb (if in_base c then key else get_unique_arg_identifier c ++ "_" ++ key))
    (unwanted_resource_params c) = true.
Proof.
  intros [-> | ->]; unfold unwanted_resource_params; destruct (in_base c); simpl;
    rewrite ?String.eqb_refl, ?orb_true_r; reflexivity.
Qed.

Lemma filter_with_spec_identity (params : dict) (c : resource_class) (k : string)
    (spec : list string) :
  k = "id" \/ k = "state" ->
  forall acc, dict_has k acc = false ->
  dict_has k (filter_with_spec params c spec acc) = false.
Proof.
  intros Hk. unfold filter_with_spec.
  induction spec as [|key spec IH]; intros acc Hacc; [exact Hacc|].
  simpl. apply IH.
  destruct (dict_get _ params) as [v|]; [|exact Hacc].
  destruct (negb (existsb _ (unwanted_resource_params c)) && negb (py_is_none v)) eqn:E;
    [|exact Hacc].
  apply andb_true_iff in E. destruct E as [E _]. apply negb_true_iff in E.
  destruct (dict_has k (dict_set key v acc)) eqn:Hset; [|reflexivity].
  apply dict_has_set in Hset. destruct Hset as [-> | Hset]; [|congruence].
  rewrite identity_key_unwanted in E by exact Hk. discriminate.
Qed.

Lemma extract_resource_params_identity (params : dict) (c : resource_class) (k : string) :
  k = "id" \/ k = "state" ->
  dict_has k (_extract_resource_params params c) = false.
Proof.
  intros Hk. unfold _extract_resource_params.
  apply filter_with_spec_identity; [exact Hk|].
  apply filter_with_spec_identity; [exact Hk | reflexivity].
Qed.

(** C3, as amended.  Right after extraction the desired parameters hold
    neither [id] nor [state].  After the back-fill they hold such a key
    only if the existing resource holds it at its top level, and, when
    the back-fill ends normally, exactly if it does. *)
Theorem desired_params_identity_keys (params : dict) (c : resource_class)
    (existing : value) (k : string) (Hk : k = "id" \/ k = "state") :
  let desired := VDict (_extract_resource_params params c) in
  let filled := fst (_fill_missing_resource_params existing desired) in
  has_key k desired = false /\
  (has_key k filled = true -> has_key k existing = true) /\
  (snd (_fill_missing_resource_params existing desired) = None ->
   has_key k existing = true -> has_key k filled = true).
Proof.
  intros desired filled.
  assert (Hd : has_key k desired = false).
  { unfold desired, has_key. simpl.
    pose proof (extract_resource_params_identity params c k Hk) as H.
    unfold dict_has in H. destruct (dict_get k _); [discriminate | reflexivity]. }
  split; [exact Hd|]. split.
  - intros Hf.
    destruct (fill_keys_origin_value existing desired k Hf) as [H|H];
      [congruence | exact H].
  - intros Herr He. unfold filled, desired in *.
    destruct existing; try discriminate.
    apply fill_keys_complete; [exact Herr|].
    apply dict_has_keys. unfold has_key in He. simpl in He. exact He.
Qed.

Lemma desired_params_identity_keys_witness :
  let desired := VDict (_extract_resource_params lone_segment_params lone_segment) in
  let filled :=
    fst (_fill_missing_resource_params (VDict [("display_name", VStr "old")]) desired) in
  ("id" = "id" \/ "id" = "state") /\
  has_key "id" desired = false /\
  (has_key "id" filled = true ->
   has_key "id" (VDict [("display_name", VStr "old")]) = true) /\
  (snd (_fill_missing_resource_params (VDict [("display_name", VStr "old")]) desired) = None ->
   has_key "id" (VDict [("display_name", VStr "old")]) = true ->
   has_key "id" filled = true).
Proof.
  split; [left; reflexivity|].
  apply (desired_params_identity_keys lone_segment_params lone_segment
           (VDict [("display_name", VStr "old")]) "id" (or_introl eq_refl)).
Defined.

(** C3 as first stated fails after the back-fill: the segment fetched
    from the manager carries its [id], and the back-fill copies it into
    the desired parameters. *)
Lemma desired_params_hold_id_after_backfill :
  resolve_existing (manager lone_segment_remote) lone_segment (VStr "seg1")
    (VDict (_extract_resource_params lone_segment_params lone_segment)) initial_world
  = Ok (VDict [("id", VStr "seg1"); ("display_name", VStr "old"); ("_revision", VInt 3)],
        VDict [("display_name", VStr "web"); ("id", VStr "seg1"); ("_revision", VInt 3)])
       {| trace := [EvRequest "/infra/segments/seg1" "GET" None false];
          default_logs := []; caller_logs := [];
          parent_info_ids := []; parent_info_parent := None |}
  /\ has_key "id"
       (VDict [("display_name", VStr "web"); ("id", VStr "seg1"); ("_revision", VInt 3)])
     = true.
Proof. split; reflexivity. Qed.

(** ** Sibling order *)

Section StableSortFacts.
Variable A : Type.
Variable key : A -> Z.
Variable before : Z -> Z -> bool.
Hypothesis before_total : forall x y, before x y = false -> before y x = true.
Hypothesis before_trans :
  forall x y z, before x y = true -> before y z = true -> before x z = true.

Lemma insert_sorted_perm (x : A) (l : list A) :
  Permutation (insert_sorted A key before x l) (x :: l).
Proof.
  induction l as [|y l IH]; simpl; [apply Permutation_refl|].
  destruct (before (key x) (key y)); [apply Permutation_refl|].
  eapply Permutation_trans; [apply perm_skip; exact IH | apply perm_swap].
Qed.

Lemma stable_sort_perm (l : list A) :
  Permutation (stable_sort A key before l) l.
Proof.
  induction l as [|x l IH]; simpl; [apply perm_nil|].
  eapply Permutation_trans; [apply insert_sorted_perm | apply perm_skip; exact IH].
Qed.

Lemma insert_sorted_sorted (x : A) (l : list A) :
  StronglySorted (fun a b => before (key a) (key b) = true) l ->
  StronglySorted (fun a b => before (key a) (key b) = true) (insert_sorted A key before x l).
Proof.
  induction l as [|y l IH]; intros Hs; simpl.
  - constructor; constructor.
  - inversion Hs as [|? ? Hl Hy]; subst.
    destruct (before (key x) (key y)) eqn:E.
    + constructor; [exact Hs|]. constructor; [exact E|].
      eapply Forall_impl; [|exact Hy].
      intros z Hz. cbv beta in *. eapply before_trans; eassumption.
    + constructor; [apply IH; exact Hl|].
      eapply Permutation_Forall;
        [apply Permutation_sym; apply insert_sorted_perm|].
      constructor; [|exact Hy]. apply before_total. exact E.
Qed.

Lemma stable_sort_sorted (l : list A) :
  StronglySorted (fun a b => before (key a) (key b) = true) (stable_sort A key before l).
Proof.
  induction l as [|x l IH]; simpl; [constructor|].
  apply insert_sorted_sorted. exact IH.
Qed.
End StableSortFacts.

Lemma StronglySorted_impl_geb (A : Type) (key : A -> Z) (l : list A) :
  StronglySorted (fun a b => Z.geb (key a) (key b) = true) l ->
  StronglySorted (fun a b => key a >= key b) l.
Proof.
  induction 1 as [|x l Hs IH Hx]; constructor; [exact IH|].
  eapply Forall_impl; [|exact Hx]. intros y Hy. apply Z.geb_le in Hy. lia.
Qed.

Lemma StronglySorted_impl_leb (A : Type) (key : A -> Z) (l : list A) :
  StronglySorted (fun a b => Z.leb (key a) (key b) = true) l ->
  StronglySorted (fun a b => key a <= key b) l.
Proof.
  induction 1 as [|x l Hs IH Hx]; constructor; [exact IH|].
  eapply Forall_impl; [|exact Hx]. intros y Hy. apply Z.leb_le in Hy. exact Hy.
Qed.

(** The [for] loop of [achieve_subresource_state] realizes the classes
    in the order [_get_sub_resources_class_of] yields them. *)
Lemma achieve_subresource_state_in_order
    (realize_sub : resource_class -> bool -> arg -> option list_ref -> run unit)
    (self : resource) (logs : list_ref) (w : world) :
  achieve_subresource_state realize_sub self logs w =
  realize_in_order realize_sub logs
    (_get_sub_resources_class_of (Some (self_state self)) (self_class self)) w.
Proof.
  unfold achieve_subresource_state.
  generalize (_get_sub_resources_class_of (Some (self_state self)) (self_class self)).
  intros l.
  assert (H : forall (acc : run unit) w,
             fold_left (fun (done : run unit) (c : resource_class) =>
                          done ;;; realize_sub c true (ArgList logs) None) l acc w =
             (acc ;;; realize_in_order realize_sub logs l) w).
  { induction l as [|c l IH]; intros acc w0; simpl.
    - unfold seq, ret. destruct (acc w0) as [[] ?| | |]; reflexivity.
    - rewrite IH. unfold seq. destruct (acc w0); reflexivity. }
  rewrite H. reflexivity.
Qed.

(** C8. The sub-resources of a node are realized in the order
    [_get_sub_resources_class_of] yields them, which is a rearrangement
    of the node's sub-resources: by descending creation priority when
    the node's state is present, by ascending creation priority when it
    is absent.  Priorities [A:10, B:5, C:1] give [A, B, C] under a
    present node and [C, B, A] under an absent one. *)
Theorem sub_resources_visited_by_priority (state : value) (c : resource_class) :
  Permutation (_get_sub_resources_class_of (Some state) c) (sub_resources c) /\
  (py_eq state (VStr "present") = true ->
   StronglySorted
     (fun a b => get_resource_creation_priority a >= get_resource_creation_priority b)
     (_get_sub_resources_class_of (Some state) c)) /\
  (py_eq state (VStr "absent") = true ->
   StronglySorted
     (fun a b => get_resource_creation_priority a <= get_resource_creation_priority b)
     (_get_sub_resources_class_of (Some state) c)) /\
  (forall realize_sub self logs w,
     self_state self = state -> self_class self = c ->
     achieve_subresource_state realize_sub self logs w =
     realize_in_order realize_sub logs (_get_sub_resources_class_of (Some state) c) w) /\
  map get_resource_name
    (_get_sub_resources_class_of (Some (VStr "present")) parent_of_three) = ["A"; "B"; "C"] /\
  map get_resource_name
    (_get_sub_resources_class_of (Some (VStr "absent")) parent_of_three) = ["C"; "B"; "A"].
Proof.
  split; [|split; [|split; [|split; [|split]]]].
  - unfold _get_sub_resources_class_of.
    destruct (py_eq state (VStr "present")); apply stable_sort_perm.
  - intros Hp. unfold _get_sub_resources_class_of. rewrite Hp.
    apply StronglySorted_impl_geb. apply stable_sort_sorted.
    + intros x y H. apply Z.geb_le. rewrite Z.geb_leb in H. apply Z.leb_gt in H. lia.
    + intros x y z H1 H2. apply Z.geb_le. apply Z.geb_le in H1, H2. lia.
  - intros Ha. unfold _get_sub_resources_class_of.
    assert (Hp : py_eq state (VStr "present") = false).
    { destruct state; simpl in *; try reflexivity.
      destruct (String.eqb s "present") eqn:E; [|reflexivity].
      apply String.eqb_eq in E; subst s. discriminate. }
    rewrite Hp.
    apply StronglySorted_impl_leb. apply stable_sort_sorted.
    + intros x y H. apply Z.leb_le. apply Z.leb_gt in H. lia.
    + intros x y z H1 H2. apply Z.leb_le. apply Z.leb_le in H1, H2. lia.
  - intros realize_sub self logs w <- <-. apply achieve_subresource_state_in_order.
  - reflexivity.
  - reflexivity.
Qed.

(** ** Poller *)

Lemma any_in_str (st : string) (candidates : list string) :
  any_in (VStr st) candidates = Ret (existsb (is_substring st) candidates).
Proof.
  induction candidates as [|s rest IH]; simpl; [reflexivity|].
  destruct (is_substring st s); simpl; [reflexivity | exact IH].
Qed.

Lemma classify_in_progress (st : string) :
  classify st = InProgress <-> existsb (is_substring st) IN_PROGRESS_STATES = true.
Proof.
  unfold classify. destruct (existsb (is_substring st) IN_PROGRESS_STATES).
  - split; reflexivity.
  - destruct (existsb (is_substring st) SUCCESS_STATES); split; discriminate.
Qed.

Lemma classify_success (st : string) :
  classify st = Success <->
  existsb (is_substring st) IN_PROGRESS_STATES = false /\
  existsb (is_substring st) SUCCESS_STATES = true.
Proof.
  unfold classify. destruct (existsb (is_substring st) IN_PROGRESS_STATES).
  - split; [discriminate | intros [H _]; discriminate].
  - destruct (existsb (is_substring st) SUCCESS_STATES); split;
      try discriminate; try (intros [_ H]; discriminate); auto.
Qed.

Lemma classify_failed (st : string) :
  classify st = Failed <->
  existsb (is_substring st) IN_PROGRESS_STATES = false /\
  existsb (is_substring st) SUCCESS_STATES = false.
Proof.
  unfold classify. destruct (existsb (is_substring st) IN_PROGRESS_STATES).
  - split; [discriminate | intros [H _]; discriminate].
  - destruct (existsb (is_substring st) SUCCESS_STATES); split;
      try discriminate; try (intros [_ H]; discriminate); auto.
Qed.

Section PollerFacts.
Variable S : Type.
Variable fetch : S -> S * response.
Variable sleep : Z -> S -> S.

(** The body of the [while True] loop. *)
Lemma wait_loop_turn (fuel : nat) (count : Z) (s : S) :
  wait_loop S fetch sleep (Datatypes.S fuel) count s =
    let (s1, r) := fetch s in
    match r with
    | Raises e => Some (s1, Exc e)
    | Returns rc resp =>
        match py_in "state" resp with
        | Exc e => Some (s1, Exc e)
        | Ret true =>
            match (st <- py_getitem resp "state" ;; any_in st IN_PROGRESS_STATES) with
            | Exc e => Some (s1, Exc e)
            | Ret true =>
                if count + 1 =? 90 then Some (sleep 10 s1, Ret false)
                else wait_loop S fetch sleep fuel (count + 1) (sleep 10 s1)
            | Ret false =>
                match (st <- py_getitem resp "state" ;; any_in st SUCCESS_STATES) with
                | Exc e => Some (s1, Exc e)
                | Ret true => Some (s1, Ret true)
                | Ret false => Some (s1, Ret false)
                end
            end
        | Ret false =>
            if negb (rc =? 200) then
              if count + 1 =? 90 then Some (sleep 1 s1, Ret false)
              else wait_loop S fetch sleep fuel (count + 1) (sleep 1 s1)
            else Some (s1, Ret true)
        end
    end.
Proof. reflexivity. Qed.

(** One turn of the loop on a response that carries a status. *)
Lemma wait_loop_status (fuel : nat) (count : Z) (s : S) (st : string) :
  reports_status (snd (fetch s)) st ->
  wait_loop S fetch sleep (Datatypes.S fuel) count s =
    match classify st with
    | InProgress =>
        if count + 1 =? 90 then Some (retry_round S fetch sleep 10 s, Ret false)
        else wait_loop S fetch sleep fuel (count + 1) (retry_round S fetch sleep 10 s)
    | Success => Some (fst (fetch s), Ret true)
    | Failed => Some (fst (fetch s), Ret false)
    end.
Proof.
  intros [rc [d [Hr Hst]]]. unfold retry_round.
  cbn -[any_in Z.eqb Z.add].
  destruct (fetch s) as [s1 r]. cbn [snd fst] in *. subst r.
  cbn -[any_in Z.eqb Z.add]. unfold dict_has. rewrite Hst.
  cbn -[any_in Z.eqb Z.add].
  rewrite !any_in_str.
  destruct (classify st) eqn:Hc.
  - apply classify_in_progress in Hc. rewrite Hc. reflexivity.
  - apply classify_success in Hc. destruct Hc as [H1 H2]. rewrite H1, H2. reflexivity.
  - apply classify_failed in Hc. destruct Hc as [H1 H2]. rewrite H1, H2. reflexivity.
Qed.

(** One turn of the loop on a response without a status and with a code
    other than 200. *)
Lemma wait_loop_code_only (fuel : nat) (count : Z) (s : S) :
  reports_code_only_not_ok (snd (fetch s)) ->
  wait_loop S fetch sleep (Datatypes.S fuel) count s =
    if count + 1 =? 90 then Some (retry_round S fetch sleep 1 s, Ret false)
    else wait_loop S fetch sleep fuel (count + 1) (retry_round S fetch sleep 1 s).
Proof.
  intros [rc [d [Hr [Hst Hrc]]]]. unfold retry_round.
  cbn -[any_in Z.eqb Z.add].
  destruct (fetch s) as [s1 r]. cbn [snd fst] in *. subst r.
  cbn -[any_in Z.eqb Z.add]. unfold dict_has. rewrite Hst.
  apply Z.eqb_neq in Hrc. rewrite Hrc. reflexivity.
Qed.

(** A status that is not a string makes the status test raise. *)
Lemma wait_loop_status_not_string (fuel : nat) (count : Z) (s : S)
    (rc : Z) (d : dict) (v : value) :
  snd (fetch s) = Returns rc (VDict d) ->
  dict_get "state" d = Some v ->
  (forall st, v <> VStr st) ->
  wait_loop S fetch sleep (Datatypes.S fuel) count s = Some (fst (fetch s), Exc TypeError).
Proof.
  intros Hr Hst Hv. rewrite wait_loop_turn.
  destruct (fetch s) as [s1 r]. cbn [snd fst] in *. subst r.
  cbn -[any_in Z.eqb Z.add]. unfold dict_has. rewrite Hst.
  cbn -[Z.eqb Z.add].
  destruct v; try reflexivity. exfalso. eapply Hv. reflexivity.
Qed.

(** A fetch that raises ends the loop with that exception. *)
Lemma wait_loop_raises (fuel : nat) (count : Z) (s s1 : S) (e : exn) :
  fetch s = (s1, Raises e) ->
  wait_loop S fetch sleep (Datatypes.S fuel) count s = Some (s1, Exc e).
Proof.
  intros H. simpl. rewrite H. reflexivity.
Qed.

(** With [n] turns left before the count reaches 90, [n] units of fuel
    are enough, and more fuel changes nothing. *)
Lemma wait_loop_enough (n : nat) :
  forall (count : Z) (s : S),
  (0 < n)%nat -> count + Z.of_nat n = 90 ->
  exists r, forall fuel, (n <= fuel)%nat ->
    wait_loop S fetch sleep fuel count s = Some r.
Proof.
  induction n as [|n IH]; intros count s Hn Hc; [lia|].
  assert (Hnext : forall s2,
            exists r, forall fuel', (n <= fuel')%nat ->
              (if count + 1 =? 90 then Some (s2, Ret false)
               else wait_loop S fetch sleep fuel' (count + 1) s2) = Some r).
  { intros s2. destruct (count + 1 =? 90) eqn:E.
    - eexists. intros; reflexivity.
    - apply Z.eqb_neq in E.
      destruct (IH (count + 1) s2) as [r Hr]; [lia | lia |].
      exists r. exact Hr. }
  destruct (fetch s) as [s1 r] eqn:Hf.
  destruct r as [e|rc resp].
  { eexists. intros [|fuel] Hfuel; [lia|]. rewrite wait_loop_turn, Hf. reflexivity. }
  destruct (py_in "state" resp) as [[|]|e] eqn:Hin.
  - destruct (st <- py_getitem resp "state" ;; any_in st IN_PROGRESS_STATES)
      as [[|]|e] eqn:Hp.
    + destruct (Hnext (sleep 10 s1)) as [r Hr]. exists r.
      intros [|fuel] Hfuel; [lia|]. rewrite wait_loop_turn, Hf; cbv beta iota; rewrite Hin; cbv beta iota; rewrite Hp; cbv beta iota.
      apply Hr. lia.
    + destruct (st <- py_getitem resp "state" ;; any_in st SUCCESS_STATES)
        as [[|]|e] eqn:Hs;
        eexists; intros [|fuel] Hfuel; try lia;
        rewrite wait_loop_turn, Hf; cbv beta iota; rewrite Hin; cbv beta iota;
        rewrite Hp; cbv beta iota; rewrite Hs; reflexivity.
    + eexists. intros [|fuel] Hfuel; [lia|]. rewrite wait_loop_turn, Hf; cbv beta iota; rewrite Hin; cbv beta iota; rewrite Hp; cbv beta iota. reflexivity.
  - destruct (negb (rc =? 200)) eqn:Hrc.
    + destruct (Hnext (sleep 1 s1)) as [r Hr]. exists r.
      intros [|fuel] Hfuel; [lia|]. rewrite wait_loop_turn, Hf; cbv beta iota; rewrite Hin; cbv beta iota; rewrite Hrc; cbv beta iota.
      apply Hr. lia.
    + eexists. intros [|fuel] Hfuel; [lia|]. rewrite wait_loop_turn, Hf; cbv beta iota; rewrite Hin; cbv beta iota; rewrite Hrc; cbv beta iota. reflexivity.
  - eexists. intros [|fuel] Hfuel; [lia|]. rewrite wait_loop_turn, Hf; cbv beta iota; rewrite Hin. reflexivity.
Qed.

(** [turns] more retries of the same kind, none of which reaches the
    bound, bring the loop [turns] rounds further. *)
Lemma wait_loop_retries (pause : Z) (turns : nat) :
  (forall fuel count s,
     wait_loop S fetch sleep (Datatypes.S fuel) count s =
       if count + 1 =? 90 then Some (retry_round S fetch sleep pause s, Ret false)
       else wait_loop S fetch sleep fuel (count + 1) (retry_round S fetch sleep pause s)) ->
  forall (fuel : nat) (count : Z) (s : S),
  0 <= count -> count + Z.of_nat turns = 90 -> (0 < turns)%nat ->
  (turns <= fuel)%nat ->
  wait_loop S fetch sleep fuel count s =
    Some (Nat.iter turns (retry_round S fetch sleep pause) s, Ret false).
Proof.
  intros Hturn. induction turns as [|turns IH]; intros fuel count s H0 Hc Hpos Hfuel; [lia|].
  destruct fuel as [|fuel]; [lia|]. rewrite Hturn.
  destruct (count + 1 =? 90) eqn:E.
  - apply Z.eqb_eq in E. assert (turns = 0%nat) by lia. subst turns. reflexivity.
  - apply Z.eqb_neq in E.
    rewrite IH by lia.
    rewrite <- Nat.iter_succ_r. reflexivity.
Qed.
End PollerFacts.

(** C5. If every fetch of the create-wait reports an in-progress status,
    the poller returns [False] after exactly 90 rounds of fetch and
    sleep(10): the outside world is left in the state 90 such rounds
    lead to, and a fetch that counts its calls has been called 90 times.
    The same holds, with sleep(1), when every fetch answers with no
    status field and a status code other than 200.  The poller
    returns: no exception comes out and 90 units of fuel suffice. *)
Theorem wait_till_create_bound (S : Type) (fetch : S -> S * response)
    (sleep : Z -> S -> S) (fuel : nat) (s : S) (Hfuel : (90 <= fuel)%nat) :
  ((forall s', reports_in_progress (snd (fetch s'))) ->
   _wait_till_create S fetch sleep fuel s =
     Some (Nat.iter 90 (retry_round S fetch sleep 10) s, false)) /\
  ((forall s', reports_code_only_not_ok (snd (fetch s'))) ->
   _wait_till_create S fetch sleep fuel s =
     Some (Nat.iter 90 (retry_round S fetch sleep 1) s, false)) /\
  _wait_till_create nat always_pending no_sleep fuel 0%nat = Some (90%nat, false) /\
  _wait_till_create nat always_unavailable no_sleep fuel 0%nat = Some (90%nat, false).
Proof.
  assert (Hstatus : forall (T : Type) (f : T -> T * response) (sl : Z -> T -> T) (t : T),
            (forall t', reports_in_progress (snd (f t'))) ->
            _wait_till_create T f sl fuel t =
              Some (Nat.iter 90 (retry_round T f sl 10) t, false)).
  { intros T f sl t Hall. unfold _wait_till_create.
    rewrite (wait_loop_retries T f sl 10 90); try lia; [reflexivity|].
    intros fuel0 count t0. destruct (Hall t0) as [st [Hst Hc]].
    rewrite (wait_loop_status T f sl fuel0 count t0 st Hst), Hc. reflexivity. }
  assert (Hcode : forall (T : Type) (f : T -> T * response) (sl : Z -> T -> T) (t : T),
            (forall t', reports_code_only_not_ok (snd (f t'))) ->
            _wait_till_create T f sl fuel t =
              Some (Nat.iter 90 (retry_round T f sl 1) t, false)).
  { intros T f sl t Hall. unfold _wait_till_create.
    rewrite (wait_loop_retries T f sl 1 90); try lia; [reflexivity|].
    intros fuel0 count t0. apply wait_loop_code_only. apply Hall. }
  split; [apply Hstatus|]. split; [apply Hcode|]. split.
  - rewrite Hstatus; [reflexivity|].
    intros n. exists "pending". split; [|reflexivity].
    exists 200, [("state", VStr "pending")]. split; reflexivity.
  - rewrite Hcode; [reflexivity|].
    intros n. exists 503, []. repeat split. discriminate.
Qed.

Lemma wait_till_create_bound_witness :
  (90 <= 90)%nat /\
  _wait_till_create nat always_pending no_sleep 90 0%nat = Some (90%nat, false).
Proof.
  split; [apply le_n|].
  exact (proj1 (proj2 (proj2
           (wait_till_create_bound nat always_pending no_sleep 90 0%nat (le_n 90))))).
Defined.

(** The classes as the code separates them.  A status carried by a
    fetched response falls in exactly one of
    three classes: in progress (a part of [pending] or [in_progress]),
    success (otherwise, a part of [partial_success] or [success]), and
    failed for every other value.  On a failed status the poller returns
    [False] at once: the outside world is left as the fetch left it, with
    no sleep and no further fetch.  On a success status it returns
    [True] at once; on an in-progress status it sleeps and goes on.  A
    status that is not a string makes the test raise, which also ends
    the poller with [False] at once. *)
Theorem wait_till_create_status_classes (S : Type) (fetch : S -> S * response)
    (sleep : Z -> S -> S) (fuel : nat) (count : Z) (s : S) (st : string)
    (Hst : reports_status (snd (fetch s)) st) :
  (classify st = Failed ->
   wait_loop S fetch sleep (Datatypes.S fuel) count s = Some (fst (fetch s), Ret false) /\
   _wait_till_create S fetch sleep (Datatypes.S fuel) s = Some (fst (fetch s), false)) /\
  (classify st = Success ->
   wait_loop S fetch sleep (Datatypes.S fuel) count s = Some (fst (fetch s), Ret true)) /\
  (classify st = InProgress ->
   wait_loop S fetch sleep (Datatypes.S fuel) count s =
     if count + 1 =? 90 then Some (retry_round S fetch sleep 10 s, Ret false)
     else wait_loop S fetch sleep fuel (count + 1) (retry_round S fetch sleep 10 s)) /\
  (classify st = InProgress \/ classify st = Success \/ classify st = Failed) /\
  (forall s0 rc d v,
     snd (fetch s0) = Returns rc (VDict d) -> dict_get "state" d = Some v ->
     (forall st', v <> VStr st') ->
     wait_loop S fetch sleep (Datatypes.S fuel) count s0 =
       Some (fst (fetch s0), Exc TypeError) /\
     _wait_till_create S fetch sleep (Datatypes.S fuel) s0 = Some (fst (fetch s0), false)) /\
  classify "pending" = InProgress /\ classify "in_progress" = InProgress /\
  classify "success" = Success /\ classify "partial_success" = Success /\
  classify "failed" = Failed /\ classify "unknown" = Failed.
Proof.
  split; [|split; [|split; [|split; [|split]]]].
  - intros Hc. split.
    + rewrite (wait_loop_status S fetch sleep fuel count s st Hst), Hc. reflexivity.
    + unfold _wait_till_create.
      rewrite (wait_loop_status S fetch sleep fuel 0 s st Hst), Hc. reflexivity.
  - intros Hc. rewrite (wait_loop_status S fetch sleep fuel count s st Hst), Hc.
    reflexivity.
  - intros Hc. rewrite (wait_loop_status S fetch sleep fuel count s st Hst), Hc.
    reflexivity.
  - destruct (classify st); auto.
  - intros s0 rc d v Hr Hv Hns. split.
    + apply (wait_loop_status_not_string S fetch sleep fuel count s0 rc d v); assumption.
    + unfold _wait_till_create.
      rewrite (wait_loop_status_not_string S fetch sleep fuel 0 s0 rc d v) by assumption.
      reflexivity.
  - repeat split; reflexivity.
Qed.

Lemma wait_till_create_status_classes_witness :
  reports_status (snd (always_failed 0%nat)) "failed" /\
  (classify "failed" = Failed ->
   wait_loop nat always_failed no_sleep 1 0 0%nat = Some (1%nat, Ret false) /\
   _wait_till_create nat always_failed no_sleep 1 0%nat = Some (1%nat, false)).
Proof.
  assert (H : reports_status (snd (always_failed 0%nat)) "failed")
    by (exists 200, [("state", VStr "failed")]; split; reflexivity).
  split; [exact H|].
  apply (wait_till_create_status_classes nat always_failed no_sleep 0 0 0%nat "failed" H).
Defined.

(** C6. The poller does not classify a status as stated.  The code
    tests [resp['state'] in progress_status] for each listed state,
    which for strings is the substring test, so a status that is a part
    of a listed state counts as that state.  [cc], a part of [success]
    and none of the listed states, is answered with [True] at once.
    [ess] and the empty status, parts of [in_progress] and of [pending],
    are retried: when the manager keeps answering so, the poller makes
    90 fetches, sleeps 900 seconds and then returns [False].  As stated,
    all three are in the failed class and end the poller with failure at
    once, as [failed] and [unknown] do. *)
Theorem status_part_of_state_name_misclassified :
  (forall st, In st ["cc"; "ess"; ""] ->
     ~ In st (IN_PROGRESS_STATES ++ SUCCESS_STATES)%list) /\
  (forall (S : Type) (fetch : S -> S * response) (sleep : Z -> S -> S)
          (fuel : nat) (s : S),
     reports_status (snd (fetch s)) "cc" ->
     _wait_till_create S fetch sleep (Datatypes.S fuel) s = Some (fst (fetch s), true)) /\
  (forall (S : Type) (fetch : S -> S * response) (sleep : Z -> S -> S)
          (fuel : nat) (count : Z) (s : S) (st : string),
     In st ["ess"; ""] -> reports_status (snd (fetch s)) st ->
     wait_loop S fetch sleep (Datatypes.S fuel) count s =
       if count + 1 =? 90 then Some (retry_round S fetch sleep 10 s, Ret false)
       else wait_loop S fetch sleep fuel (count + 1) (retry_round S fetch sleep 10 s)) /\
  _wait_till_create (nat * Z) (always_reports "cc") counted_sleep 90 (0%nat, 0)
    = Some ((1%nat, 0), true) /\
  _wait_till_create (nat * Z) (always_reports "ess") counted_sleep 90 (0%nat, 0)
    = Some ((90%nat, 900), false) /\
  _wait_till_create (nat * Z) (always_reports "") counted_sleep 90 (0%nat, 0)
    = Some ((90%nat, 900), false) /\
  _wait_till_create (nat * Z) (always_reports "failed") counted_sleep 90 (0%nat, 0)
    = Some ((1%nat, 0), false) /\
  _wait_till_create (nat * Z) (always_reports "unknown") counted_sleep 90 (0%nat, 0)
    = Some ((1%nat, 0), false).
Proof.
  split; [|split; [|split]].
  - intros st [<-|[<-|[<-|[]]]]; cbn; intuition discriminate.
  - intros S fetch sleep fuel s Hst. unfold _wait_till_create.
    rewrite (wait_loop_status S fetch sleep fuel 0 s "cc" Hst). reflexivity.
  - intros S fetch sleep fuel count s st [<-|[<-|[]]] Hst.
    + rewrite (wait_loop_status S fetch sleep fuel count s "ess" Hst). reflexivity.
    + rewrite (wait_loop_status S fetch sleep fuel count s "" Hst). reflexivity.
  - repeat split; vm_compute; reflexivity.
Qed.

(** C10. [_wait_till_create] is total over what the fetch does: for
    every fetch and sleep and from every state of the outside world it
    returns a boolean, within 90 turns of its loop, and no exception
    comes out of it.  A fetch that raises, at whatever attempt, ends the
    loop with that exception, and every exception that ends the loop is
    turned into [False]. *)
Theorem wait_till_create_total (S : Type) (fetch : S -> S * response)
    (sleep : Z -> S -> S) (s : S) :
  (exists s' b, forall fuel, (90 <= fuel)%nat ->
     _wait_till_create S fetch sleep fuel s = Some (s', b)) /\
  (forall fuel count s0 s1 e,
     fetch s0 = (s1, Raises e) ->
     wait_loop S fetch sleep (Datatypes.S fuel) count s0 = Some (s1, Exc e)) /\
  (forall fuel s' e,
     wait_loop S fetch sleep fuel 0 s = Some (s', Exc e) ->
     _wait_till_create S fetch sleep fuel s = Some (s', false)).
Proof.
  split; [|split].
  - destruct (wait_loop_enough S fetch sleep 90 0 s) as [[s' r] Hr]; [lia | lia |].
    exists s', (match r with Ret b => b | Exc _ => false end).
    intros fuel Hfuel. unfold _wait_till_create. rewrite (Hr fuel Hfuel).
    destruct r; reflexivity.
  - intros fuel count s0 s1 e H. apply wait_loop_raises. exact H.
  - intros fuel s' e H. unfold _wait_till_create. rewrite H. reflexivity.
Qed.

(** ** Reconciler *)

(** The state a sub-resource reads: [absent] when the object stored
    under [_parent_info["_parent"]] is absent and the class keeps the
    default of [achieve_subresource_state_if_del_parent]; its own
    declared state when the class overrides it. *)
Lemma getAttribute_state_sub_resource (params : dict) (c : resource_class)
    (w : world) (p : parent_ref) :
  in_base c = false ->
  parent_info_parent w = Some p ->
  py_eq (parent_state p) (VStr "absent") = true ->
  _getAttribute params c true "state" w =
    Ok (if inheritParentAbsent c then VStr "absent"
        else dict_get_default (get_unique_arg_identifier c ++ "_state")
               INCORRECT_ARGUMENT_NAME_VALUE params) w.
Proof.
  intros Hb Hp Ha. unfold _getAttribute, inheritParentAbsent, seq. rewrite Hb.
  simpl. rewrite Hp, Ha. simpl.
  destruct (achieve_subresource_state_if_del_parent c); reflexivity.
Qed.

(** In check mode, achieving the present state issues no request.  It
    appends one record marked changed that shows the parameters, or it
    raises and leaves everything as it was. *)
Lemma check_mode_present_state (api : list event -> response)
    (self : resource) (logs : list_ref) (w : world) :
  match _achieve_present_state api true self logs w with
  | Ok _ w' =>
      trace w' = trace w /\
      exists r, read_logs logs w' = (read_logs logs w ++ [r])%list /\
                log_changed r = true /\
                log_debug_out r = Some (self_resource_params self)
  | Raise _ w' => w' = w
  | Exit _ _ => False
  | OutOfFuel => False
  end.
Proof.
  unfold _achieve_present_state, seq, lift.
  destruct (check_for_update (self_existing_resource self) (self_resource_params self))
    as [[|]|e]; simpl; try reflexivity.
  destruct logs; simpl; (split; [reflexivity|]); eexists; repeat split.
Qed.

(** In check mode, achieving the absent state issues no request and
    appends one record. *)
Lemma check_mode_absent_state (api : list event -> response)
    (fuel : nat) (self : resource) (logs : list_ref) (w : world) :
  match _achieve_absent_state api true fuel self logs w with
  | Ok _ w' =>
      trace w' = trace w /\
      exists r, read_logs logs w' = (read_logs logs w ++ [r])%list /\
                log_changed r = negb (py_is_none (self_existing_resource self))
  | _ => False
  end.
Proof.
  unfold _achieve_absent_state.
  destruct (py_is_none (self_existing_resource self));
    destruct logs; simpl; (split; [reflexivity|]); eexists; repeat split.
Qed.

(** Runs the sample and takes the world it ends in. *)
Ltac run_to_exit :=
  match goal with
  | |- exists w, ?r = _ /\ _ =>
      let o := eval vm_compute in r in
      match o with
      | Exit _ ?w0 => exists w0
      end
  end.

(** The scenario of the design: a present segment with a present port,
    nothing on the manager, [realize()] called with its defaults.  The
    run reports the two creations, parent first. *)
Example realize_default_log :
  exists w,
    realize (manager []) segment_with_port_params false 5 segment_with_port
      false (ArgBool true) None initial_world
    = Exit (ExitJson (default_logs w)) w /\
    summary (default_logs w) =
      [(Some (VStr "seg1"),
        Some ("%s with id %s created.", [VStr "NSXTSegment"; VStr "seg1"]));
       (Some (VStr "p1"),
        Some ("%s with id %s created.", [VStr "NSXTSegmentPort"; VStr "p1"]))].
Proof. run_to_exit. split; vm_compute; reflexivity. Qed.

(** C1, at the failing input.  [realize] is called on a present segment
    with a present port, nothing on the manager, with a list of the
    caller's own as [successful_resource_exec_logs].  The run reports
    the caller's list, which holds the record of the segment only; the
    record of the port went into the list that is the parameter's
    default value. *)
Theorem realize_log_not_threaded :
  exists w,
    realize (manager []) segment_with_port_params false 5 segment_with_port
      false (ArgBool true) (Some CallerLogs) initial_world
    = Exit (ExitJson (caller_logs w)) w /\
    summary (caller_logs w) =
      [(Some (VStr "seg1"),
        Some ("%s with id %s created.", [VStr "NSXTSegment"; VStr "seg1"]))] /\
    summary (default_logs w) =
      [(Some (VStr "p1"),
        Some ("%s with id %s created.", [VStr "NSXTSegmentPort"; VStr "p1"]))].
Proof. run_to_exit. repeat split; vm_compute; reflexivity. Qed.

(** C2, at the failing input.  In check mode, for a segment that exists
    on the manager under another display name, the run ends with a
    [NameError]: it has issued the [GET] and no other request, and it has
    appended no record. *)
Theorem check_mode_update_raises :
  realize (manager lone_segment_remote) lone_segment_params true 5 lone_segment
    false (ArgBool true) None initial_world
  = Raise NameError
      {| trace := [EvRequest "/infra/segments/seg1" "GET" None false];
         default_logs := []; caller_logs := [];
         parent_info_ids := [("NSXTSegment_id", VStr "seg1")];
         parent_info_parent :=
           Some {| parent_name := "NSXTSegment"; parent_state := VStr "present" |} |}.
Proof. vm_compute. reflexivity. Qed.

(** C7, at the failing input.  An absent segment has two sub-resources
    declared present: a binding that keeps its own state, realized
    first, and a port with the default behaviour.  The port is created,
    not deleted: when it reads its state, [_parent_info["_parent"]] is
    the binding, which is present. *)
Theorem second_sibling_not_absent :
  exists w,
    realize (manager []) segment_with_two_params false 5 segment_with_two
      false (ArgBool true) None initial_world
    = Exit (ExitJson (default_logs w)) w /\
    summary (default_logs w) =
      [(Some (VStr "b1"),
        Some ("%s with id %s created.", [VStr "NSXTSegmentBinding"; VStr "b1"]));
       (Some (VStr "p1"),
        Some ("%s with id %s created.", [VStr "NSXTSegmentPort"; VStr "p1"]));
       (None,
        Some ("No %s exist with id %s", [VStr "NSXTSegment"; VStr "seg1"]))] /\
    In (EvRequest "/infra/segments/seg1/ports/p1" "PATCH"
          (Some (VDict [("display_name", VStr "uplink")])) true)
       (trace w).
Proof.
  run_to_exit. split; [vm_compute; reflexivity | split; [vm_compute; reflexivity|]].
  simpl. auto 10.
Qed.

(* ================================================================== *)
(** * Part III: further properties of the engine *)
(* ================================================================== *)

(** ** Sibling order among equal priorities *)

Section StabilityFacts.
Variable A : Type.
Variable key : A -> Z.
Variable before : Z -> Z -> bool.
Hypothesis before_refl : forall x, before x x = true.

(** An element is inserted in front of the elements of its own key. *)
Lemma insert_sorted_filter (p : Z) (x : A) (l : list A) :
  filter (fun a => key a =? p) (insert_sorted A key before x l) =
  filter (fun a => key a =? p) (x :: l).
Proof.
  induction l as [|y l IH]; [reflexivity|].
  simpl insert_sorted. destruct (before (key x) (key y)) eqn:E; [reflexivity|].
  simpl. simpl in IH. rewrite IH.
  destruct (key x =? p) eqn:Ex; [|reflexivity].
  destruct (key y =? p) eqn:Ey; [|reflexivity].
  apply Z.eqb_eq in Ex, Ey. rewrite Ex, Ey, before_refl in E. discriminate.
Qed.

Lemma stable_sort_filter (p : Z) (l : list A) :
  filter (fun a => key a =? p) (stable_sort A key before l) =
  filter (fun a => key a =? p) l.
Proof.
  induction l as [|x l IH]; [reflexivity|].
  simpl stable_sort. rewrite insert_sorted_filter. simpl. rewrite IH. reflexivity.
Qed.
End StabilityFacts.

Lemma filter_all (A : Type) (f : A -> bool) (l : list A) :
  (forall x, In x l -> f x = true) -> filter f l = l.
Proof.
  induction l as [|x l IH]; intros H; [reflexivity|].
  simpl. rewrite (H x (or_introl eq_refl)). f_equal. apply IH.
  intros y Hy. apply H. right. exact Hy.
Qed.

(** X1. Whatever the state of the node, the sub-resources of one
    creation priority are yielded in the order of the class body: the
    sort is stable in both directions.  So when all sub-resources have
    the same priority (1 by default), they are realized in the order of
    the class body for creation and for deletion alike. *)
Theorem sub_resources_equal_priority_order (state : option value) (c : resource_class) :
  (forall p,
     filter (fun s => get_resource_creation_priority s =? p)
            (_get_sub_resources_class_of state c) =
     filter (fun s => get_resource_creation_priority s =? p) (sub_resources c)) /\
  (forall p,
     (forall s, In s (sub_resources c) -> get_resource_creation_priority s = p) ->
     _get_sub_resources_class_of state c = sub_resources c).
Proof.
  assert (Hfilter : forall p,
     filter (fun s => get_resource_creation_priority s =? p)
            (_get_sub_resources_class_of state c) =
     filter (fun s => get_resource_creation_priority s =? p) (sub_resources c)).
  { intros p. unfold _get_sub_resources_class_of.
    destruct state as [st|]; [destruct (py_eq st (VStr "present"))|];
      apply stable_sort_filter; intros x;
      first [apply Z.geb_le; lia | apply Z.leb_refl]. }
  split; [exact Hfilter|].
  intros p Hall. specialize (Hfilter p).
  rewrite (filter_all _ _ (sub_resources c)) in Hfilter.
  2:{ intros s Hs. apply Z.eqb_eq. apply Hall. exact Hs. }
  rewrite filter_all in Hfilter; [exact Hfilter|].
  intros s Hs. apply Z.eqb_eq. apply Hall.
  assert (Hperm : Permutation (_get_sub_resources_class_of state c) (sub_resources c)).
  { unfold _get_sub_resources_class_of.
    destruct state as [st|]; [destruct (py_eq st (VStr "present"))|];
      apply stable_sort_perm. }
  eapply Permutation_in; [exact Hperm | exact Hs].
Qed.

(** ** What the poller's [True] means *)

Section PollerSoundness.
Variable S : Type.
Variable fetch : S -> S * response.
Variable sleep : Z -> S -> S.



End PollerSoundness.



(** ** The delete wait *)

Lemma wait_till_delete_turn (api : list event -> response) (fuel : nat)
    (self : resource) (w : world) :
  _wait_till_delete api (S fuel) self w =
    match snd (fetch_self api self w) with
    | Returns _ _ => _wait_till_delete api fuel self (delete_round api self w)
    | Raises DuplicateRequestError =>
        Exit (FailJson ("Duplicate request", []) None) (fst (fetch_self api self w))
    | Raises _ => Ok tt (fst (fetch_self api self w))
    end.
Proof.
  unfold delete_round. simpl. destruct (fetch_self api self w) as [w1 r].
  destruct r as [e|rc resp]; [destruct e|]; reflexivity.
Qed.

(** The sample manager answers a [GET] of a URL it holds, whatever came
    before. *)
Lemma manager_fetch_found (w : world) :
  snd (fetch_self (manager lone_segment_remote) lone_segment_self w) =
  Returns 200 (VDict [("id", VStr "seg1"); ("display_name", VStr "old");
                      ("_revision", VInt 3)]).
Proof.
  unfold fetch_self, seq, lift, _send_request_to_API, emit, manager. simpl.
  rewrite last_last. reflexivity.
Qed.

(** X3. The delete wait has no bound of its own: as long as every fetch
    of the resource returns, whatever it returns, [_wait_till_delete]
    goes on polling and never returns. *)
Theorem wait_till_delete_unbounded (api : list event -> response) (self : resource)
    (Hthere : forall w, exists rc resp, snd (fetch_self api self w) = Returns rc resp) :
  forall fuel w, _wait_till_delete api fuel self w = OutOfFuel.
Proof.
  induction fuel as [|fuel IH]; intros w; [reflexivity|].
  rewrite wait_till_delete_turn.
  destruct (Hthere w) as [rc [resp ->]]. apply IH.
Qed.

Lemma wait_till_delete_unbounded_witness :
  (forall w, exists rc resp,
     snd (fetch_self (manager lone_segment_remote) lone_segment_self w) = Returns rc resp) /\
  forall fuel w,
    _wait_till_delete (manager lone_segment_remote) fuel lone_segment_self w = OutOfFuel.
Proof.
  assert (H : forall w, exists rc resp,
     snd (fetch_self (manager lone_segment_remote) lone_segment_self w) = Returns rc resp).
  { intros w. eexists. eexists. apply manager_fetch_found. }
  split; [exact H|].
  exact (wait_till_delete_unbounded (manager lone_segment_remote) lone_segment_self H).
Defined.

(** X4. The delete wait ends at the first fetch that raises.  After [n]
    fetches that return, each followed by a sleep of 10, a fetch that
    raises [DuplicateRequestError] ends the run through [fail_json];
    a fetch that raises anything else makes [_wait_till_delete] return
    normally, the resource being taken as gone. *)
Theorem wait_till_delete_ends_on_exception (api : list event -> response)
    (self : resource) (n fuel : nat) (w : world) (e : exn)
    (Hthere : forall i, (i < n)%nat ->
       exists rc resp,
         snd (fetch_self api self (Nat.iter i (delete_round api self) w)) = Returns rc resp)
    (Hraises :
       snd (fetch_self api self (Nat.iter n (delete_round api self) w)) = Raises e)
    (Hfuel : (n < fuel)%nat) :
  _wait_till_delete api fuel self w =
    match e with
    | DuplicateRequestError =>
        Exit (FailJson ("Duplicate request", []) None)
             (fst (fetch_self api self (Nat.iter n (delete_round api self) w)))
    | _ => Ok tt (fst (fetch_self api self (Nat.iter n (delete_round api self) w)))
    end.
Proof.
  revert fuel w Hthere Hraises Hfuel.
  induction n as [|n IH]; intros fuel w Hthere Hraises Hfuel.
  - destruct fuel as [|fuel]; [lia|]. rewrite wait_till_delete_turn.
    simpl in Hraises. rewrite Hraises. simpl. destruct e; reflexivity.
  - destruct fuel as [|fuel]; [lia|]. rewrite wait_till_delete_turn.
    destruct (Hthere 0%nat) as [rc [resp H0]]; [lia|]. simpl in H0. rewrite H0.
    rewrite (IH fuel (delete_round api self w)).
    + rewrite <- !Nat.iter_succ_r. reflexivity.
    + intros i Hi. rewrite <- Nat.iter_succ_r. apply Hthere. lia.
    + rewrite <- Nat.iter_succ_r. exact Hraises.
    + lia.
Qed.

Lemma wait_till_delete_ends_on_exception_witness :
  (forall i, (i < 2)%nat ->
     exists rc resp,
       snd (fetch_self (manager_until 2) lone_segment_self
              (Nat.iter i (delete_round (manager_until 2) lone_segment_self) initial_world))
       = Returns rc resp) /\
  (2 < 3)%nat /\
  _wait_till_delete (manager_until 2) 3 lone_segment_self initial_world =
    Ok tt {| trace := [EvRequest "/infra/segments/seg1" "GET" None true; EvSleep 10;
                       EvRequest "/infra/segments/seg1" "GET" None true; EvSleep 10;
                       EvRequest "/infra/segments/seg1" "GET" None true];
             default_logs := []; caller_logs := [];
             parent_info_ids := []; parent_info_parent := None |}.
Proof.
  assert (H : forall i, (i < 2)%nat ->
     exists rc resp,
       snd (fetch_self (manager_until 2) lone_segment_self
              (Nat.iter i (delete_round (manager_until 2) lone_segment_self) initial_world))
       = Returns rc resp).
  { intros [|[|i]] Hi; [eexists; eexists; reflexivity .. |].
    exfalso. apply (Nat.lt_irrefl 2).
    apply (Nat.le_lt_trans _ (S (S i))); [apply le_n_S, le_n_S, Nat.le_0_l | exact Hi]. }
  split; [exact H|]. split; [apply Nat.lt_succ_diag_r|].
  exact (wait_till_delete_ends_on_exception (manager_until 2) lone_segment_self 2 3
           initial_world (ApiError "not found") H eq_refl (Nat.lt_succ_diag_r 2)).
Defined.

(** ** Parameter extraction, exactly *)

Lemma append_inj_l (p a b : string) : p ++ a = p ++ b -> a = b.
Proof.
  induction p as [|ch p IH]; simpl; intros H; [exact H|].
  inversion H. apply IH. assumption.
Qed.

Lemma unwanted_iff (c : resource_class) (key : string) :
  existsb (String.eqb (arg_key c key)) (unwanted_resource_params c) = true <->
  key = "id" \/ key = "state".
Proof.
  split; [|apply identity_key_unwanted].
  unfold arg_key, unwanted_resource_params. destruct (in_base c); simpl;
    rewrite !orb_true_iff, !String.eqb_eq; intros [H|[H|H]]; try discriminate.
  - now right.
  - now left.
  - right. apply append_inj_l in H. apply (append_inj_l "_") in H. exact H.
  - left. apply append_inj_l in H. apply (append_inj_l "_") in H. exact H.
Qed.

(** What one turn of [filter_with_spec] stores under [key], if anything. *)
Lemma filter_with_spec_get (params : dict) (c : resource_class) (spec : list string) :
  forall (acc : dict) (key : string),
  dict_get key (filter_with_spec params c spec acc) =
    if existsb (String.eqb key) spec then
      match dict_get (arg_key c key) params with
      | Some v =>
          if negb (existsb (String.eqb (arg_key c key)) (unwanted_resource_params c)) &&
             negb (py_is_none v)
          then Some v else dict_get key acc
      | None => dict_get key acc
      end
    else dict_get key acc.
Proof.
  unfold filter_with_spec.
  match goal with |- context [fold_left ?f _ _] => set (step := f) end.
  assert (Hsame : forall acc k,
            dict_get k (step acc k) =
              match dict_get (arg_key c k) params with
              | Some v =>
                  if negb (existsb (String.eqb (arg_key c k)) (unwanted_resource_params c)) &&
                     negb (py_is_none v)
                  then Some v else dict_get k acc
              | None => dict_get k acc
              end).
  { intros acc k. unfold step, arg_key.
    destruct (dict_get _ params) as [v|]; [|reflexivity].
    destruct (negb _ && negb (py_is_none v)); [|reflexivity].
    apply dict_get_set_same. }
  assert (Hother : forall acc k k0, k <> k0 -> dict_get k (step acc k0) = dict_get k acc).
  { intros acc k k0 Hne. unfold step.
    destruct (dict_get _ params) as [v|]; [|reflexivity].
    destruct (negb _ && negb (py_is_none v)); [|reflexivity].
    apply dict_get_set_other. exact Hne. }
  clearbody step.
  induction spec as [|k0 spec IH]; intros acc key; [reflexivity|].
  simpl fold_left. rewrite IH. simpl existsb.
  destruct (String.eqb key k0) eqn:E.
  - apply String.eqb_eq in E; subst k0. simpl. rewrite Hsame.
    destruct (existsb (String.eqb key) spec); [|reflexivity].
    destruct (dict_get (arg_key c key) params) as [v|]; [|reflexivity].
    destruct (negb _ && negb (py_is_none v)); reflexivity.
  - apply String.eqb_neq in E. simpl. rewrite Hother by exact E. reflexivity.
Qed.

(** X5. [_extract_resource_params] returns exactly the fields of the
    resource the user gave a value: a key holds [v] in the result exactly
    when it is a key of the resource's spec or of the base spec, is not
    [id] or [state], and the module parameters hold [v], other than
    [None], under the resource's name for it (the bare key for a base
    resource, the key prefixed by the unique identifier otherwise). *)
Theorem extract_resource_params_exactly (params : dict) (c : resource_class)
    (key : string) (v : value) :
  dict_get key (_extract_resource_params params c) = Some v <->
  (In key (get_resource_spec c) \/ In key base_arg_spec_keys) /\
  key <> "id" /\ key <> "state" /\
  dict_get (arg_key c key) params = Some v /\ v <> VNone.
Proof.
  unfold _extract_resource_params. rewrite !filter_with_spec_get.
  assert (Hmem : forall l, existsb (String.eqb key) l = true <-> In key l).
  { intros l. rewrite existsb_exists. split.
    - intros [x [Hx Hk]]. apply String.eqb_eq in Hk. subst x. exact Hx.
    - intros Hk. exists key. split; [exact Hk | apply String.eqb_refl]. }
  assert (Hwanted : forall w,
            negb (existsb (String.eqb (arg_key c key)) (unwanted_resource_params c)) &&
            negb (py_is_none w) = true <->
            key <> "id" /\ key <> "state" /\ w <> VNone).
  { intros w. rewrite andb_true_iff, !negb_true_iff. split.
    - intros [Hu Hn]. repeat split.
      + intros ->. rewrite (proj2 (unwanted_iff c "id")) in Hu by now left. discriminate.
      + intros ->. rewrite (proj2 (unwanted_iff c "state")) in Hu by now right.
        discriminate.
      + intros ->. discriminate.
    - intros [Hid [Hst Hn]]. split.
      + destruct (existsb _ (unwanted_resource_params c)) eqn:E; [|reflexivity].
        apply unwanted_iff in E. destruct E; contradiction.
      + destruct w; try reflexivity. contradiction. }
  simpl dict_get at 3 5.
  destruct (dict_get (arg_key c key) params) as [w|] eqn:Hget.
  - destruct (negb _ && negb (py_is_none w)) eqn:Hw.
    + apply Hwanted in Hw. destruct Hw as [Hid [Hst Hn]].
      destruct (existsb (String.eqb key) base_arg_spec_keys) eqn:Hb;
        [|destruct (existsb (String.eqb key) (get_resource_spec c)) eqn:Hs].
      * apply Hmem in Hb. split.
        -- intros H; inversion H; subst. repeat split; auto.
        -- intros [_ [_ [_ [H _]]]]. exact H.
      * apply Hmem in Hs. split.
        -- intros H; inversion H; subst. repeat split; auto.
        -- intros [_ [_ [_ [H _]]]]. exact H.
      * split; [discriminate|]. intros [[H|H] _]; apply Hmem in H; congruence.
    + assert (Hnot : ~ (key <> "id" /\ key <> "state" /\ w <> VNone)).
      { intros H. apply Hwanted in H. congruence. }
      destruct (existsb (String.eqb key) base_arg_spec_keys);
        destruct (existsb (String.eqb key) (get_resource_spec c));
        (split; [discriminate|]);
        intros [_ [Hid [Hst [H Hn]]]]; inversion H; subst; exfalso; apply Hnot; auto.
  - destruct (existsb (String.eqb key) base_arg_spec_keys);
      destruct (existsb (String.eqb key) (get_resource_spec c));
      (split; [discriminate|]); intros [_ [_ [_ [H _]]]]; discriminate.
Qed.

(** ** Diff and back-fill together *)

Lemma dict_get_NoDup (k : string) (v : value) (d : dict) :
  NoDup (keys d) -> In (k, v) d -> dict_get k d = Some v.
Proof.
  induction d as [|[k0 v0] d IH]; intros Hnd Hin; [contradiction|].
  simpl in Hnd. inversion Hnd as [|? ? Hk0 Hnd']; subst.
  simpl. destruct Hin as [E|Hin].
  - inversion E; subst. rewrite String.eqb_refl. reflexivity.
  - destruct (String.eqb k k0) eqn:E.
    + apply String.eqb_eq in E; subst k0. exfalso. apply Hk0.
      apply (in_map fst) in Hin. exact Hin.
    + apply IH; assumption.
Qed.

Lemma py_eq_refl (v : value) : well_formed v -> py_eq v v = true.
Proof.
  induction v using value_nested_ind; intros Hwf; simpl.
  - reflexivity.
  - apply Bool.eqb_reflx.
  - apply Z.eqb_refl.
  - apply String.eqb_refl.
  - inversion Hwf as [| | | |l' Hl|]; subst.
    induction l as [|x l IHl]; [reflexivity|].
    inversion H as [|? ? Hx Htl]; subst. inversion Hl as [|? ? Hwx Hwl]; subst.
    rewrite (Hx Hwx). simpl. apply IHl; [exact Htl | constructor; exact Hwl | exact Hwl].
  - inversion Hwf as [| | | | |d' Hnd Hd]; subst.
    rewrite Nat.eqb_refl. simpl.
    assert (Hitems : forall items,
              (forall k v, In (k, v) items -> dict_get k d = Some v /\ py_eq v v = true) ->
              (fix items_eq (d0 : dict) : bool :=
                 match d0 with
                 | [] => true
                 | (k, v) :: d' =>
                     match dict_get k d with
                     | Some w => py_eq v w
                     | None => false
                     end && items_eq d'
                 end) items = true).
    { induction items as [|[k v] items IHi]; intros Hall; [reflexivity|].
      destruct (Hall k v (or_introl eq_refl)) as [Hget Heq].
      rewrite Hget, Heq. simpl. apply IHi.
      intros k' v' Hin. apply Hall. right. exact Hin. }
    apply Hitems. intros k v Hin. split.
    + apply dict_get_NoDup; assumption.
    + rewrite Forall_forall in H, Hd.
      apply (H (k, v) Hin). apply (Hd (k, v) Hin).
Qed.

(** Over a non-empty [existing], items that [existing] holds as they
    are ask for no update. *)
Lemma check_for_update_held_items (e : dict) (items : dict) :
  e <> [] ->
  (forall k v, In (k, v) items -> dict_get k e = Some v /\ no_self_update v) ->
  check_for_update (VDict e) (VDict items) = Ret false.
Proof.
  intros He. assert (Ht : truthy (VDict e) = true) by (apply truthy_dict; exact He).
  induction items as [|[k v] items IH]; intros Hall; [apply check_for_update_nil|].
  rewrite check_for_update_cons by exact Ht.
  destruct (Hall k v (or_introl eq_refl)) as [Hget Hself].
  rewrite IH by (intros k' v' Hin; apply Hall; right; exact Hin).
  simpl py_in. unfold dict_has. simpl py_getitem. rewrite Hget.
  cbn [bind negb].
  destruct v; cbn [no_self_update] in Hself; rewrite Hself; reflexivity.
Qed.

Lemma no_self_update_well_formed (v : value) : well_formed v -> no_self_update v.
Proof.
  induction v using value_nested_ind; intros Hwf;
    try (apply py_eq_refl; exact Hwf).
  unfold no_self_update.
  destruct d as [|kv d]; [reflexivity|].
  inversion Hwf as [| | | | |d' Hnd Hd]; subst.
  apply check_for_update_held_items; [discriminate|].
  intros k v Hin. split; [apply dict_get_NoDup; assumption|].
  rewrite Forall_forall in H, Hd.
  apply (H (k, v) Hin). apply (Hd (k, v) Hin).
Qed.

(** X6. A resource compared with itself needs no update: for every
    mapping with distinct keys at all levels, [check_for_update] of the
    mapping against itself returns [False]. *)
Theorem check_for_update_reflexive (d : dict) (Hwf : well_formed (VDict d)) :
  check_for_update (VDict d) (VDict d) = Ret false.
Proof.
  apply (no_self_update_well_formed (VDict d) Hwf).
Qed.

Lemma check_for_update_reflexive_witness :
  well_formed (VDict [("display_name", VStr "web");
                      ("tags", VList [VDict [("scope", VStr "a"); ("tag", VStr "b")]])]) /\
  check_for_update
    (VDict [("display_name", VStr "web");
            ("tags", VList [VDict [("scope", VStr "a"); ("tag", VStr "b")]])])
    (VDict [("display_name", VStr "web");
            ("tags", VList [VDict [("scope", VStr "a"); ("tag", VStr "b")]])])
  = Ret false.
Proof.
  assert (H : well_formed
                (VDict [("display_name", VStr "web");
                        ("tags", VList [VDict [("scope", VStr "a"); ("tag", VStr "b")]])])).
  { repeat first [ apply wf_dict | apply wf_list | apply wf_str
                 | apply Forall_cons | apply Forall_nil
                 | apply NoDup_nil
                 | (apply NoDup_cons; [simpl; intuition discriminate|]) ]. }
  split; [exact H|].
  exact (check_for_update_reflexive _ H).
Defined.

Lemma check_for_update_item (existing : value) (k : string) (v : value) (rest : dict) :
  truthy existing = true ->
  check_for_update existing (VDict ((k, v) :: rest)) =
    (r <- item_check existing k v ;;
     if r then Ret true else check_for_update existing (VDict rest)).
Proof.
  intros Ht. rewrite check_for_update_cons by exact Ht. unfold item_check.
  destruct (py_in k existing) as [[|]|]; try reflexivity.
  cbn [bind negb]. destruct (py_getitem existing k); [|reflexivity].
  cbn [bind]. destruct v; reflexivity.
Qed.

Lemma extends_from_plain (a b : value) :
  extends a b -> (forall d, a <> VDict d) -> b = a.
Proof.
  intros H Ha. inversion H; subst; [reflexivity|]. exfalso. eapply Ha. reflexivity.
Qed.

Lemma extends_from_dict (d : dict) (b : value) :
  extends (VDict d) b -> exists d', b = VDict d'.
Proof.
  intros H. inversion H; subst; eauto.
Qed.

(** Setting a new key to the value [existing] holds changes nothing for
    [check_for_update]. *)
Lemma check_for_update_set_new (e : dict) (k : string) (v : value) :
  e <> [] -> dict_get k e = Some v -> no_self_update v ->
  forall d, dict_get k d = None ->
  check_for_update (VDict e) (VDict (dict_set k v d)) = check_for_update (VDict e) (VDict d).
Proof.
  intros He Hget Hself.
  assert (Ht : truthy (VDict e) = true) by (apply truthy_dict; exact He).
  assert (Hitem : item_check (VDict e) k v = Ret false).
  { unfold item_check. simpl py_in. unfold dict_has. simpl py_getitem. rewrite Hget.
    cbn [bind negb]. destruct v; cbn [no_self_update] in Hself; rewrite Hself; reflexivity. }
  induction d as [|[k0 v0] d IH]; intros Hnone.
  - simpl dict_set. rewrite check_for_update_item by exact Ht. rewrite Hitem.
    reflexivity.
  - simpl in Hnone. simpl dict_set. destruct (String.eqb k k0); [discriminate|].
    rewrite !check_for_update_item by exact Ht. rewrite IH by exact Hnone. reflexivity.
Qed.

(** Replacing the value of a key by one that decides the same changes
    nothing for [check_for_update]. *)
Lemma check_for_update_set_same_item (existing : value) (k : string) (sub sub' : value) :
  truthy existing = true ->
  item_check existing k sub' = item_check existing k sub ->
  forall d, dict_get k d = Some sub ->
  check_for_update existing (VDict (dict_set k sub' d)) =
  check_for_update existing (VDict d).
Proof.
  intros Ht Hitem. induction d as [|[k0 v0] d IH]; intros Hget; [discriminate|].
  simpl in Hget. simpl dict_set. destruct (String.eqb k k0) eqn:E.
  - apply String.eqb_eq in E; subst k0. inversion Hget; subst v0.
    rewrite !check_for_update_item by exact Ht. rewrite Hitem. reflexivity.
  - rewrite !check_for_update_item by exact Ht. rewrite IH by exact Hget. reflexivity.
Qed.

(** The loop of the back-fill over items [existing] holds, seen from
    [check_for_update]. *)
Lemma fill_items_same_check (e : dict) (items : dict) :
  e <> [] ->
  (forall k v, In (k, v) items ->
     dict_get k e = Some v /\ no_self_update v /\
     forall sub, check_for_update v (fst (_fill_missing_resource_params v sub)) =
                 check_for_update v sub) ->
  forall rp,
  check_for_update (VDict e) (fst (_fill_missing_resource_params (VDict items) rp)) =
  check_for_update (VDict e) rp.
Proof.
  intros He.
  assert (Ht : truthy (VDict e) = true) by (apply truthy_dict; exact He).
  induction items as [|[k v] items IH]; intros Hall rp; [reflexivity|].
  assert (Hrest : forall rp', check_for_update (VDict e)
                    (fst (_fill_missing_resource_params (VDict items) rp')) =
                  check_for_update (VDict e) rp')
    by (apply IH; intros k' v' Hin; apply Hall; right; exact Hin).
  destruct (Hall k v (or_introl eq_refl)) as [Hget [Hself Hsub]].
  destruct rp;
    try (rewrite (extends_from_plain _ _ (fill_extends _ _)) by congruence; reflexivity).
  rewrite fill_cons. simpl py_in. unfold dict_has. simpl py_setitem. simpl py_getitem.
  destruct (dict_get k d) as [sub|] eqn:Hd.
  - destruct v; try apply Hrest.
    specialize (Hsub sub).
    destruct (_fill_missing_resource_params (VDict d0) sub) as [sub' err] eqn:Hfill.
    cbn [fst] in Hsub. cbn [store_back].
    assert (Hset : check_for_update (VDict e) (VDict (dict_set k sub' d)) =
                   check_for_update (VDict e) (VDict d)).
    { apply (check_for_update_set_same_item (VDict e) k sub sub' Ht); [|exact Hd].
      unfold item_check. simpl py_in. unfold dict_has. simpl py_getitem. rewrite Hget.
      cbn [bind negb].
      pose proof (fill_extends (VDict d0) sub) as Hext. rewrite Hfill in Hext.
      cbn [fst] in Hext.
      destruct sub; try (rewrite (extends_from_plain _ _ Hext) by congruence; reflexivity).
      destruct (extends_from_dict _ _ Hext) as [d' ->]. exact Hsub. }
    destruct err; [exact Hset|]. rewrite Hrest. exact Hset.
  - rewrite Hrest. apply check_for_update_set_new; assumption.
Qed.

Lemma fill_same_check (existing : value) :
  well_formed existing ->
  forall rp,
  check_for_update existing (fst (_fill_missing_resource_params existing rp)) =
  check_for_update existing rp.
Proof.
  induction existing using value_nested_ind; intros Hwf rp;
    try (rewrite fill_not_dict by congruence; reflexivity).
  destruct d as [|kv d0] eqn:Ed; [reflexivity|]. rewrite <- Ed in *.
  inversion Hwf as [| | | | |d' Hnd Hd]; subst d'.
  apply fill_items_same_check; [rewrite Ed; discriminate|].
  intros k v Hin. rewrite Forall_forall in H, Hd.
  split; [apply dict_get_NoDup; assumption|].
  split; [apply no_self_update_well_formed; apply (Hd (k, v) Hin)|].
  intros sub. apply (H (k, v) Hin). apply (Hd (k, v) Hin).
Qed.

(** X7. Back-fill never changes what the diff decides.  For an existing
    resource whose mappings have distinct keys, and whatever the desired
    parameters are, [check_for_update] gives the same answer (or raises
    the same exception) on the back-filled parameters as on the
    parameters the user gave, also when the back-fill was cut short: the
    values copied from the existing resource never ask for an update. *)
Theorem fill_missing_keeps_check_for_update (existing desired : value)
    (Hwf : well_formed existing) :
  check_for_update existing (fst (_fill_missing_resource_params existing desired)) =
  check_for_update existing desired.
Proof.
  apply fill_same_check. exact Hwf.
Qed.

Lemma fill_missing_keeps_check_for_update_witness :
  well_formed (VDict [("display_name", VStr "old"); ("_revision", VInt 3)]) /\
  check_for_update (VDict [("display_name", VStr "old"); ("_revision", VInt 3)])
    (fst (_fill_missing_resource_params
            (VDict [("display_name", VStr "old"); ("_revision", VInt 3)])
            (VDict [("display_name", VStr "web")]))) =
  check_for_update (VDict [("display_name", VStr "old"); ("_revision", VInt 3)])
    (VDict [("display_name", VStr "web")]).
Proof.
  assert (H : well_formed (VDict [("display_name", VStr "old"); ("_revision", VInt 3)])).
  { repeat first [ apply wf_dict | apply wf_str | apply wf_int
                 | apply Forall_cons | apply Forall_nil
                 | apply NoDup_nil
                 | (apply NoDup_cons; [simpl; intuition discriminate|]) ]. }
  split; [exact H|].
  exact (fill_missing_keeps_check_for_update _ (VDict [("display_name", VStr "web")]) H).
Defined.

(** ** Whole runs *)

Lemma class_depth_sub (c s : resource_class) :
  In s (sub_resources c) -> (class_depth s < class_depth c)%nat.
Proof.
  destruct c as [n u p cf df ad dw sp bu subs]. simpl.
  induction subs as [|x subs IH]; intros Hin; [contradiction|].
  destruct Hin as [->|Hin].
  - lia.
  - specialize (IH Hin). lia.
Qed.

Lemma get_sub_resources_in (state : option value) (c s : resource_class) :
  In s (_get_sub_resources_class_of state c) -> In s (sub_resources c).
Proof.
  intros H. eapply Permutation_in; [|exact H].
  unfold _get_sub_resources_class_of.
  destruct state as [st|]; [destruct (py_eq st (VStr "present"))|];
    apply stable_sort_perm.
Qed.

Section Frame.
Variable api : list event -> response.
Variable params : dict.
Variable check_mode : bool.
Variable total : bool.
Variable R : world -> world -> Prop.
Variable Q : exit_report -> world -> Prop.
Variable allowed : event -> Prop.
Variable ref_ok : list_ref -> Prop.
Hypothesis R_refl : forall w, R w w.
Hypothesis R_trans : forall w1 w2 w3, R w1 w2 -> R w2 w3 -> R w1 w3.
Hypothesis R_append : forall r x, ref_ok r -> satisfies total R Q (append r x).
Hypothesis ref_ok_default : ref_ok DefaultLogs.
Hypothesis Q_exit_json : forall r w, ref_ok r -> Q (ExitJson (read_logs r w)) w.
Hypothesis Q_fail_json :
  forall msg r w,
    match r with Some r' => ref_ok r' | None => True end ->
    Q (FailJson msg (match r with Some r' => Some (read_logs r' w) | None => None end)) w.
Hypothesis R_set_parent_info : forall ids p, satisfies total R Q (set_parent_info ids p).
Hypothesis R_emit : forall ev, allowed ev -> satisfies total R Q (emit ev).
Hypothesis allowed_get :
  forall url data ignore_errors, allowed (EvRequest url "GET" data ignore_errors).
Hypothesis Hmode : check_mode = true \/ (total = false /\ forall ev, allowed ev).

Lemma sat_ret (A : Type) (a : A) : satisfies total R Q (ret a).
Proof. intros w. apply R_refl. Qed.

Lemma sat_raise (A : Type) (e : exn) : satisfies total R Q (@raise A e).
Proof. intros w. apply R_refl. Qed.

Lemma sat_lift (A : Type) (r : result A) : satisfies total R Q (lift r).
Proof. destruct r; [apply sat_ret | apply sat_raise]. Qed.

Lemma sat_seq (A B : Type) (c : run A) (k : A -> run B) :
  satisfies total R Q c -> (forall a, satisfies total R Q (k a)) ->
  satisfies total R Q (seq c k).
Proof.
  intros Hc Hk w. unfold seq. specialize (Hc w).
  destruct (c w) as [a w1|r w1|e w1|]; try exact Hc.
  specialize (Hk a w1).
  destruct (k a w1);
    first [ exact Hk
          | eapply R_trans; [exact Hc | exact Hk]
          | destruct Hk as [Hk1 Hk2]; split; [eapply R_trans; [exact Hc | exact Hk1] | exact Hk2] ].
Qed.

Lemma sat_try_except (A : Type) (c : run A) (h : exn -> run A) :
  satisfies total R Q c -> (forall e, satisfies total R Q (h e)) ->
  satisfies total R Q (try_except c h).
Proof.
  intros Hc Hh w. unfold try_except. specialize (Hc w).
  destruct (c w) as [a w1|r w1|e w1|]; try exact Hc.
  specialize (Hh e w1).
  destruct (h e w1);
    first [ exact Hh
          | eapply R_trans; [exact Hc | exact Hh]
          | destruct Hh as [Hh1 Hh2]; split; [eapply R_trans; [exact Hc | exact Hh1] | exact Hh2] ].
Qed.

Lemma sat_exit_json (r : list_ref) : ref_ok r -> satisfies total R Q (exit_json r).
Proof. intros Hr w. split; [apply R_refl | apply Q_exit_json; exact Hr]. Qed.

Lemma sat_fail_json (msg : string * list value) (r : option list_ref) :
  match r with Some r' => ref_ok r' | None => True end ->
  satisfies total R Q (fail_json msg r).
Proof. intros Hr w. split; [apply R_refl | apply Q_fail_json; exact Hr]. Qed.

Lemma sat_send (c : resource_class) (suffix : string) (ignore_error : bool)
    (method : string) (data : option value) :
  (forall url, allowed (EvRequest url method data ignore_error)) ->
  satisfies total R Q (_send_request_to_API api c suffix ignore_error method data).
Proof.
  intros Hall w. unfold _send_request_to_API.
  pose proof (R_emit _ (Hall (get_resource_base_url c (parent_info_ids w) ++ suffix)) w)
    as He.
  destruct (emit _ w) as [u w1|r w1|e w1|]; try exact He.
  destruct (api (trace w1)); exact He.
Qed.

Lemma sat_getAttribute (c : resource_class) (has_parent_info : bool) (attribute : string) :
  satisfies total R Q (_getAttribute params c has_parent_info attribute).
Proof.
  unfold _getAttribute. destruct (in_base c); [apply sat_ret|].
  apply sat_seq.
  - destruct (String.eqb attribute "state"); [|apply sat_ret].
    destruct has_parent_info; [|apply sat_raise].
    intros w. destruct (parent_info_parent w); apply R_refl.
  - intros [|]; apply sat_ret.
Qed.

Lemma sat_update_parent_info (c : resource_class) (id : value) :
  satisfies total R Q (update_parent_info c id).
Proof. intros w. unfold update_parent_info. apply R_set_parent_info. Qed.

Lemma sat_update_parent (c : resource_class) (state : value) :
  satisfies total R Q (_update_parent_info c state).
Proof. intros w. unfold _update_parent_info. apply R_set_parent_info. Qed.

Lemma sat_resolve_existing (c : resource_class) (id rp : value) :
  satisfies total R Q (resolve_existing api c id rp).
Proof.
  unfold resolve_existing. apply sat_seq.
  - apply sat_try_except; [|intros e; apply sat_ret].
    apply sat_seq; [apply sat_lift|]. intros suffix.
    apply sat_seq; [apply sat_send; intros url; apply allowed_get|].
    intros r. apply sat_ret.
  - intros [existing|]; [|apply sat_ret].
    destruct (_fill_missing_resource_params existing rp) as [filled [e|]]; apply sat_ret.
Qed.

Lemma R_sleep_world (seconds : Z) (w : world) :
  allowed (EvSleep seconds) -> R w (sleep_world seconds w).
Proof.
  intros Ha. unfold sleep_world. pose proof (R_emit _ Ha w) as He.
  destruct (emit (EvSleep seconds) w); try exact He; apply R_refl.
Qed.

Lemma R_fetch_self (self : resource) (w : world) :
  R w (fst (fetch_self api self w)).
Proof.
  unfold fetch_self.
  assert (Hs : satisfies total R Q
                 (suffix <<- lift (slash (self_id self)) ;;
                  _send_request_to_API api (self_class self) suffix true "GET" None)).
  { apply sat_seq; [apply sat_lift|]. intros suffix. apply sat_send.
    intros url. apply allowed_get. }
  specialize (Hs w).
  destruct ((suffix <<- lift (slash (self_id self)) ;;
             _send_request_to_API api (self_class self) suffix true "GET" None) w)
    as [[rc resp] w1|r w1|e w1|]; simpl; try exact Hs; [apply Hs | apply R_refl].
Qed.

Lemma R_wait_loop (self : resource) (fuel : nat) :
  (forall ev, allowed ev) ->
  forall count w w' r,
  wait_loop world (fetch_self api self) sleep_world fuel count w = Some (w', r) ->
  R w w'.
Proof.
  intros Hall. induction fuel as [|fuel IH]; intros count w w' r H; [discriminate|].
  rewrite wait_loop_turn in H.
  pose proof (R_fetch_self self w) as Hf.
  destruct (fetch_self api self w) as [w1 resp0]. cbn [fst] in Hf.
  assert (Hsl : forall n, R w (sleep_world n w1))
    by (intros n; eapply R_trans; [exact Hf | apply R_sleep_world; apply Hall]).
  destruct resp0 as [e|rc resp]; [inversion H; subst; exact Hf|].
  destruct (py_in "state" resp) as [[|]|e].
  - destruct (st <- py_getitem resp "state" ;; any_in st IN_PROGRESS_STATES) as [[|]|e].
    + destruct (count + 1 =? 90).
      * inversion H; subst. apply Hsl.
      * eapply R_trans; [apply Hsl | eapply IH; exact H].
    + destruct (st <- py_getitem resp "state" ;; any_in st SUCCESS_STATES) as [[|]|e];
        inversion H; subst; exact Hf.
    + inversion H; subst; exact Hf.
  - destruct (negb (rc =? 200)).
    + destruct (count + 1 =? 90).
      * inversion H; subst. apply Hsl.
      * eapply R_trans; [apply Hsl | eapply IH; exact H].
    + inversion H; subst; exact Hf.
  - inversion H; subst; exact Hf.
Qed.

Lemma sat_wait_till_create (self : resource) :
  total = false -> (forall ev, allowed ev) ->
  satisfies total R Q (wait_till_create_run api self).
Proof.
  intros Ht Hall w. unfold wait_till_create_run, _wait_till_create.
  destruct (wait_loop world (fetch_self api self) sleep_world 90 0 w)
    as [[w' r]|] eqn:H; [|exact Ht].
  apply R_wait_loop in H; [|exact Hall]. destruct r; exact H.
Qed.

Lemma sat_wait_till_delete (self : resource) (fuel : nat) :
  total = false -> (forall ev, allowed ev) ->
  satisfies total R Q (_wait_till_delete api fuel self).
Proof.
  intros Ht Hall. induction fuel as [|fuel IH]; intros w; [exact Ht|].
  rewrite wait_till_delete_turn. unfold delete_round.
  pose proof (R_fetch_self self w) as Hf.
  destruct (fetch_self api self w) as [w1 r]. cbn [fst snd] in *.
  destruct r as [e|rc resp];
    [destruct e; first [exact Hf | split; [exact Hf | apply (Q_fail_json _ None); exact I]]|].
  specialize (IH (sleep_world 10 w1)).
  assert (Hs : R w (sleep_world 10 w1))
    by (eapply R_trans; [exact Hf | apply R_sleep_world; apply Hall]).
  destruct (_wait_till_delete api fuel self (sleep_world 10 w1));
    first [ exact IH
          | eapply R_trans; [exact Hs | exact IH]
          | destruct IH as [IH1 IH2]; split; [eapply R_trans; [exact Hs | exact IH1] | exact IH2] ].
Qed.

Lemma sat_achieve_present_state (self : resource) (logs : list_ref) :
  ref_ok logs ->
  satisfies total R Q (_achieve_present_state api check_mode self logs).
Proof.
  intros Hlogs.
  assert (Happend : forall x, satisfies total R Q (append logs x))
    by (intros x; apply R_append; exact Hlogs).
  assert (Hfail : forall msg, satisfies total R Q (fail_json msg (Some logs)))
    by (intros msg; apply sat_fail_json; exact Hlogs).
  unfold _achieve_present_state.
  apply sat_seq; [apply sat_lift|]. intros is_resource_updated.
  destruct (negb is_resource_updated).
  - destruct Hmode as [-> | [Ht Hall]]; [apply Happend|].
    destruct check_mode; [apply Happend|].
    apply sat_try_except; [|intros e; apply Hfail].
    destruct (truthy (self_existing_resource self)); [apply Happend|].
    apply sat_seq; [apply sat_lift|]. intros suffix.
    apply sat_seq; [apply sat_send; intros url; apply Hall|]. intros resp.
    apply sat_seq.
    + destruct (do_wait_till_create (self_class self));
        [apply sat_wait_till_create; assumption | apply sat_ret].
    + intros realized. destruct (negb realized); [apply sat_raise | apply Happend].
  - destruct Hmode as [-> | [Ht Hall]]; [apply sat_raise|].
    destruct check_mode; [apply sat_raise|].
    apply sat_seq; [apply sat_lift|]. intros revision.
    apply sat_seq; [apply sat_lift|]. intros resource_params.
    apply sat_try_except; [|intros e; apply Hfail].
    apply sat_seq; [apply sat_lift|]. intros suffix.
    apply sat_seq; [apply sat_send; intros url; apply Hall|]. intros resp.
    apply Happend.
Qed.

Lemma sat_achieve_absent_state (fuel : nat) (self : resource) (logs : list_ref) :
  ref_ok logs ->
  satisfies total R Q (_achieve_absent_state api check_mode fuel self logs).
Proof.
  intros Hlogs.
  assert (Happend : forall x, satisfies total R Q (append logs x))
    by (intros x; apply R_append; exact Hlogs).
  assert (Hfail : forall msg, satisfies total R Q (fail_json msg (Some logs)))
    by (intros msg; apply sat_fail_json; exact Hlogs).
  unfold _achieve_absent_state.
  destruct (py_is_none (self_existing_resource self)); [apply Happend|].
  destruct Hmode as [-> | [Ht Hall]]; [apply Happend|].
  destruct check_mode; [apply Happend|].
  apply sat_try_except; [|intros e; apply Hfail].
  apply sat_seq; [apply sat_lift|]. intros suffix.
  apply sat_seq; [apply sat_send; intros url; apply Hall|]. intros resp.
  apply sat_seq; [apply sat_wait_till_delete; assumption|]. intros u.
  apply Happend.
Qed.

Lemma sat_realize_in_order
    (realize_sub : resource_class -> bool -> arg -> option list_ref -> run unit)
    (logs : list_ref) (l : list resource_class) :
  (forall s, In s l -> satisfies total R Q (realize_sub s true (ArgList logs) None)) ->
  satisfies total R Q (realize_in_order realize_sub logs l).
Proof.
  induction l as [|s l IH]; intros Hall; [apply sat_ret|].
  simpl. apply sat_seq; [apply Hall; now left|].
  intros u. apply IH. intros s' Hs'. apply Hall. right. exact Hs'.
Qed.

Lemma sat_achieve_subresource_state
    (realize_sub : resource_class -> bool -> arg -> option list_ref -> run unit)
    (self : resource) (logs : list_ref) :
  (forall s, In s (sub_resources (self_class self)) ->
     satisfies total R Q (realize_sub s true (ArgList logs) None)) ->
  satisfies total R Q (achieve_subresource_state realize_sub self logs).
Proof.
  intros Hall w. rewrite achieve_subresource_state_in_order.
  apply sat_realize_in_order. intros s Hs. apply Hall.
  eapply get_sub_resources_in. exact Hs.
Qed.

Lemma sat_achieve_state
    (realize_sub : resource_class -> bool -> arg -> option list_ref -> run unit)
    (fuel : nat) (self : resource) (logs : list_ref) :
  ref_ok logs ->
  (forall s, In s (sub_resources (self_class self)) ->
     satisfies total R Q (realize_sub s true (ArgList logs) None)) ->
  satisfies total R Q (_achieve_state api check_mode realize_sub fuel self logs).
Proof.
  intros Hlogs Hall. unfold _achieve_state.
  assert (Hsubs := sat_achieve_subresource_state realize_sub self logs Hall).
  destruct (py_eq (self_id self) INCORRECT_ARGUMENT_NAME_VALUE); [apply sat_ret|].
  repeat (apply sat_seq; [|intros ?]);
    repeat match goal with
           | |- satisfies _ _ _ (if ?b then _ else _) => destruct b
           end;
    first [ exact Hsubs | apply sat_ret
          | apply sat_achieve_present_state; exact Hlogs
          | apply sat_achieve_absent_state; exact Hlogs
          | apply sat_exit_json; exact Hlogs ].
Qed.

Lemma sat_realize (fuel : nat) :
  forall (c : resource_class) (has_parent_info : bool) (supports_check_mode : arg)
         (logs : option list_ref),
  (forall r, logs = Some r -> ref_ok r) ->
  (total = true -> (class_depth c < fuel)%nat) ->
  satisfies total R Q (realize api params check_mode fuel c has_parent_info
                       supports_check_mode logs).
Proof.
  induction fuel as [|fuel IH]; intros c hpi scm logs Hlogs Hdepth.
  - intros w. simpl. destruct total; [|reflexivity].
    specialize (Hdepth eq_refl). lia.
  - cbn [realize].
    apply sat_seq; [apply sat_getAttribute|]. intros state.
    apply sat_seq; [apply sat_getAttribute|]. intros id.
    apply sat_seq; [destruct hpi; [apply sat_ret | apply R_set_parent_info]|]. intros u1.
    apply sat_seq; [apply sat_update_parent_info|]. intros u2.
    apply sat_seq; [apply sat_update_parent|]. intros u3.
    apply sat_seq; [apply sat_resolve_existing|]. intros resolved.
    apply sat_achieve_state.
    { destruct logs as [r|]; [apply Hlogs; reflexivity | exact ref_ok_default]. }
    cbn [self_class]. intros s Hs.
    apply IH; [intros r Hr; discriminate|]. intros Ht. specialize (Hdepth Ht).
    pose proof (class_depth_sub c s Hs). lia.
Qed.
End Frame.

Lemma only_gets_refl (w : world) : only_gets w w.
Proof. exists []. split; [symmetry; apply app_nil_r | constructor]. Qed.

Lemma only_gets_trans (w1 w2 w3 : world) :
  only_gets w1 w2 -> only_gets w2 w3 -> only_gets w1 w3.
Proof.
  intros [e1 [H1 F1]] [e2 [H2 F2]]. exists (e1 ++ e2)%list. split.
  - rewrite H2, H1. symmetry. apply app_assoc.
  - apply Forall_app. split; assumption.
Qed.

Lemma logs_extended_refl (w : world) : logs_extended w w.
Proof. split; exists []; symmetry; apply app_nil_r. Qed.

Lemma logs_extended_trans (w1 w2 w3 : world) :
  logs_extended w1 w2 -> logs_extended w2 w3 -> logs_extended w1 w3.
Proof.
  intros [[x1 H1] [y1 G1]] [[x2 H2] [y2 G2]]. split.
  - exists (x1 ++ x2)%list. rewrite H2, H1. symmetry. apply app_assoc.
  - exists (y1 ++ y2)%list. rewrite G2, G1. symmetry. apply app_assoc.
Qed.

(** X8. Dry-run purity of the whole traversal.  In check mode, for
    every tree of resource classes, every module parameters and every
    behaviour of the manager, a run of [realize] with fuel above the
    height of the tree ends, and however it ends (normally, through
    [exit_json], or by an exception) every request it has issued is a
    [GET]: no [PATCH], no [DELETE], and no sleep. *)
Theorem realize_check_mode_only_gets (api : list event -> response) (params : dict)
    (fuel : nat) (c : resource_class) (has_parent_info : bool)
    (supports_check_mode : arg) (logs : option list_ref) (w : world)
    (Hfuel : (class_depth c < fuel)%nat) :
  match realize api params true fuel c has_parent_info supports_check_mode logs w with
  | Ok _ w' => only_gets w w'
  | Exit _ w' => only_gets w w'
  | Raise _ w' => only_gets w w'
  | OutOfFuel => False
  end.
Proof.
  pose proof (sat_realize api params true true only_gets (fun _ _ => True) is_get
                (fun _ => True) only_gets_refl only_gets_trans) as H.
  assert (Hsame : forall (A : Type) (c0 : run A),
            (forall w0, match c0 w0 with
                        | Ok _ w' => trace w' = trace w0
                        | _ => False
                        end) ->
            satisfies true only_gets (fun _ _ => True) c0).
  { intros A c0 Hc w0. specialize (Hc w0). destruct (c0 w0); try contradiction.
    exists []. split; [rewrite Hc; symmetry; apply app_nil_r | constructor]. }
  specialize (H (fun r x _ => Hsame _ (append r x)
                                 ltac:(intros w0; destruct r; reflexivity))
                I (fun _ _ _ => I) (fun _ _ _ _ => I)
                (fun ids p => Hsame _ (set_parent_info ids p)
                                ltac:(intros w0; reflexivity))).
  assert (Hemit : forall ev, is_get ev -> satisfies true only_gets (fun _ _ => True) (emit ev)).
  { intros ev Hev w0. simpl. exists [ev]. split; [reflexivity|].
    constructor; [exact Hev | constructor]. }
  specialize (H Hemit
                (fun url data ign => ex_intro _ url (ex_intro _ data (ex_intro _ ign eq_refl)))
                (or_introl eq_refl)
                fuel c has_parent_info supports_check_mode logs
                (fun _ _ => I) (fun _ => Hfuel) w).
  destruct (realize api params true fuel c has_parent_info supports_check_mode logs w);
    try exact H; [apply H | discriminate].
Qed.

Lemma realize_check_mode_only_gets_witness :
  (class_depth segment_with_port < 5)%nat /\
  match realize (manager []) segment_with_port_params true 5 segment_with_port
          false (ArgBool true) None initial_world with
  | Ok _ w' => only_gets initial_world w'
  | Exit _ w' => only_gets initial_world w'
  | Raise _ w' => only_gets initial_world w'
  | OutOfFuel => False
  end.
Proof.
  assert (H : (class_depth segment_with_port < 5)%nat)
    by (apply Nat.ltb_lt; reflexivity).
  split; [exact H|].
  exact (realize_check_mode_only_gets (manager []) segment_with_port_params 5
           segment_with_port false (ArgBool true) None initial_world H).
Defined.

(** X9. The result log is append-only over the whole traversal.
    Whatever the mode, the tree, the parameters and the manager, and
    however a run of [realize] ends, both list objects hold at the end
    what they held at the start, in place, followed by what the run
    appended: no record is ever removed, replaced or reordered. *)
Theorem realize_logs_append_only (api : list event -> response) (params : dict)
    (check_mode : bool) (fuel : nat) (c : resource_class) (has_parent_info : bool)
    (supports_check_mode : arg) (logs : option list_ref) (w : world) :
  match realize api params check_mode fuel c has_parent_info supports_check_mode logs w with
  | Ok _ w' => logs_extended w w'
  | Exit _ w' => logs_extended w w'
  | Raise _ w' => logs_extended w w'
  | OutOfFuel => True
  end.
Proof.
  pose proof (sat_realize api params check_mode false logs_extended (fun _ _ => True)
                (fun _ => True) (fun _ => True)
                logs_extended_refl logs_extended_trans) as H.
  assert (Happend : forall r x,
            satisfies false logs_extended (fun _ _ => True) (append r x)).
  { intros r x w0. destruct r; simpl; split;
      first [ exists [x]; reflexivity | exists []; symmetry; apply app_nil_r ]. }
  specialize (H (fun r x _ => Happend r x) I (fun _ _ _ => I) (fun _ _ _ _ => I)
                (fun ids p w0 => logs_extended_refl w0)
                (fun ev _ w0 => logs_extended_refl w0)
                (fun _ _ _ => I)
                (or_intror (conj eq_refl (fun _ => I)))
                fuel c has_parent_info supports_check_mode logs
                (fun _ _ => I) (fun Hf => ltac:(discriminate Hf)) w).
  destruct (realize api params check_mode fuel c has_parent_info supports_check_mode logs w);
    try exact H; [apply H | exact I].
Qed.

(** X10. A run started with the defaults keeps one log.  When [realize]
    is called without a list of the caller's, every record of the whole
    traversal goes to the default list: no other list is touched, and a
    report the run exits with, through [exit_json] or [fail_json],
    carries exactly the default list as it stands at that point. *)
Theorem realize_default_single_log (api : list event -> response) (params : dict)
    (check_mode : bool) (fuel : nat) (c : resource_class) (has_parent_info : bool)
    (supports_check_mode : arg) (w : world) :
  match realize api params check_mode fuel c has_parent_info supports_check_mode None w with
  | Ok _ w' => caller_logs w' = caller_logs w
  | Exit r w' => caller_logs w' = caller_logs w /\ reports_default_logs r w'
  | Raise _ w' => caller_logs w' = caller_logs w
  | OutOfFuel => True
  end.
Proof.
  pose proof (sat_realize api params check_mode false
                (fun w0 w' => caller_logs w' = caller_logs w0) reports_default_logs
                (fun _ => True) (fun r => r = DefaultLogs)
                (fun w0 => eq_refl)
                (fun w1 w2 w3 H12 H23 => eq_trans H23 H12)) as H.
  assert (Happend : forall r x, r = DefaultLogs ->
            satisfies false (fun w0 w' => caller_logs w' = caller_logs w0)
              reports_default_logs (append r x))
    by (intros r x -> w0; reflexivity).
  assert (Hfail : forall (msg : string * list value) (r : option list_ref) (w0 : world),
            match r with Some r' => r' = DefaultLogs | None => True end ->
            reports_default_logs
              (FailJson msg (match r with
                             | Some r' => Some (read_logs r' w0)
                             | None => None
                             end)) w0)
    by (intros msg [r|] w0 Hr; [subst r; reflexivity | exact I]).
  assert (Hexit : forall (r : list_ref) (w0 : world), r = DefaultLogs ->
            reports_default_logs (ExitJson (read_logs r w0)) w0)
    by (intros r w0 ->; reflexivity).
  specialize (H Happend eq_refl Hexit
                Hfail
                (fun ids p w0 => eq_refl)
                (fun ev _ w0 => eq_refl)
                (fun _ _ _ => I)
                (or_intror (conj eq_refl (fun _ => I)))
                fuel c has_parent_info supports_check_mode None).
  specialize (H ltac:(intros r Hr; discriminate Hr) ltac:(intros Hf; discriminate Hf) w).
  destruct (realize api params check_mode fuel c has_parent_info supports_check_mode None w);
    try exact H. exact I.
Qed.

(** ** The state machine of one node *)

Lemma py_eq_present_not_absent (state : value) :
  py_eq state (VStr "present") = true -> py_eq state (VStr "absent") = false.
Proof.
  destruct state; simpl; try discriminate.
  intros H. apply String.eqb_eq in H. subst s. reflexivity.
Qed.


(** ** A sub-resource the user did not configure *)

Lemma seq_ok (A B : Type) (c : run A) (k : A -> run B) (w w1 : world) (a : A) :
  c w = Ok a w1 -> seq c k w = k a w1.
Proof. intros H. unfold seq. rewrite H. reflexivity. Qed.

Lemma getAttribute_state_returns (params : dict) (c : resource_class) (w : world)
    (p : parent_ref) :
  in_base c = false -> parent_info_parent w = Some p ->
  exists st, _getAttribute params c true "state" w = Ok st w.
Proof.
  intros Hb Hp. unfold _getAttribute, seq. rewrite Hb. simpl. rewrite Hp.
  destruct (py_eq (parent_state p) (VStr "absent") &&
            negb (achieve_subresource_state_if_del_parent c)); eexists; reflexivity.
Qed.

Lemma getAttribute_id_missing (params : dict) (c : resource_class) (w : world) :
  in_base c = false ->
  dict_get (get_unique_arg_identifier c ++ "_id") params = None ->
  _getAttribute params c true "id" w = Ok INCORRECT_ARGUMENT_NAME_VALUE w.
Proof.
  intros Hb Hid. unfold _getAttribute, seq. rewrite Hb. simpl.
  unfold ret, dict_get_default. rewrite Hid. reflexivity.
Qed.

(** Resolving the existing resource of a string id issues one [GET] and
    changes nothing else. *)
Lemma resolve_existing_one_get (api : list event -> response) (c : resource_class)
    (s : string) (rp : value) (w : world) :
  exists existing filled,
    resolve_existing api c (VStr s) rp w =
      Ok (existing, filled)
         {| trace := (trace w ++
                      [EvRequest (get_resource_base_url c (parent_info_ids w) ++ "/" ++ s)
                                 "GET" None false])%list;
            default_logs := default_logs w; caller_logs := caller_logs w;
            parent_info_ids := parent_info_ids w;
            parent_info_parent := parent_info_parent w |}.
Proof.
  unfold resolve_existing, seq, try_except, lift, slash, ret, _send_request_to_API, emit.
  cbn [trace].
  destruct (api _) as [e|rc resp]; cbn.
  - eexists; eexists; reflexivity.
  - destruct (_fill_missing_resource_params resp rp) as [filled [e|]];
      eexists; eexists; reflexivity.
Qed.

Lemma getAttribute_id_held (params : dict) (c : resource_class) (w : world) (v : value) :
  in_base c = false ->
  dict_get (get_unique_arg_identifier c ++ "_id") params = Some v ->
  _getAttribute params c true "id" w = Ok v w.
Proof.
  intros Hb Hid. unfold _getAttribute, seq. rewrite Hb. simpl.
  unfold ret, dict_get_default. rewrite Hid. reflexivity.
Qed.

Lemma getAttribute_state_own (params : dict) (c : resource_class) (w : world)
    (p : parent_ref) :
  in_base c = false -> parent_info_parent w = Some p ->
  py_eq (parent_state p) (VStr "absent") &&
    negb (achieve_subresource_state_if_del_parent c) = false ->
  _getAttribute params c true "state" w =
    Ok (dict_get_default (get_unique_arg_identifier c ++ "_state")
          INCORRECT_ARGUMENT_NAME_VALUE params) w.
Proof.
  intros Hb Hp Hown. unfold _getAttribute, seq. rewrite Hb. simpl. rewrite Hp, Hown.
  reflexivity.
Qed.

(** With [None] for an id, ["/" + self.id] raises inside the [try]: no
    request is issued and the resource is taken as not existing. *)
Lemma resolve_existing_no_id (api : list event -> response) (c : resource_class)
    (rp : value) (w : world) :
  resolve_existing api c VNone rp w = Ok (VNone, rp) w.
Proof. reflexivity. Qed.

(** X11. A sub-resource the user left out.  [_achieve_state] skips a
    node only when its id is the sentinel, which [_getAttribute] gives
    only when [<identifier>_id] is missing from the module parameters:
    then [realize] returns normally, appends no record, issues no
    [PATCH] or [DELETE], realizes none of the node's sub-resources, and
    still issues one [GET], for the sentinel id.  When the parameters
    hold [None] under [<identifier>_id], as they do for a declared
    argument the user left out, the node is not skipped.  With a state
    that is neither [present] nor [absent] ([None], say) and a parent
    that does not impose [absent], [realize] issues no request at all
    and appends one record to the list it works on, keyed [None] and
    not marked changed: [No <name> exist with id None]. *)
Theorem realize_unconfigured_sub_resource (api : list event -> response) (params : dict)
    (check_mode : bool) (fuel : nat) (c : resource_class) (supports_check_mode : arg)
    (logs : option list_ref) (w : world) (p : parent_ref)
    (Hsub : in_base c = false)
    (Hparent : parent_info_parent w = Some p) :
  (dict_get (get_unique_arg_identifier c ++ "_id") params = None ->
   exists w',
     realize api params check_mode (S fuel) c true supports_check_mode logs w = Ok tt w' /\
     trace w' =
       (trace w ++
        [EvRequest
           (get_resource_base_url c
              (dict_set (get_unique_arg_identifier c ++ "_id")
                 INCORRECT_ARGUMENT_NAME_VALUE (parent_info_ids w))
            ++ "/error_invalid_parameter")
           "GET" None false])%list /\
     default_logs w' = default_logs w /\ caller_logs w' = caller_logs w) /\
  (dict_get (get_unique_arg_identifier c ++ "_id") params = Some VNone ->
   let state := dict_get_default (get_unique_arg_identifier c ++ "_state")
                  INCORRECT_ARGUMENT_NAME_VALUE params in
   let used := match logs with Some r => r | None => DefaultLogs end in
   py_eq (parent_state p) (VStr "absent") &&
     negb (achieve_subresource_state_if_del_parent c) = false ->
   py_eq state (VStr "present") = false ->
   py_eq state (VStr "absent") = false ->
   exists w',
     realize api params check_mode (S fuel) c true supports_check_mode logs w = Ok tt w' /\
     trace w' = trace w /\
     read_logs used w' =
       (read_logs used w ++
        [{| log_key := Some VNone; log_changed := false;
            log_id := None; log_message := None;
            log_msg := Some ("No %s exist with id %s",
                             [VStr (get_resource_name c); VNone]);
            log_debug_out := None; log_body := None;
            log_resource_type := Some (get_resource_name c) |}])%list).
Proof.
  split.
  - intros Hid.
    destruct (getAttribute_state_returns params c w p Hsub Hparent) as [st Hst].
    cbn [realize].
    rewrite (seq_ok _ _ _ _ _ _ _ Hst).
    rewrite (seq_ok _ _ _ _ _ _ _ (getAttribute_id_missing params c w Hsub Hid)).
    unfold seq at 1. cbn [ret]. unfold seq at 1. unfold update_parent_info at 1.
    cbn [set_parent_info]. unfold seq at 1. unfold _update_parent_info at 1.
    cbn [set_parent_info parent_info_ids parent_info_parent].
    cbn [trace default_logs caller_logs].
    match goal with
    | |- context [seq (resolve_existing api c _ ?rp) _ ?w0] =>
        destruct (resolve_existing_one_get api c "error_invalid_parameter" rp w0)
          as [existing [filled Hres]]
    end.
    change (VStr "error_invalid_parameter") with INCORRECT_ARGUMENT_NAME_VALUE in Hres.
    rewrite (seq_ok _ _ _ _ _ _ _ Hres).
    unfold _achieve_state. cbn [self_id]. simpl py_eq.
    eexists. split; [reflexivity|]. cbn. repeat split; reflexivity.
  - intros Hid state used Hown Hpresent Habsent.
    cbn [realize].
    rewrite (seq_ok _ _ _ _ _ _ _ (getAttribute_state_own params c w p Hsub Hparent Hown)).
    rewrite (seq_ok _ _ _ _ _ _ _ (getAttribute_id_held params c w VNone Hsub Hid)).
    fold state.
    unfold seq at 1. cbn [ret]. unfold seq at 1. unfold update_parent_info at 1.
    cbn [set_parent_info]. unfold seq at 1. unfold _update_parent_info at 1.
    cbn [set_parent_info parent_info_ids parent_info_parent].
    cbn [trace default_logs caller_logs].
    match goal with
    | |- context [seq (resolve_existing api c _ ?rp) _ ?w0] =>
        rewrite (seq_ok _ _ _ _ _ _ _ (resolve_existing_no_id api c rp w0))
    end.
    cbn [fst snd].
    unfold _achieve_state. cbn [self_id self_state self_class]. simpl py_eq.
    rewrite Hpresent, Habsent, Hsub. cbn [andb].
    unfold _achieve_absent_state. cbn [self_existing_resource py_is_none self_id self_class].
    destruct logs as [[|]|]; cbn; eexists; (split; [reflexivity|]); split; reflexivity.
Qed.

Lemma realize_unconfigured_sub_resource_witness :
  let port := sample_class "NSXTSegmentPort" 5 false "/infra/segments/seg1/ports" [] in
  let w := {| trace := []; default_logs := []; caller_logs := [];
              parent_info_ids := [("NSXTSegment_id", VStr "seg1")];
              parent_info_parent :=
                Some {| parent_name := "NSXTSegment"; parent_state := VStr "present" |} |} in
  in_base port = false /\
  dict_get (get_unique_arg_identifier port ++ "_id") segment_params_port_left_out
    = Some VNone /\
  exists w',
    realize (manager []) segment_params_port_left_out false 1 port true
      (ArgList DefaultLogs) None w = Ok tt w' /\
    trace w' = [] /\
    default_logs w' =
      [{| log_key := Some VNone; log_changed := false;
          log_id := None; log_message := None;
          log_msg := Some ("No %s exist with id %s", [VStr "NSXTSegmentPort"; VNone]);
          log_debug_out := None; log_body := None;
          log_resource_type := Some "NSXTSegmentPort" |}].
Proof.
  intros port w. split; [reflexivity|]. split; [reflexivity|].
  exact (proj2
           (realize_unconfigured_sub_resource (manager []) segment_params_port_left_out
              false 0 port (ArgList DefaultLogs) None w
              {| parent_name := "NSXTSegment"; parent_state := VStr "present" |}
              eq_refl eq_refl)
           eq_refl eq_refl eq_refl eq_refl).
Defined.

(** ** The steps of one node *)

Lemma logs_kept_refl (w : world) : logs_kept w w.
Proof.
  split; [reflexivity|]. split; [reflexivity|]. exists []. symmetry. apply app_nil_r.
Qed.

Lemma logs_kept_trans (w1 w2 w3 : world) :
  logs_kept w1 w2 -> logs_kept w2 w3 -> logs_kept w1 w3.
Proof.
  intros [D1 [C1 [e1 T1]]] [D2 [C2 [e2 T2]]].
  split; [congruence|]. split; [congruence|].
  exists (e1 ++ e2)%list. rewrite T2, T1. symmetry. apply app_assoc.
Qed.

(** The create-wait always answers, and touches no log. *)
Lemma wait_till_create_run_answers (api : list event -> response) (self : resource)
    (w : world) :
  exists b w', wait_till_create_run api self w = Ok b w' /\ logs_kept w w'.
Proof.
  unfold wait_till_create_run, _wait_till_create.
  destruct (wait_loop_enough world (fetch_self api self) sleep_world 90 0 w)
    as [[w' r] Hr]; [lia | lia |].
  rewrite (Hr 90%nat (le_n 90)).
  assert (Hkept : logs_kept w w').
  { apply (R_wait_loop api false logs_kept (fun _ _ => True) (fun _ => True)
             logs_kept_refl logs_kept_trans) with (self := self) (fuel := 90%nat)
            (count := 0) (r := r).
    - intros ev _ w0. cbn. unfold logs_kept. cbn.
      split; [reflexivity|]. split; [reflexivity|]. exists [ev]. reflexivity.
    - intros; exact I.
    - intros; exact I.
    - apply Hr. apply le_n. }
  destruct r as [b|e]; eexists; eexists; (split; [reflexivity | exact Hkept]).
Qed.

Lemma read_logs_kept (logs : list_ref) (w w' : world) :
  logs_kept w w' -> read_logs logs w' = read_logs logs w.
Proof.
  intros [D [C _]]. destruct logs; assumption.
Qed.

(** X12. Creation is all or nothing for the log.  Outside check mode,
    for a node with a string id and no existing resource, the present
    step issues the [PATCH] with the desired parameters first, and then
    either returns normally having appended exactly one record, marked
    changed, or leaves through [fail_json] with the log as it was: an
    error of the manager on the [PATCH] and a negative answer of the
    create-wait are both fatal, no exception escapes, and no record is
    appended for a failed creation. *)
Theorem create_appends_or_fails (api : list event -> response) (self : resource)
    (logs : list_ref) (w : world) (s : string)
    (Hid : self_id self = VStr s)
    (Hnone : truthy (self_existing_resource self) = false) :
  let patch :=
    EvRequest (get_resource_base_url (self_class self) (parent_info_ids w) ++ "/" ++ s)
              "PATCH" (Some (self_resource_params self)) true in
  match _achieve_present_state api false self logs w with
  | Ok _ w' =>
      (exists evs, trace w' = (trace w ++ patch :: evs)%list) /\
      exists r, read_logs logs w' = (read_logs logs w ++ [r])%list /\
                log_changed r = true /\ log_id r = Some (self_id self)
  | Exit (FailJson _ (Some l)) w' =>
      (exists evs, trace w' = (trace w ++ patch :: evs)%list) /\
      l = read_logs logs w /\ read_logs logs w' = read_logs logs w
  | _ => False
  end.
Proof.
  intros patch. unfold _achieve_present_state.
  rewrite (check_for_update_falsy _ _ Hnone).
  rewrite (seq_ok _ _ (lift (Ret false)) _ w w false eq_refl).
  cbn [negb]. unfold try_except. rewrite Hnone, Hid.
  rewrite (seq_ok _ _ (lift (slash (VStr s))) _ w w ("/" ++ s) eq_refl).
  set (w1 := {| trace := (trace w ++ [patch])%list; default_logs := default_logs w;
                caller_logs := caller_logs w; parent_info_ids := parent_info_ids w;
                parent_info_parent := parent_info_parent w |}).
  assert (Hlogs1 : read_logs logs w1 = read_logs logs w) by (destruct logs; reflexivity).
  assert (Hsend : _send_request_to_API api (self_class self) ("/" ++ s) true "PATCH"
                    (Some (self_resource_params self)) w =
                  match api (trace w1) with
                  | Raises e => Raise e w1
                  | Returns rc resp => Ok (rc, resp) w1
                  end) by reflexivity.
  destruct (api (trace w1)) as [e|rc resp].
  - unfold seq at 1. rewrite Hsend. cbn.
    split; [exists []; reflexivity|]. split; [exact Hlogs1 | exact Hlogs1].
  - rewrite (seq_ok _ _ _ _ _ _ _ Hsend).
    assert (Hwait : exists b w2,
              (if do_wait_till_create (self_class self)
               then wait_till_create_run api self else ret true) w1 = Ok b w2 /\
              logs_kept w1 w2).
    { destruct (do_wait_till_create (self_class self)).
      - apply wait_till_create_run_answers.
      - exists true, w1. split; [reflexivity | apply logs_kept_refl]. }
    destruct Hwait as [b [w2 [Hrun Hkept]]].
    rewrite (seq_ok _ _ _ _ _ _ _ Hrun).
    assert (Hlogs2 : read_logs logs w2 = read_logs logs w)
      by (rewrite (read_logs_kept logs w1 w2 Hkept); exact Hlogs1).
    assert (Htrace : exists evs, trace w2 = (trace w ++ patch :: evs)%list).
    { destruct Hkept as [_ [_ [evs Hevs]]]. exists evs. rewrite Hevs. unfold w1.
      cbn [trace]. rewrite <- app_assoc. reflexivity. }
    destruct b; cbn.
    + destruct logs; cbn; (split; [exact Htrace|]); eexists;
        (split; [cbn in Hlogs2; rewrite Hlogs2; reflexivity | split; reflexivity]).
    + split; [exact Htrace|]. split; [exact Hlogs2 | exact Hlogs2].
Qed.

Lemma create_appends_or_fails_witness :
  let self := {| self_class := lone_segment; self_state := VStr "present";
                 self_id := VStr "seg1";
                 self_resource_params := VDict [("display_name", VStr "web")];
                 self_existing_resource := VNone |} in
  self_id self = VStr "seg1" /\
  truthy (self_existing_resource self) = false /\
  match _achieve_present_state (manager_until 0) false self DefaultLogs initial_world with
  | Exit (FailJson _ (Some l)) w' =>
      (exists evs,
         trace w' =
           (trace initial_world ++
            EvRequest "/infra/segments/seg1" "PATCH"
              (Some (VDict [("display_name", VStr "web")])) true :: evs)%list) /\
      l = [] /\ read_logs DefaultLogs w' = []
  | _ => False
  end.
Proof.
  intros self. split; [reflexivity|]. split; [reflexivity|].
  exact (create_appends_or_fails (manager_until 0) self DefaultLogs initial_world "seg1"
           eq_refl eq_refl).
Defined.

(** What [resolve_existing] hands over when it found a resource: the
    fetched body, and the desired parameters back-filled from it. *)
Lemma resolve_existing_found (api : list event -> response) (c : resource_class)
    (id rp existing filled : value) (w w1 : world) :
  resolve_existing api c id rp w = Ok (existing, filled) w1 ->
  truthy existing = true ->
  filled = fst (_fill_missing_resource_params existing rp).
Proof.
  unfold resolve_existing.
  match goal with |- seq ?c0 _ _ = _ -> _ => generalize c0 end.
  intros c0. unfold seq.
  destruct (c0 w) as [[body|] w0|r w0|e w0|]; try discriminate.
  - destruct (_fill_missing_resource_params body rp) as [f [e|]] eqn:Hfill; cbn;
      intros H Ht; inversion H; subst; try discriminate.
    rewrite Hfill. reflexivity.
  - cbn. intros H Ht; inversion H; subst; discriminate.
Qed.

(** X13. A node that already is as declared is left alone.  Outside
    check mode, when the manager holds the resource (a mapping with
    distinct keys) and [check_for_update] finds no difference between
    it and the parameters the user gave, the present step that follows
    the fetch and the back-fill issues no request and appends exactly
    one record, not marked changed: what the back-fill copied does not
    turn the node into an update. *)
Theorem present_state_noop (api : list event -> response) (c : resource_class)
    (state id rp existing filled : value) (logs : list_ref) (w w1 : world)
    (Hresolved : resolve_existing api c id rp w = Ok (existing, filled) w1)
    (Hwf : well_formed existing)
    (Hfound : truthy existing = true)
    (Hsame : check_for_update existing rp = Ret false) :
  exists r,
    _achieve_present_state api false
      {| self_class := c; self_state := state; self_id := id;
         self_resource_params := filled; self_existing_resource := existing |}
      logs w1 = append logs r w1 /\
    log_changed r = false /\ log_id r = Some id.
Proof.
  pose proof (resolve_existing_found api c id rp existing filled w w1 Hresolved Hfound)
    as Hfilled.
  unfold _achieve_present_state. cbn [self_existing_resource self_resource_params].
  rewrite Hfilled, (fill_same_check existing Hwf rp), Hsame.
  rewrite (seq_ok _ _ (lift (Ret false)) _ w1 w1 false eq_refl).
  cbn [negb]. unfold try_except. rewrite Hfound.
  eexists. split; [destruct logs; reflexivity | split; reflexivity].
Qed.

Lemma present_state_noop_witness :
  let existing :=
    VDict [("id", VStr "seg1"); ("display_name", VStr "old"); ("_revision", VInt 3)] in
  let filled :=
    VDict [("display_name", VStr "old"); ("id", VStr "seg1"); ("_revision", VInt 3)] in
  let w1 := {| trace := [EvRequest "/infra/segments/seg1" "GET" None false];
               default_logs := []; caller_logs := [];
               parent_info_ids := []; parent_info_parent := None |} in
  resolve_existing (manager lone_segment_remote) lone_segment (VStr "seg1")
    (VDict [("display_name", VStr "old")]) initial_world = Ok (existing, filled) w1 /\
  truthy existing = true /\
  check_for_update existing (VDict [("display_name", VStr "old")]) = Ret false /\
  exists r,
    _achieve_present_state (manager lone_segment_remote) false
      {| self_class := lone_segment; self_state := VStr "present"; self_id := VStr "seg1";
         self_resource_params := filled; self_existing_resource := existing |}
      DefaultLogs w1 = append DefaultLogs r w1 /\
    log_changed r = false /\ log_id r = Some (VStr "seg1").
Proof.
  intros existing filled w1.
  assert (Hwf : well_formed existing).
  { repeat first [ apply wf_dict | apply wf_str | apply wf_int
                 | apply Forall_cons | apply Forall_nil
                 | apply NoDup_nil
                 | (apply NoDup_cons; [simpl; intuition discriminate|]) ]. }
  split; [reflexivity|]. split; [reflexivity|]. split; [reflexivity|].
  exact (present_state_noop (manager lone_segment_remote) lone_segment (VStr "present")
           (VStr "seg1") (VDict [("display_name", VStr "old")]) existing filled
           DefaultLogs initial_world w1 eq_refl Hwf eq_refl eq_refl).
Defined.

(** X14. An update always carries the revision of the existing
    resource.  Outside check mode, when [check_for_update] asks for an
    update of a mapping of desired parameters: if the existing resource
    has no [_revision], the step raises and issues no request; if it
    has one and the id is a string, the one request issued is a [PATCH]
    whose body is the desired parameters with [_revision] set to the
    existing revision, and the step then either appends one record,
    marked changed, or leaves through [fail_json] with the log as it
    was. *)
Theorem update_carries_revision (api : list event -> response) (self : resource)
    (logs : list_ref) (w : world) (d : dict) (s : string)
    (Hupdate : check_for_update (self_existing_resource self) (self_resource_params self)
               = Ret true)
    (Hparams : self_resource_params self = VDict d)
    (Hid : self_id self = VStr s) :
  match py_getitem (self_existing_resource self) "_revision" with
  | Exc e => _achieve_present_state api false self logs w = Raise e w
  | Ret revision =>
      let patch :=
        EvRequest (get_resource_base_url (self_class self) (parent_info_ids w) ++ "/" ++ s)
                  "PATCH" (Some (VDict (dict_set "_revision" revision d))) true in
      match _achieve_present_state api false self logs w with
      | Ok _ w' =>
          trace w' = (trace w ++ [patch])%list /\
          exists r, read_logs logs w' = (read_logs logs w ++ [r])%list /\
                    log_changed r = true /\ log_id r = Some (self_id self)
      | Exit (FailJson _ (Some l)) w' =>
          trace w' = (trace w ++ [patch])%list /\
          l = read_logs logs w /\ read_logs logs w' = read_logs logs w
      | _ => False
      end
  end.
Proof.
  unfold _achieve_present_state. rewrite Hupdate.
  rewrite (seq_ok _ _ (lift (Ret true)) _ w w true eq_refl). cbn [negb].
  destruct (py_getitem (self_existing_resource self) "_revision") as [revision|e];
    [|reflexivity].
  cbv zeta.
  set (patch :=
         EvRequest (get_resource_base_url (self_class self) (parent_info_ids w) ++ "/" ++ s)
                   "PATCH" (Some (VDict (dict_set "_revision" revision d))) true).
  rewrite (seq_ok _ _ (lift (Ret revision)) _ w w revision eq_refl).
  rewrite Hparams. cbn [py_setitem].
  rewrite (seq_ok _ _ (lift (Ret (VDict (dict_set "_revision" revision d)))) _ w w
             (VDict (dict_set "_revision" revision d)) eq_refl).
  unfold try_except. rewrite Hid.
  rewrite (seq_ok _ _ (lift (slash (VStr s))) _ w w ("/" ++ s) eq_refl).
  set (w1 := {| trace := (trace w ++ [patch])%list; default_logs := default_logs w;
                caller_logs := caller_logs w; parent_info_ids := parent_info_ids w;
                parent_info_parent := parent_info_parent w |}).
  assert (Hlogs1 : read_logs logs w1 = read_logs logs w) by (destruct logs; reflexivity).
  assert (Hsend : _send_request_to_API api (self_class self) ("/" ++ s) true "PATCH"
                    (Some (VDict (dict_set "_revision" revision d))) w =
                  match api (trace w1) with
                  | Raises e => Raise e w1
                  | Returns rc resp => Ok (rc, resp) w1
                  end) by reflexivity.
  destruct (api (trace w1)) as [e|rc resp].
  - unfold seq at 1. rewrite Hsend. cbn.
    split; [reflexivity|]. split; [exact Hlogs1 | exact Hlogs1].
  - rewrite (seq_ok _ _ _ _ _ _ _ Hsend).
    destruct logs; cbn; (split; [reflexivity|]); eexists;
      (split; [reflexivity | split; reflexivity]).
Qed.

Lemma update_carries_revision_witness :
  let self :=
    {| self_class := lone_segment; self_state := VStr "present"; self_id := VStr "seg1";
       self_resource_params := VDict [("display_name", VStr "web")];
       self_existing_resource :=
         VDict [("display_name", VStr "old"); ("_revision", VInt 3)] |} in
  check_for_update (self_existing_resource self) (self_resource_params self) = Ret true /\
  match _achieve_present_state (manager []) false self DefaultLogs initial_world with
  | Ok _ w' =>
      trace w' =
        [EvRequest "/infra/segments/seg1" "PATCH"
           (Some (VDict [("display_name", VStr "web"); ("_revision", VInt 3)])) true] /\
      exists r, read_logs DefaultLogs w' = [r] /\
                log_changed r = true /\ log_id r = Some (VStr "seg1")
  | _ => False
  end.
Proof.
  intros self. split; [reflexivity|].
  exact (update_carries_revision (manager []) self DefaultLogs initial_world
           [("display_name", VStr "web")] "seg1" eq_refl eq_refl eq_refl).
Defined.

(** ** The argument spec *)

Lemma dict_has_set_iff (k k' : string) (v : value) (d : dict) :
  dict_has k (dict_set k' v d) = String.eqb k k' || dict_has k d.
Proof.
  unfold dict_has. destruct (String.eqb k k') eqn:E.
  - apply String.eqb_eq in E; subst k'. rewrite dict_get_set_same. reflexivity.
  - apply String.eqb_neq in E. rewrite dict_get_set_other by exact E. reflexivity.
Qed.

Lemma dict_set_new_app (k : string) (v : value) (d : dict) :
  ~ In k (keys d) -> dict_set k v d = (d ++ [(k, v)])%list.
Proof.
  induction d as [|[k0 v0] d IH]; intros Hk; [reflexivity|].
  simpl in *. destruct (String.eqb k k0) eqn:E.
  - apply String.eqb_eq in E. exfalso. apply Hk. left. symmetry. exact E.
  - rewrite IH; [reflexivity|]. intros H. apply Hk. right. exact H.
Qed.

(** Setting, one after the other, the renamed items of a mapping whose
    renamed keys are distinct and new appends the renamed items. *)
Lemma fold_set_renamed (rename : string -> string) (items : dict) :
  forall acc,
  NoDup (keys acc ++ map rename (keys items)) ->
  fold_left (fun (a : dict) (item : string * value) =>
               dict_set (rename (fst item)) (snd item) a) items acc =
  (acc ++ map (fun item => (rename (fst item), snd item)) items)%list.
Proof.
  induction items as [|[k v] items IH]; intros acc Hnd; simpl.
  - symmetry. apply app_nil_r.
  - simpl in Hnd.
    assert (Hk : ~ In (rename k) (keys acc)).
    { intros Hin. apply NoDup_remove_2 in Hnd. apply Hnd.
      apply in_or_app. left. exact Hin. }
    rewrite (dict_set_new_app _ _ _ Hk). rewrite IH.
    + rewrite <- app_assoc. reflexivity.
    + unfold keys in *. rewrite map_app. simpl. rewrite <- app_assoc. simpl.
      apply NoDup_Add with (a := rename k) (l := (map fst acc ++ map rename (map fst items))%list).
      * apply Add_app.
      * split; [apply NoDup_remove_1 in Hnd; exact Hnd
               | apply NoDup_remove_2 in Hnd; exact Hnd].
Qed.

Lemma dict_update_nil (d : dict) : NoDup (keys d) -> dict_update [] d = d.
Proof.
  intros Hnd. unfold dict_update.
  rewrite (fold_set_renamed (fun k => k) d []).
  - simpl. rewrite <- (map_id d) at 2. apply map_ext. intros [k v]. reflexivity.
  - simpl. rewrite map_id. exact Hnd.
Qed.

Lemma NoDup_map_injective (f : string -> string) (l : list string) :
  (forall a b, f a = f b -> a = b) -> NoDup l -> NoDup (map f l).
Proof.
  intros Hinj. induction 1 as [|k l Hk Hl IH]; simpl; constructor; [|exact IH].
  intros Hin. apply in_map_iff in Hin. destruct Hin as [k' [Heq Hk']].
  apply Hinj in Heq. subst k'. contradiction.
Qed.

Lemma dict_get_renamed (rename : string -> string) (k : string) (d : dict) :
  (forall a b, rename a = rename b -> a = b) ->
  dict_get (rename k) (map (fun item : string * value => (rename (fst item), snd item)) d) =
  dict_get k d.
Proof.
  intros Hinj. induction d as [|[k0 v0] d IH]; [reflexivity|]. simpl.
  destruct (String.eqb k k0) eqn:E.
  - apply String.eqb_eq in E; subst k0. rewrite String.eqb_refl. reflexivity.
  - assert (E' : String.eqb (rename k) (rename k0) = false).
    { apply String.eqb_neq. intros H. apply Hinj in H.
      apply String.eqb_neq in E. contradiction. }
    rewrite E'. exact IH.
Qed.

Lemma prefixed_injective (uid a b : string) :
  uid ++ "_" ++ a = uid ++ "_" ++ b -> a = b.
Proof.
  intros H. apply append_inj_l in H. apply (append_inj_l "_") in H. exact H.
Qed.

Lemma dict_has_cons (k k0 : string) (v0 : value) (d : dict) :
  dict_has k ((k0, v0) :: d) = String.eqb k k0 || dict_has k d.
Proof.
  unfold dict_has. simpl. destruct (String.eqb k k0); reflexivity.
Qed.

Lemma dict_has_update (k : string) (other : dict) :
  forall d, dict_has k (dict_update d other) = dict_has k d || dict_has k other.
Proof.
  unfold dict_update.
  induction other as [|[k0 v0] other IH]; intros d; simpl.
  - rewrite orb_false_r. reflexivity.
  - rewrite IH, dict_has_set_iff, dict_has_cons.
    destruct (String.eqb k k0), (dict_has k d), (dict_has k other); reflexivity.
Qed.

Lemma dict_has_fold_renamed (rename : string -> string) (k : string) (items : dict) :
  forall acc,
  dict_has k (fold_left (fun (a : dict) (item : string * value) =>
                           dict_set (rename (fst item)) (snd item) a) items acc) =
  dict_has k acc || existsb (fun item => String.eqb k (rename (fst item))) items.
Proof.
  induction items as [|[k0 v0] items IH]; intros acc; simpl.
  - rewrite orb_false_r. reflexivity.
  - rewrite IH, dict_has_set_iff.
    destruct (String.eqb k (rename k0)), (dict_has k acc); reflexivity.
Qed.

Lemma existsb_renamed (rename : string -> string) (key : string) (d : dict) :
  (forall a b, rename a = rename b -> a = b) ->
  existsb (fun item : string * value => String.eqb (rename key) (rename (fst item))) d =
  dict_has key d.
Proof.
  intros Hinj. induction d as [|[k0 v0] d IH]; [reflexivity|].
  simpl. rewrite dict_has_cons, IH. f_equal.
  destruct (String.eqb key k0) eqn:E.
  - apply String.eqb_eq in E; subst k0. apply String.eqb_refl.
  - apply String.eqb_neq. intros H. apply Hinj in H. apply String.eqb_neq in E.
    contradiction.
Qed.

Section ArgSpecFacts.
Variable resource_spec : resource_class -> dict.
Variable class_name : resource_class -> string.
Variable class_unique_arg_identifier : resource_class -> result string.

(** While the hook answers on the class, the loop sets the items under
    their prefixed keys. *)
Lemma rename_items_ret (c : resource_class) (uid : string) :
  class_unique_arg_identifier c = Ret uid ->
  forall (items acc : dict),
  fold_left
    (fun (arg_spec : result dict) (item : string * value) =>
       arg_spec <- arg_spec ;;
       unique_arg_identifier <- class_unique_arg_identifier c ;;
       Ret (dict_set (unique_arg_identifier ++ "_" ++ fst item) (snd item) arg_spec))
    items (Ret acc) =
  Ret (fold_left
         (fun (a : dict) (item : string * value) =>
            dict_set (uid ++ "_" ++ fst item) (snd item) a) items acc).
Proof.
  intros Hhook.
  set (step := fun (arg_spec : result dict) (item : string * value) =>
                 arg_spec <- arg_spec ;;
                 unique_arg_identifier <- class_unique_arg_identifier c ;;
                 Ret (dict_set (unique_arg_identifier ++ "_" ++ fst item) (snd item)
                        arg_spec)).
  assert (Hstep : forall acc item,
            step (Ret acc) item = Ret (dict_set (uid ++ "_" ++ fst item) (snd item) acc))
    by (intros acc item; unfold step; cbn [bind]; rewrite Hhook; reflexivity).
  induction items as [|item items IH]; intros acc; [reflexivity|].
  cbn [fold_left]. rewrite Hstep. apply IH.
Qed.

(** An exception of the hook ends the loop at its first item. *)
Lemma rename_items_exc (c : resource_class) (e : exn) (items : dict) :
  fold_left
    (fun (arg_spec : result dict) (item : string * value) =>
       arg_spec <- arg_spec ;;
       unique_arg_identifier <- class_unique_arg_identifier c ;;
       Ret (dict_set (unique_arg_identifier ++ "_" ++ fst item) (snd item) arg_spec))
    items (Exc e) = Exc e.
Proof.
  induction items as [|item items IH]; [reflexivity|]. simpl. exact IH.
Qed.

Lemma rename_raises (c : resource_class) (e : exn) (spec : dict) :
  named_base class_name c = false ->
  class_unique_arg_identifier c = Exc e ->
  spec <> [] ->
  _update_resource_arg_spec_with_arg_identifier class_name class_unique_arg_identifier
    spec (Some c) = Exc e.
Proof.
  intros Hb Hhook Hspec. unfold _update_resource_arg_spec_with_arg_identifier.
  rewrite Hb. destruct spec as [|item items]; [contradiction|].
  cbn [fold_left bind]. rewrite Hhook at 1. cbn [bind].
  rewrite rename_items_exc. reflexivity.
Qed.

Lemma rename_returns (c : resource_class) (uid : string) (spec : dict) :
  named_base class_name c = false ->
  class_unique_arg_identifier c = Ret uid ->
  _update_resource_arg_spec_with_arg_identifier class_name class_unique_arg_identifier
    spec (Some c) =
    Ret (dict_update []
           (fold_left
              (fun (a : dict) (item : string * value) =>
                 dict_set (uid ++ "_" ++ fst item) (snd item) a) spec [])).
Proof.
  intros Hb Hhook. unfold _update_resource_arg_spec_with_arg_identifier.
  rewrite Hb, (rename_items_ret c uid Hhook). reflexivity.
Qed.

Lemma base_spec_merged_not_empty (other : dict) :
  dict_update _get_base_arg_spec_of_resource other <> [].
Proof.
  intros H.
  assert (Hid : dict_has "id" (dict_update _get_base_arg_spec_of_resource other) = true)
    by (rewrite dict_has_update; reflexivity).
  rewrite H in Hid. discriminate Hid.
Qed.

(** One class merged into the spec: the call returns exactly when the
    class is named in [BASE_RESOURCES] or answers the hook. *)
Lemma update_arg_spec_with_resource_result (a : dict) (c : resource_class) :
  (forall c', keys (resource_spec c') = get_resource_spec c') ->
  match _update_arg_spec_with_resource resource_spec class_name
          class_unique_arg_identifier a c with
  | Ret out =>
      (named_base class_name c = false ->
       exists uid, class_unique_arg_identifier c = Ret uid) /\
      (forall k, dict_has k a = true -> dict_has k out = true) /\
      (answers_as_instance class_name class_unique_arg_identifier c ->
       forall key,
         In key (get_resource_spec c) \/ In key base_arg_spec_keys ->
         dict_has (arg_key c key) out = true)
  | Exc e => named_base class_name c = false /\ class_unique_arg_identifier c = Exc e
  end.
Proof.
  intros Hspec. unfold _update_arg_spec_with_resource.
  assert (Hin : forall key,
            In key (get_resource_spec c) \/ In key base_arg_spec_keys ->
            dict_has key
              (dict_update _get_base_arg_spec_of_resource (resource_spec c)) = true).
  { intros key [H|H]; rewrite dict_has_update.
    - rewrite <- Hspec in H. apply dict_has_keys in H. rewrite H. apply orb_true_r.
    - assert (Hb : dict_has key _get_base_arg_spec_of_resource = true)
        by (apply dict_has_keys; exact H).
      rewrite Hb. reflexivity. }
  destruct (named_base class_name c) eqn:Hb.
  - unfold _update_resource_arg_spec_with_arg_identifier. rewrite Hb. cbn [bind].
    split; [discriminate|]. split.
    + intros k Hk. rewrite dict_has_update, Hk. reflexivity.
    + intros [Hname _] key Hkey. unfold arg_key. rewrite <- Hname, Hb.
      rewrite dict_has_update, (Hin key Hkey). apply orb_true_r.
  - destruct (class_unique_arg_identifier c) as [uid|e] eqn:Hhook.
    + rewrite (rename_returns c uid _ Hb Hhook). cbn [bind].
      split; [intros _; exists uid; reflexivity|]. split.
      * intros k Hk. rewrite dict_has_update, Hk. reflexivity.
      * intros [Hname Hsame] key Hkey. unfold arg_key. rewrite <- Hname, Hb.
        rewrite <- Hname in Hsame. specialize (Hsame Hb).
        assert (Huid : uid = get_unique_arg_identifier c) by congruence.
        subst uid.
        rewrite dict_has_update, dict_has_update.
        rewrite (dict_has_fold_renamed (fun k => get_unique_arg_identifier c ++ "_" ++ k)).
        rewrite (existsb_renamed (fun k => get_unique_arg_identifier c ++ "_" ++ k) key _
                   (prefixed_injective (get_unique_arg_identifier c))).
        rewrite (Hin key Hkey). cbn [dict_has dict_get orb]. apply orb_true_r.
    + rewrite (rename_raises c e _ Hb Hhook (base_spec_merged_not_empty _)).
      cbn [bind]. split; reflexivity.
Qed.

Lemma fold_all_resources_raised (fuel : nat) (state : option value) (e : exn)
    (l : list resource_class) :
  fold_left
    (fun (acc : option (result dict)) (s : resource_class) =>
       match acc with
       | Some (Ret x) =>
           _update_arg_spec_with_all_resources resource_spec class_name
             class_unique_arg_identifier fuel state x s
       | other => other
       end) l (Some (Exc e)) = Some (Exc e).
Proof.
  induction l as [|s l IH]; [reflexivity|]. simpl. exact IH.
Qed.

(** The whole tree merged into the spec. *)
Lemma update_arg_spec_with_all_resources_result (fuel : nat) (state : option value) :
  (forall c', keys (resource_spec c') = get_resource_spec c') ->
  forall (a : dict) (c : resource_class),
  (class_depth c <= fuel)%nat ->
  exists r,
    _update_arg_spec_with_all_resources resource_spec class_name
      class_unique_arg_identifier fuel state a c = Some r /\
    match r with
    | Ret out =>
        (forall d, in_tree d c -> named_base class_name d = false ->
           exists uid, class_unique_arg_identifier d = Ret uid) /\
        (forall k, dict_has k a = true -> dict_has k out = true) /\
        (forall d key, in_tree d c ->
           answers_as_instance class_name class_unique_arg_identifier d ->
           In key (get_resource_spec d) \/ In key base_arg_spec_keys ->
           dict_has (arg_key d key) out = true)
    | Exc e =>
        exists d, in_tree d c /\ named_base class_name d = false /\
                  class_unique_arg_identifier d = Exc e
    end.
Proof.
  intros Hspec.
  induction fuel as [|fuel IH]; intros a c Hdepth.
  - destruct c; simpl in Hdepth; lia.
  - cbn [_update_arg_spec_with_all_resources].
    assert (Hsubs : forall s, In s (_get_sub_resources_class_of state c) ->
                              (class_depth s <= fuel)%nat).
    { intros s Hs. apply get_sub_resources_in in Hs.
      pose proof (class_depth_sub c s Hs). lia. }
    assert (Hall : forall s, In s (sub_resources c) ->
                             In s (_get_sub_resources_class_of state c)).
    { intros s Hs. eapply Permutation_in; [|exact Hs]. apply Permutation_sym.
      unfold _get_sub_resources_class_of.
      destruct state as [st|]; [destruct (py_eq st (VStr "present"))|];
        apply stable_sort_perm. }
    assert (Hfold : forall l acc,
              (forall s, In s l -> (class_depth s <= fuel)%nat) ->
              exists r,
                fold_left
                  (fun (o : option (result dict)) (s : resource_class) =>
                     match o with
                     | Some (Ret x) =>
                         _update_arg_spec_with_all_resources resource_spec class_name
                           class_unique_arg_identifier fuel state x s
                     | other => other
                     end) l (Some (Ret acc)) = Some r /\
                match r with
                | Ret out =>
                    (forall s d, In s l -> in_tree d s ->
                       named_base class_name d = false ->
                       exists uid, class_unique_arg_identifier d = Ret uid) /\
                    (forall k, dict_has k acc = true -> dict_has k out = true) /\
                    (forall s d key, In s l -> in_tree d s ->
                       answers_as_instance class_name class_unique_arg_identifier d ->
                       In key (get_resource_spec d) \/ In key base_arg_spec_keys ->
                       dict_has (arg_key d key) out = true)
                | Exc e =>
                    exists s d, In s l /\ in_tree d s /\
                                named_base class_name d = false /\
                                class_unique_arg_identifier d = Exc e
                end).
    { induction l as [|s l IHl]; intros acc Hl.
      - exists (Ret acc). split; [reflexivity|]. split; [intros s d []|].
        split; [auto|]. intros s d key [].
      - destruct (IH acc s (Hl s (or_introl eq_refl))) as [r1 [Hr1 Hres1]].
        simpl. rewrite Hr1. destruct r1 as [o1|e1].
        + destruct Hres1 as [Hhook1 [Hmono1 Hcov1]].
          destruct (IHl o1 (fun s' Hs' => Hl s' (or_intror Hs'))) as [r2 [Hr2 Hres2]].
          exists r2. split; [exact Hr2|]. destruct r2 as [o2|e2].
          * destruct Hres2 as [Hhook2 [Hmono2 Hcov2]]. split; [|split].
            -- intros s' d [<-|Hs'] Hd Hb;
                 [apply (Hhook1 d Hd Hb) | apply (Hhook2 s' d Hs' Hd Hb)].
            -- intros k Hk. apply Hmono2, Hmono1, Hk.
            -- intros s' d key [<-|Hs'] Hd Hans Hkey.
               ++ apply Hmono2. apply (Hcov1 d key Hd Hans Hkey).
               ++ apply (Hcov2 s' d key Hs' Hd Hans Hkey).
          * destruct Hres2 as [s' [d [Hs' Hrest]]].
            exists s', d. split; [right; exact Hs' | exact Hrest].
        + exists (Exc e1). split; [apply fold_all_resources_raised|].
          destruct Hres1 as [d Hrest]. exists s, d. split; [left; reflexivity | exact Hrest]. }
    pose proof (update_arg_spec_with_resource_result a c Hspec) as Hone.
    destruct (_update_arg_spec_with_resource resource_spec class_name
                class_unique_arg_identifier a c) as [a1|e].
    + destruct Hone as [Hhook [Hmono0 Hcov0]].
      destruct (Hfold (_get_sub_resources_class_of state c) a1 Hsubs) as [r [Hr Hres]].
      exists r. split; [exact Hr|]. destruct r as [out|e].
      * destruct Hres as [Hhooks [Hmono Hcov]]. split; [|split].
        -- intros d Hd Hb. inversion Hd as [|d' s c' Hs Hds]; subst.
           ++ apply (Hhook Hb).
           ++ apply (Hhooks s d (Hall s Hs) Hds Hb).
        -- intros k Hk. apply Hmono, Hmono0, Hk.
        -- intros d key Hd Hans Hkey. inversion Hd as [|d' s c' Hs Hds]; subst.
           ++ apply Hmono. apply (Hcov0 Hans key Hkey).
           ++ apply (Hcov s d key (Hall s Hs) Hds Hans Hkey).
      * destruct Hres as [s [d [Hs [Hd Hrest]]]]. exists d. split; [|exact Hrest].
        apply (in_tree_sub d s c); [apply (get_sub_resources_in state c s Hs) | exact Hd].
    + exists (Exc e). split; [apply fold_all_resources_raised|].
      exists c. split; [apply in_tree_self | exact Hone].
Qed.
End ArgSpecFacts.

(** X15. Renaming the arguments of a sub-resource.  The hook that
    gives the prefix is called on the class.  For a class named outside
    [BASE_RESOURCES] whose hook answers on the class, and an argument
    spec with distinct keys,
    [_update_resource_arg_spec_with_arg_identifier] leaves the entries
    in their order, each under its key prefixed by the answer and an
    underscore, so nothing is lost or mixed; when the class answers as
    its instances do, the entry found under the name the engine later
    reads for a key is the entry the spec had under that key.  For a
    class that keeps the hook of the base class, an instance method, the
    call on the class raises and so does the renaming of every spec that
    is not empty.  For a class named in [BASE_RESOURCES], and for no
    class, the spec is left as it is and the hook is not called. *)
Theorem arg_identifier_renames_in_place (class_name : resource_class -> string)
    (class_unique_arg_identifier : resource_class -> result string)
    (resource_arg_spec : dict) (c : resource_class)
    (Hkeys : NoDup (keys resource_arg_spec)) :
  let rename :=
    _update_resource_arg_spec_with_arg_identifier class_name class_unique_arg_identifier in
  (named_base class_name c = false ->
   forall uid, class_unique_arg_identifier c = Ret uid ->
   rename resource_arg_spec (Some c) =
     Ret (map (fun item => (uid ++ "_" ++ fst item, snd item)) resource_arg_spec) /\
   forall key,
     dict_get (uid ++ "_" ++ key)
       (map (fun item => (uid ++ "_" ++ fst item, snd item)) resource_arg_spec) =
     dict_get key resource_arg_spec) /\
  (answers_as_instance class_name class_unique_arg_identifier c ->
   exists out,
     rename resource_arg_spec (Some c) = Ret out /\
     forall key, dict_get (arg_key c key) out = dict_get key resource_arg_spec) /\
  (named_base class_name c = false ->
   forall e, class_unique_arg_identifier c = Exc e ->
   resource_arg_spec <> [] ->
   rename resource_arg_spec (Some c) = Exc e) /\
  (named_base class_name c = true ->
   rename resource_arg_spec (Some c) = Ret resource_arg_spec) /\
  rename resource_arg_spec None = Ret resource_arg_spec.
Proof.
  intros rename.
  assert (Hrename : named_base class_name c = false ->
            forall uid, class_unique_arg_identifier c = Ret uid ->
            rename resource_arg_spec (Some c) =
              Ret (map (fun item => (uid ++ "_" ++ fst item, snd item)) resource_arg_spec)).
  { intros Hb uid Hhook. unfold rename.
    rewrite (rename_returns class_name class_unique_arg_identifier c uid _ Hb Hhook).
    assert (Hnd : NoDup (map (fun k => uid ++ "_" ++ k) (keys resource_arg_spec)))
      by (apply NoDup_map_injective; [apply prefixed_injective | exact Hkeys]).
    rewrite (fold_set_renamed (fun k => uid ++ "_" ++ k) resource_arg_spec [])
      by exact Hnd.
    simpl. f_equal. apply dict_update_nil.
    unfold keys in *. rewrite map_map. rewrite map_map in Hnd. exact Hnd. }
  assert (Hbase : named_base class_name c = true ->
            rename resource_arg_spec (Some c) = Ret resource_arg_spec).
  { intros Hb. unfold rename, _update_resource_arg_spec_with_arg_identifier.
    rewrite Hb. reflexivity. }
  split; [|split; [|split; [|split]]].
  - intros Hb uid Hhook. split; [apply (Hrename Hb uid Hhook)|].
    intros key.
    apply (dict_get_renamed (fun k => uid ++ "_" ++ k) key resource_arg_spec
             (prefixed_injective uid)).
  - intros [Hname Hsame]. unfold arg_key. destruct (in_base c) eqn:Hb.
    + exists resource_arg_spec. split; [apply (Hbase Hname) | reflexivity].
    + eexists. split; [apply (Hrename Hname _ (Hsame eq_refl))|].
      intros key.
      apply (dict_get_renamed (fun k => get_unique_arg_identifier c ++ "_" ++ k) key
               resource_arg_spec (prefixed_injective (get_unique_arg_identifier c))).
  - intros Hb e Hhook Hne.
    apply (rename_raises class_name class_unique_arg_identifier c e _ Hb Hhook Hne).
  - exact Hbase.
  - reflexivity.
Qed.

Lemma arg_identifier_renames_in_place_witness :
  let port := sample_class "NSXTSegmentPort" 5 false "/infra/segments/seg1/ports" [] in
  NoDup (keys _get_base_arg_spec_of_resource) /\
  (exists out,
     _update_resource_arg_spec_with_arg_identifier get_resource_name static_hook
       _get_base_arg_spec_of_resource (Some port) = Ret out /\
     forall key, dict_get (arg_key port key) out =
                 dict_get key _get_base_arg_spec_of_resource) /\
  _update_resource_arg_spec_with_arg_identifier get_resource_name inherited_hook
    _get_base_arg_spec_of_resource (Some port) = Exc TypeError.
Proof.
  intros port.
  assert (H : NoDup (keys _get_base_arg_spec_of_resource)).
  { repeat first [ apply NoDup_nil
                 | (apply NoDup_cons; [simpl; intuition discriminate|]) ]. }
  split; [exact H|]. split.
  - apply (proj1 (proj2 (arg_identifier_renames_in_place get_resource_name static_hook
                           _get_base_arg_spec_of_resource port H))).
    split; [reflexivity | intros _; reflexivity].
  - apply (proj1 (proj2 (proj2 (arg_identifier_renames_in_place get_resource_name
                                  inherited_hook _get_base_arg_spec_of_resource port H))));
      [reflexivity | reflexivity | discriminate].
Defined.

(** X16. The merged argument spec.  Given fuel for the height of the
    tree, [_update_arg_spec_with_all_resources] either returns a merged
    spec or raises.  It raises exactly when some class of the tree, the
    root or a class nested at any depth, is named outside
    [BASE_RESOURCES] and raises when the hook is called on the class, as
    a class that keeps the hook of the base class does; the exception is
    the one of such a class.  When it returns, the spec keeps every name
    it was given and holds, for every class of the tree that answers as
    its instances do, every key of the class's own spec and of the base
    spec ([id], [display_name], [description], [tags], [state]) under
    the very name [_extract_resource_params] and [_getAttribute] read it
    from: the bare key for a class of [BASE_RESOURCES], the key prefixed
    by the unique argument identifier otherwise. *)
Theorem arg_spec_covers_tree (resource_spec : resource_class -> dict)
    (class_name : resource_class -> string)
    (class_unique_arg_identifier : resource_class -> result string)
    (fuel : nat) (state : option value) (_arg_spec : dict) (c : resource_class)
    (Hspec : forall c', keys (resource_spec c') = get_resource_spec c')
    (Hfuel : (class_depth c <= fuel)%nat) :
  exists r,
    _update_arg_spec_with_all_resources resource_spec class_name
      class_unique_arg_identifier fuel state _arg_spec c = Some r /\
    match r with
    | Ret out =>
        (forall d, in_tree d c -> named_base class_name d = false ->
           exists uid, class_unique_arg_identifier d = Ret uid) /\
        (forall k, dict_has k _arg_spec = true -> dict_has k out = true) /\
        (forall d key, in_tree d c ->
           answers_as_instance class_name class_unique_arg_identifier d ->
           In key (get_resource_spec d) \/ In key base_arg_spec_keys ->
           dict_has (arg_key d key) out = true)
    | Exc e =>
        exists d, in_tree d c /\ named_base class_name d = false /\
                  class_unique_arg_identifier d = Exc e
    end.
Proof.
  apply update_arg_spec_with_all_resources_result; assumption.
Qed.

Lemma sample_resource_spec_keys (c : resource_class) :
  keys (sample_resource_spec c) = get_resource_spec c.
Proof.
  unfold sample_resource_spec, keys. rewrite map_map. simpl. apply map_id.
Qed.

Lemma arg_spec_covers_tree_witness :
  (forall c', keys (sample_resource_spec c') = get_resource_spec c') /\
  (class_depth segment_with_port <= 2)%nat /\
  (exists out,
     _update_arg_spec_with_all_resources sample_resource_spec get_resource_name
       static_hook 2 None [] segment_with_port = Some (Ret out) /\
     forall d key, in_tree d segment_with_port ->
       In key (get_resource_spec d) \/ In key base_arg_spec_keys ->
       dict_has (arg_key d key) out = true) /\
  _update_arg_spec_with_all_resources sample_resource_spec get_resource_name
    inherited_hook 2 None [] segment_with_port = Some (Exc TypeError).
Proof.
  assert (H : (class_depth segment_with_port <= 2)%nat) by (apply Nat.leb_le; reflexivity).
  split; [exact sample_resource_spec_keys|]. split; [exact H|]. split.
  - destruct (arg_spec_covers_tree sample_resource_spec get_resource_name static_hook
                2 None [] segment_with_port sample_resource_spec_keys H)
      as [r [Hr Hres]].
    destruct r as [out|e].
    + exists out. split; [exact Hr|]. intros d key Hd Hkey.
      apply (proj2 (proj2 Hres) d key Hd); [|exact Hkey].
      split; [reflexivity | intros _; reflexivity].
    + exfalso. destruct Hres as [d [_ [_ Hd]]]. discriminate Hd.
  - reflexivity.
Defined.

(** ** Deletion, and what check mode reports *)

Lemma logs_kept_event (w : world) (ev : event) :
  logs_kept w {| trace := (trace w ++ [ev])%list; default_logs := default_logs w;
                 caller_logs := caller_logs w; parent_info_ids := parent_info_ids w;
                 parent_info_parent := parent_info_parent w |}.
Proof.
  unfold logs_kept. cbn. split; [reflexivity|]. split; [reflexivity|].
  exists [ev]. reflexivity.
Qed.

Lemma logs_kept_fetch_self (api : list event -> response) (self : resource) (w : world) :
  logs_kept w (fst (fetch_self api self w)).
Proof.
  unfold fetch_self, seq, lift, slash.
  destruct (self_id self); cbn; try apply logs_kept_refl.
  unfold _send_request_to_API. cbn.
  destruct (api _); cbn; apply logs_kept_event.
Qed.

Lemma logs_kept_delete_round (api : list event -> response) (self : resource) (w : world) :
  logs_kept w (delete_round api self w).
Proof.
  unfold delete_round. eapply logs_kept_trans; [apply logs_kept_fetch_self|].
  unfold sleep_world. cbn. apply logs_kept_event.
Qed.

(** The delete wait returns normally or leaves through the
    duplicate-request [fail_json]; it raises nothing and touches no log. *)
Lemma wait_till_delete_outcome (api : list event -> response) (fuel : nat)
    (self : resource) :
  forall w,
  match _wait_till_delete api fuel self w with
  | Ok _ w' => logs_kept w w'
  | Exit r w' => r = FailJson ("Duplicate request", []) None /\ logs_kept w w'
  | Raise _ _ => False
  | OutOfFuel => True
  end.
Proof.
  induction fuel as [|fuel IH]; intros w; [exact I|].
  rewrite wait_till_delete_turn.
  pose proof (logs_kept_fetch_self api self w) as Hf.
  destruct (snd (fetch_self api self w)) as [e|rc resp].
  - destruct e; first [exact Hf | split; [reflexivity | exact Hf]].
  - specialize (IH (delete_round api self w)).
    pose proof (logs_kept_delete_round api self w) as Hr.
    destruct (_wait_till_delete api fuel self (delete_round api self w));
      first [ exact IH
            | eapply logs_kept_trans; [exact Hr | exact IH]
            | destruct IH as [IH1 IH2]; split;
              [exact IH1 | eapply logs_kept_trans; [exact Hr | exact IH2]] ].
Qed.

(** X17. Deletion is all or nothing for the log.  Outside check mode,
    for a node with a string id whose existing resource is not [None],
    the absent step issues the [DELETE] first and waits for the resource
    to go.  If it returns, it has appended exactly one record, marked
    changed.  Otherwise it leaves through [fail_json] with the log as it
    was, reporting that log, or no log at all for a duplicate request.
    No exception escapes; the step may wait without end. *)
Theorem delete_appends_or_fails (api : list event -> response) (fuel : nat)
    (self : resource) (logs : list_ref) (w : world) (s : string)
    (Hid : self_id self = VStr s)
    (Hexists : py_is_none (self_existing_resource self) = false) :
  let delete :=
    EvRequest (get_resource_base_url (self_class self) (parent_info_ids w) ++ "/" ++ s)
              "DELETE" None true in
  match _achieve_absent_state api false fuel self logs w with
  | Ok _ w' =>
      (exists evs, trace w' = (trace w ++ delete :: evs)%list) /\
      exists r, read_logs logs w' = (read_logs logs w ++ [r])%list /\
                log_changed r = true /\ log_id r = Some (self_id self)
  | Exit (FailJson _ l) w' =>
      (exists evs, trace w' = (trace w ++ delete :: evs)%list) /\
      read_logs logs w' = read_logs logs w /\
      (l = None \/ l = Some (read_logs logs w))
  | Exit (ExitJson _) _ => False
  | Raise _ _ => False
  | OutOfFuel => True
  end.
Proof.
  intros delete. unfold _achieve_absent_state. rewrite Hexists.
  unfold try_except. rewrite Hid.
  rewrite (seq_ok _ _ (lift (slash (VStr s))) _ w w ("/" ++ s) eq_refl).
  set (w1 := {| trace := (trace w ++ [delete])%list; default_logs := default_logs w;
                caller_logs := caller_logs w; parent_info_ids := parent_info_ids w;
                parent_info_parent := parent_info_parent w |}).
  assert (Hlogs1 : read_logs logs w1 = read_logs logs w) by (destruct logs; reflexivity).
  assert (Hsend : _send_request_to_API api (self_class self) ("/" ++ s) true "DELETE"
                    None w =
                  match api (trace w1) with
                  | Raises e => Raise e w1
                  | Returns rc resp => Ok (rc, resp) w1
                  end) by reflexivity.
  destruct (api (trace w1)) as [e|rc resp].
  - unfold seq at 1. rewrite Hsend. cbn.
    split; [exists []; reflexivity|]. split; [exact Hlogs1|]. right. first [reflexivity | f_equal; exact Hlogs1].
  - rewrite (seq_ok _ _ _ _ _ _ _ Hsend).
    pose proof (wait_till_delete_outcome api fuel self w1) as Hwait.
    unfold seq at 1.
    destruct (_wait_till_delete api fuel self w1) as [u w2|r w2|e w2|];
      [| |contradiction|exact I].
    + assert (Hlogs2 : read_logs logs w2 = read_logs logs w)
        by (rewrite (read_logs_kept logs w1 w2 Hwait); exact Hlogs1).
      assert (Htrace : exists evs, trace w2 = (trace w ++ delete :: evs)%list).
      { destruct Hwait as [_ [_ [evs Hevs]]]. exists evs. rewrite Hevs. unfold w1.
        cbn [trace]. rewrite <- app_assoc. reflexivity. }
      destruct logs; cbn; (split; [exact Htrace|]); eexists;
        (split; [cbn in Hlogs2; rewrite Hlogs2; reflexivity | split; reflexivity]).
    + destruct Hwait as [-> Hkept].
      assert (Htrace : exists evs, trace w2 = (trace w ++ delete :: evs)%list).
      { destruct Hkept as [_ [_ [evs Hevs]]]. exists evs. rewrite Hevs. unfold w1.
        cbn [trace]. rewrite <- app_assoc. reflexivity. }
      split; [exact Htrace|]. split; [|left; reflexivity].
      rewrite (read_logs_kept logs w1 w2 Hkept). exact Hlogs1.
Qed.

Lemma delete_appends_or_fails_witness :
  self_id lone_segment_self = VStr "seg1" /\
  py_is_none (self_existing_resource lone_segment_self) = false /\
  match _achieve_absent_state (manager_until 2) false 3 lone_segment_self DefaultLogs
          initial_world with
  | Ok _ w' =>
      (exists evs,
         trace w' =
           (trace initial_world ++
            EvRequest "/infra/segments/seg1" "DELETE" None true :: evs)%list) /\
      exists r, read_logs DefaultLogs w' = (read_logs DefaultLogs initial_world ++ [r])%list /\
                log_changed r = true /\ log_id r = Some (VStr "seg1")
  | _ => False
  end.
Proof.
  split; [reflexivity|]. split; [reflexivity|].
  exact (delete_appends_or_fails (manager_until 2) 3 lone_segment_self DefaultLogs
           initial_world "seg1" eq_refl eq_refl).
Defined.

(** X18. Check mode reports a node that needs nothing as changed.  For
    a node that exists as declared and which a real run
    leaves alone with a record not marked changed, the present step in
    check mode appends a record marked changed, under the fixed id
    [12345], and issues no request. *)
Theorem check_mode_reports_noop_as_changed (api : list event -> response)
    (c : resource_class) (state id rp existing filled : value) (logs : list_ref)
    (w w1 : world)
    (Hresolved : resolve_existing api c id rp w = Ok (existing, filled) w1)
    (Hwf : well_formed existing)
    (Hfound : truthy existing = true)
    (Hsame : check_for_update existing rp = Ret false) :
  exists r,
    _achieve_present_state api true
      {| self_class := c; self_state := state; self_id := id;
         self_resource_params := filled; self_existing_resource := existing |}
      logs w1 = append logs r w1 /\
    log_changed r = true /\ log_id r = Some (VStr "12345") /\
    log_debug_out r = Some filled.
Proof.
  pose proof (resolve_existing_found api c id rp existing filled w w1 Hresolved Hfound)
    as Hfilled.
  unfold _achieve_present_state. cbn [self_existing_resource self_resource_params].
  rewrite Hfilled, (fill_same_check existing Hwf rp), Hsame.
  rewrite (seq_ok _ _ (lift (Ret false)) _ w1 w1 false eq_refl).
  cbn [negb].
  eexists. split; [destruct logs; reflexivity | repeat split; reflexivity].
Qed.

Lemma check_mode_reports_noop_as_changed_witness :
  let existing :=
    VDict [("id", VStr "seg1"); ("display_name", VStr "old"); ("_revision", VInt 3)] in
  let filled :=
    VDict [("display_name", VStr "old"); ("id", VStr "seg1"); ("_revision", VInt 3)] in
  let w1 := {| trace := [EvRequest "/infra/segments/seg1" "GET" None false];
               default_logs := []; caller_logs := [];
               parent_info_ids := []; parent_info_parent := None |} in
  resolve_existing (manager lone_segment_remote) lone_segment (VStr "seg1")
    (VDict [("display_name", VStr "old")]) initial_world = Ok (existing, filled) w1 /\
  truthy existing = true /\
  check_for_update existing (VDict [("display_name", VStr "old")]) = Ret false /\
  exists r,
    _achieve_present_state (manager lone_segment_remote) true
      {| self_class := lone_segment; self_state := VStr "present"; self_id := VStr "seg1";
         self_resource_params := filled; self_existing_resource := existing |}
      DefaultLogs w1 = append DefaultLogs r w1 /\
    log_changed r = true /\ log_id r = Some (VStr "12345") /\
    log_debug_out r = Some filled.
Proof.
  intros existing filled w1.
  assert (Hwf : well_formed existing).
  { repeat first [ apply wf_dict | apply wf_str | apply wf_int
                 | apply Forall_cons | apply Forall_nil
                 | apply NoDup_nil
                 | (apply NoDup_cons; [simpl; intuition discriminate|]) ]. }
  split; [reflexivity|]. split; [reflexivity|]. split; [reflexivity|].
  exact (check_mode_reports_noop_as_changed (manager lone_segment_remote) lone_segment
           (VStr "present") (VStr "seg1") (VDict [("display_name", VStr "old")])
           existing filled DefaultLogs initial_world w1 eq_refl Hwf eq_refl eq_refl).
Defined.
